(** * A financial-data ETL pipeline: extraction, metric engine, loader, orchestrator

    A shallow embedding of the pipeline's JavaScript modules
    ([extract.js], [transform.js], [load.js], [index.js]) and of the
    [stock_metrics] / [market_indicators] tables of the migration, followed
    by the properties proved about them.

    JavaScript numbers are IEEE-754 binary64 values: they are modelled by
    Rocq's primitive floats.  Objects with optional properties are records
    whose optional fields are [option]s ([None] is [undefined] or [null]);
    exceptions are values of [Exn] carried by [Completion]. *)

From Stdlib Require Import ZArith List String Ascii Bool Lia.
From Stdlib Require Import Permutation Sorted PrimFloat Uint63.
From stdpp Require Import base option list strings pretty gmap.

Local Open Scope string_scope.
Local Open Scope list_scope.

(** ** Host built-ins

    What the modules take from the JavaScript host.  [parseFloat] and
    [parseInt] read a number off a string, [Date_parse] is the time value
    of [new Date(s)] ([None] for an Invalid Date, whose time value is NaN),
    [Math_pow] is [Math.pow], which ECMAScript leaves
    implementation-approximated. *)

Class Host := {
  parseFloat : string -> float;
  parseInt : string -> float;
  Date_parse : string -> option Z;
  Math_pow : float -> float -> float
}.

Definition Math_sqrt (x : float) : float := PrimFloat.sqrt x.

(** The Number value of an array length. *)
Definition Number_of_nat (n : nat) : float :=
  PrimFloat.of_uint63 (Uint63.of_Z (Z.of_nat n)).

(** Truthiness of a property that holds a string when present. *)
Definition truthy (v : option string) : bool :=
  match v with
  | Some s => negb (String.eqb s "")
  | None => false
  end.

(** [Array.prototype.sort] with a comparator.  The sort is stable; a
    comparator result of NaN counts as [+0].  For a consistent comparator
    every stable sort returns this list. *)
Definition cmp_pos (v : option Z) : bool :=
  match v with
  | Some z => (0 <? z)%Z
  | None => false
  end.

Fixpoint sort_insert {A} (cmp : A -> A -> option Z) (x : A) (l : list A) : list A :=
  match l with
  | [] => [x]
  | y :: l' => if cmp_pos (cmp x y) then y :: sort_insert cmp x l' else x :: l
  end.

Definition Array_sort {A} (cmp : A -> A -> option Z) (l : list A) : list A :=
  fold_right (sort_insert cmp) [] l.

(** [(a, b) => new Date(b) - new Date(a)] *)
Definition date_desc `{Host} (a b : string) : option Z :=
  match Date_parse b, Date_parse a with
  | Some tb, Some ta => Some (tb - ta)%Z
  | _, _ => None
  end.

(** ** Exceptions and completions *)

Record Exn := { exn_name : string; message : string }.

Definition TypeError (msg : string) : Exn := {| exn_name := "TypeError"; message := msg |}.
Definition Error (msg : string) : Exn := {| exn_name := "Error"; message := msg |}.

Inductive Completion (A : Type) : Type :=
| Normal (a : A)
| Throw (e : Exn).
Arguments Normal {A} a.
Arguments Throw {A} e.

(** A settled promise. *)
Inductive Outcome (A : Type) : Type :=
| Fulfilled (a : A)
| Rejected (e : Exn).
Arguments Fulfilled {A} a.
Arguments Rejected {A} e.

(** ** Data model *)

(** One entry of Alpha Vantage's ["Time Series (Daily)"] object. *)
Record Bar := {
  k1_open : string;
  k2_high : string;
  k3_low : string;
  k4_close : string;
  k5_volume : string
}.

(** The time-series object: its own properties in property order. *)
Abbreviation TimeSeries := (list (string * Bar)).

Definition Object_keys (timeSeries : TimeSeries) : list string := map fst timeSeries.

Fixpoint get_bar (timeSeries : TimeSeries) (key : string) : option Bar :=
  match timeSeries with
  | [] => None
  | (k, bar) :: rest => if String.eqb k key then Some bar else get_bar rest key
  end.

(** The RawSeries of an equity, as [fetchStockData] returns it. *)
Record StockData := {
  sd_symbol : string;
  sd_error : option string;
  sd_timeSeries : option TimeSeries;
  sd_overview : option (gmap string string);
  sd_extractedAt : string
}.

(** One element of the index provider's [historical] array. *)
Record IndexBar := {
  ib_date : string;
  ib_open : float;
  ib_high : float;
  ib_low : float;
  ib_close : float;
  ib_volume : float
}.

(** The RawSeries of the market index, as [fetchMarketIndexData] returns it. *)
Record MarketData := {
  md_index : string;
  md_error : option string;
  md_historical : option (list IndexBar);
  md_extractedAt : string
}.

Record Price := {
  p_open : float;
  p_high : float;
  p_low : float;
  p_close : float;
  p_volume : float
}.

Record PriceChanges := {
  change7d : option float;
  change30d : option float;
  change90d : option float;
  percentChange7d : option float;
  percentChange30d : option float;
  percentChange90d : option float
}.

Record Volatility := { volatility30d : option float }.

Record Fundamentals := {
  marketCap : option float;
  peRatio : option float;
  dividendYield : option float;
  eps : option float;
  revenue : option float;
  grossProfit : option float;
  profitMargin : option float;
  operatingMargin : option float;
  roa : option float;
  roe : option float;
  dilutedEPS : option float
}.

(** The MetricsRecord of an equity. *)
Record StockMetrics := {
  sm_symbol : string;
  sm_error : option string;
  sm_date : option string;
  sm_price : option Price;
  sm_priceChanges : option PriceChanges;
  sm_volatility : option Volatility;
  sm_fundamentals : option Fundamentals;
  sm_transformedAt : string
}.

(** The MetricsRecord of the market index. *)
Record MarketIndicators := {
  mi_index : string;
  mi_error : option string;
  mi_date : option string;
  mi_price : option Price;
  mi_priceChanges : option PriceChanges;
  mi_volatility : option Volatility;
  mi_transformedAt : string
}.

(** Rows of the two tables.  The columns are grouped as the records of the
    MetricsRecord they are copied from; [date] is [NOT NULL] in the schema
    and may be missing in the inserted object. *)
Record StockRow := {
  sr_symbol : string;
  sr_date : option string;
  sr_price : Price;
  sr_priceChanges : PriceChanges;
  sr_volatility_30d : option float;
  sr_fundamentals : Fundamentals;
  sr_processed_at : string
}.

Record IndexRow := {
  ir_index_name : string;
  ir_date : option string;
  ir_price : Price;
  ir_priceChanges : PriceChanges;
  ir_volatility_30d : option float;
  ir_processed_at : string
}.

(** ** The outside world

    Responses of the two providers, as far as the extractor reads them. *)

(** [response.data] of the daily time-series request: the properties
    ['Error Message'] and ['Time Series (Daily)']. *)
Record AVDaily := {
  av_errorMessage : option string;
  av_timeSeries : option TimeSeries
}.

(** [response.data] of the index request: the property [historical]. *)
Record FMPData := { fmp_historical : option (list IndexBar) }.

(** Calls into the host and the network.  [NowISO] is
    [new Date().toISOString()]; the console calls and [NowISO] return at
    once, every other call returns a promise that the caller awaits. *)
Inductive Call :=
| AxiosGetDaily (symbol : string)
| AxiosGetOverview (symbol : string)
| AxiosGetIndex
| SetTimeout (ms : Z)
| FsMkdir (dir : string)
| FsWriteFile (path : string)
| InsertStock (row : StockRow)
| InsertIndex (row : IndexRow)
| NowISO
| ConsoleLog (line : string)
| ConsoleError (line : string).

Definition is_async (c : Call) : bool :=
  match c with
  | NowISO | ConsoleLog _ | ConsoleError _ => false
  | _ => true
  end.

(** What a call gives back once settled.  An insert resolves to the
    [error] property of the storage client's result ([None] is [null]). *)
Definition answer (c : Call) : Type :=
  match c with
  | AxiosGetDaily _ => Outcome (option AVDaily)
  | AxiosGetOverview _ => Outcome (option (gmap string string))
  | AxiosGetIndex => Outcome (option FMPData)
  | SetTimeout _ => unit
  | FsMkdir _ => Outcome unit
  | FsWriteFile _ => Outcome unit
  | InsertStock _ => Outcome (option string)
  | InsertIndex _ => Outcome (option string)
  | NowISO => string
  | ConsoleLog _ => unit
  | ConsoleError _ => unit
  end.

(** The trace of a run: a call made (a console call is its line), and a
    promise settled. *)
Inductive Event :=
| Issue (c : Call)
| Settle (c : Call).

(** A failure of the storage service that does not come from the schema:
    reported in the result's [error], or as a rejected promise. *)
Inductive DbFault :=
| FaultError (msg : string)
| FaultReject (e : Exn).

(** What the run does not control: the clock's successive readings, the
    providers' responses, the working directory of the process, the file
    system's verdicts, the storage
    service's faults by insert number, and the order in which pending
    promises settle. *)
Record Env := {
  env_clock : nat -> string;
  env_daily : string -> Outcome (option AVDaily);
  env_overview : string -> Outcome (option (gmap string string));
  env_index : Outcome (option FMPData);
  env_cwd : string;
  env_mkdir : Outcome unit;
  env_writeFile : Outcome unit;
  env_db_fault : nat -> option DbFault;
  env_sched : list nat
}.

(** What the run changes. *)
Record State := {
  st_reads : nat;
  st_inserts : nat;
  st_stock_metrics : list StockRow;
  st_market_indicators : list IndexRow;
  st_trace : list Event;
  st_exit : option Z
}.

Definition emit (ev : Event) (st : State) : State :=
  {| st_reads := st_reads st; st_inserts := st_inserts st;
     st_stock_metrics := st_stock_metrics st;
     st_market_indicators := st_market_indicators st;
     st_trace := st_trace st ++ [ev]; st_exit := st_exit st |}.

Definition tick (st : State) : State :=
  {| st_reads := S (st_reads st); st_inserts := st_inserts st;
     st_stock_metrics := st_stock_metrics st;
     st_market_indicators := st_market_indicators st;
     st_trace := st_trace st; st_exit := st_exit st |}.

Definition set_tables (sm : list StockRow) (mi : list IndexRow) (st : State) : State :=
  {| st_reads := st_reads st; st_inserts := S (st_inserts st);
     st_stock_metrics := sm; st_market_indicators := mi;
     st_trace := st_trace st; st_exit := st_exit st |}.

Definition set_exit (code : Z) (st : State) : State :=
  {| st_reads := st_reads st; st_inserts := st_inserts st;
     st_stock_metrics := st_stock_metrics st;
     st_market_indicators := st_market_indicators st;
     st_trace := st_trace st; st_exit := Some code |}.

(** *** The tables of the migration

    [UNIQUE(symbol, date)] and [UNIQUE(index_name, date)], and the
    [NOT NULL] on [date]; an insert that breaks one of them is refused with
    an error and leaves the table as it was.  The dates of two rows are
    compared as they are written; the engine writes the keys of the
    series, which the provider gives as [YYYY-MM-DD]. *)
Definition same_stock_key (symbol date : string) (r : StockRow) : bool :=
  String.eqb (sr_symbol r) symbol && bool_decide (sr_date r = Some date).

Definition same_index_key (index_name date : string) (r : IndexRow) : bool :=
  String.eqb (ir_index_name r) index_name && bool_decide (ir_date r = Some date).

Definition quoted (name : string) : string :=
  let quote := String (Ascii.ascii_of_nat 34) EmptyString in
  quote +:+ name +:+ quote.

Definition not_null_violation (relation : string) : string :=
  "null value in column " +:+ quoted "date" +:+ " of relation " +:+ quoted relation
    +:+ " violates not-null constraint".
Definition stock_unique_violation : string :=
  "duplicate key value violates unique constraint "
    +:+ quoted "stock_metrics_symbol_date_key".
Definition index_unique_violation : string :=
  "duplicate key value violates unique constraint "
    +:+ quoted "market_indicators_index_name_date_key".

Definition insert_stock_row (row : StockRow) (table : list StockRow)
  : option string * list StockRow :=
  match sr_date row with
  | None => (Some (not_null_violation "stock_metrics"), table)
  | Some date =>
      if existsb (same_stock_key (sr_symbol row) date) table
      then (Some stock_unique_violation, table)
      else (None, table ++ [row])
  end.

Definition insert_index_row (row : IndexRow) (table : list IndexRow)
  : option string * list IndexRow :=
  match ir_date row with
  | None => (Some (not_null_violation "market_indicators"), table)
  | Some date =>
      if existsb (same_index_key (ir_index_name row) date) table
      then (Some index_unique_violation, table)
      else (None, table ++ [row])
  end.

(** The effect and the result of a call, at the time it settles. *)
Definition perform (c : Call) (env : Env) (st : State) : answer c * State :=
  match c return answer c * State with
  | AxiosGetDaily symbol => (env_daily env symbol, st)
  | AxiosGetOverview symbol => (env_overview env symbol, st)
  | AxiosGetIndex => (env_index env, st)
  | SetTimeout _ => (tt, st)
  | FsMkdir _ => (env_mkdir env, st)
  | FsWriteFile _ => (env_writeFile env, st)
  | InsertStock row =>
      match env_db_fault env (st_inserts st) with
      | Some (FaultError msg) =>
          (Fulfilled (Some msg), set_tables (st_stock_metrics st) (st_market_indicators st) st)
      | Some (FaultReject e) =>
          (Rejected e, set_tables (st_stock_metrics st) (st_market_indicators st) st)
      | None =>
          let '(err, table) := insert_stock_row row (st_stock_metrics st) in
          (Fulfilled err, set_tables table (st_market_indicators st) st)
      end
  | InsertIndex row =>
      match env_db_fault env (st_inserts st) with
      | Some (FaultError msg) =>
          (Fulfilled (Some msg), set_tables (st_stock_metrics st) (st_market_indicators st) st)
      | Some (FaultReject e) =>
          (Rejected e, set_tables (st_stock_metrics st) (st_market_indicators st) st)
      | None =>
          let '(err, table) := insert_index_row row (st_market_indicators st) in
          (Fulfilled err, set_tables (st_stock_metrics st) table st)
      end
  | NowISO => (env_clock env (st_reads st), tick st)
  | ConsoleLog _ => (tt, st)
  | ConsoleError _ => (tt, st)
  end.

(** ** The monad of sequential code: environment, state, exceptions *)

Definition M (A : Type) : Type := Env -> State -> Completion A * State.

#[global] Instance M_ret : MRet M := fun A a _ st => (Normal a, st).

#[global] Instance M_bind : MBind M := fun A B f m env st =>
  match m env st with
  | (Normal a, st') => f a env st'
  | (Throw e, st') => (Throw e, st')
  end.

Definition throw {A} (e : Exn) : M A := fun _ st => (Throw e, st).

(** [try { body } catch (error) { handler }] *)
Definition try_catch {A} (body : M A) (handler : Exn -> M A) : M A :=
  fun env st =>
    match body env st with
    | (Normal a, st') => (Normal a, st')
    | (Throw e, st') => handler e env st'
    end.

(** A call that returns at once: its effect, and its line on the trace. *)
Definition do_sync (c : Call) (env : Env) (st : State) : answer c * State :=
  let '(r, st') := perform c env st in
  (r, match c with NowISO => st' | _ => emit (Issue c) st' end).

(** A call made and, when it returns a promise, awaited on the spot. *)
Definition call (c : Call) : M (answer c) := fun env st =>
  if is_async c then
    let '(r, st') := perform c env (emit (Issue c) st) in
    (Normal r, emit (Settle c) st')
  else
    let '(r, st') := do_sync c env st in
    (Normal r, st').

(** [await] of a promise that may reject. *)
Definition settled {A} (o : Outcome A) : M A :=
  match o with
  | Fulfilled a => mret a
  | Rejected e => throw e
  end.

(** [process.cwd()] *)
Definition process_cwd : M string := fun env st => (Normal (env_cwd env), st).

Definition process_exit (code : Z) : M unit := fun _ st => (Normal tt, set_exit code st).

(** Exceptions alone, for the parts that touch neither clock nor network. *)
#[global] Instance Completion_ret : MRet Completion := fun A a => Normal a.

#[global] Instance Completion_bind : MBind Completion := fun A B f c =>
  match c with
  | Normal a => f a
  | Throw e => Throw e
  end.

Definition lift {A} (c : Completion A) : M A := fun _ st => (c, st).

(** A [for] loop over the indices [l], the loop's variables in [s]. *)
Fixpoint for_each {A S} (body : S -> A -> Completion S) (l : list A) (s : S)
  : Completion S :=
  match l with
  | [] => Normal s
  | x :: l' => s' ← body s x; for_each body l' s'
  end.

(** ** transform.js: the Metric Engine *)

Section MetricEngine.
Context `{Host}.

Definition no_time_series : string := "No time series data available".
Definition no_historical : string := "No historical data available".

(** [Math.sqrt(variance) * Math.sqrt(252) * 100] over [returns], with the
    mean and the variance computed by the two [reduce] calls. *)
Definition annualized_volatility (returns : list float) : float :=
  let mean :=
    (fold_left (fun sum value => sum + value) returns 0
       / Number_of_nat (length returns))%float in
  let squaredDiffs := map (fun value => Math_pow (value - mean) 2) returns in
  let variance :=
    (fold_left (fun sum value => sum + value) squaredDiffs 0
       / Number_of_nat (length returns))%float in
  (Math_sqrt variance * Math_sqrt 252 * 100)%float.

(** [parseFloat(timeSeries[key]['4. close'])], [key] being [dates[i]]. *)
Definition close_of (timeSeries : TimeSeries) (key : option string) : Completion float :=
  match key ≫= get_bar timeSeries with
  | Some bar => Normal (parseFloat (k4_close bar))
  | None => Throw (TypeError "Cannot read properties of undefined (reading '4. close')")
  end.

(** The body of the loop [for (let i = 0; i < 30; i++)]. *)
Definition push_return (timeSeries : TimeSeries) (dates : list string)
    (returns : list float) (i : nat) : Completion (list float) :=
  if (i + 1 <? length dates)%nat then
    currentClose ← close_of timeSeries (dates !! i);
    previousClose ← close_of timeSeries (dates !! (i + 1)%nat);
    let dailyReturn := ((currentClose - previousClose) / previousClose)%float in
    mret (returns ++ [dailyReturn])
  else mret returns.

Definition stock_volatility (timeSeries : TimeSeries) (dates : list string)
  : Completion (option float) :=
  if (30 <? length dates)%nat then
    returns ← for_each (push_return timeSeries dates) (seq 0 30) [];
    mret (Some (annualized_volatility returns))
  else mret None.

(** [X ? parseFloat(X) : null] and [X ? parseFloat(X) * 100 : null] *)
Definition parsed (v : option string) : option float :=
  match v with
  | Some s => if truthy v then Some (parseFloat s) else None
  | None => None
  end.

Definition parsed_percent (v : option string) : option float :=
  match v with
  | Some s => if truthy v then Some (parseFloat s * 100)%float else None
  | None => None
  end.

Definition fundamentals_of (overview : gmap string string) : Fundamentals :=
  let MarketCapitalization := overview !! "MarketCapitalization" in
  let PERatio := overview !! "PERatio" in
  let DividendYield := overview !! "DividendYield" in
  let EPS := overview !! "EPS" in
  let RevenueTTM := overview !! "RevenueTTM" in
  let GrossProfitTTM := overview !! "GrossProfitTTM" in
  let ProfitMargin := overview !! "ProfitMargin" in
  let OperatingMarginTTM := overview !! "OperatingMarginTTM" in
  let ReturnOnAssetsTTM := overview !! "ReturnOnAssetsTTM" in
  let ReturnOnEquityTTM := overview !! "ReturnOnEquityTTM" in
  let DilutedEPSTTM := overview !! "DilutedEPSTTM" in
  {| marketCap := parsed MarketCapitalization;
     peRatio := parsed PERatio;
     dividendYield := parsed_percent DividendYield;
     eps := parsed EPS;
     revenue := parsed RevenueTTM;
     grossProfit := parsed GrossProfitTTM;
     profitMargin := parsed_percent ProfitMargin;
     operatingMargin := parsed_percent OperatingMarginTTM;
     roa := parsed_percent ReturnOnAssetsTTM;
     roe := parsed_percent ReturnOnEquityTTM;
     dilutedEPS := parsed DilutedEPSTTM |}.

(** [dayData ? latestClose - close(dayData) : null] and
    [dayData ? (priceChange / close(dayData)) * 100 : null], [close] being
    the comparison bar's close as a number. *)
Definition price_change {B} (close : B -> float) (latestClose : float)
    (dayData : option B) : option float :=
  match dayData with
  | Some d => Some (latestClose - close d)%float
  | None => None
  end.

Definition percent_change {B} (close : B -> float) (dayData : option B)
    (priceChange : option float) : option float :=
  match dayData, priceChange with
  | Some d, Some c => Some (c / close d * 100)%float
  | _, _ => None
  end.

Definition degenerate_stock (symbol : string) (error : option string)
    (transformedAt : string) : StockMetrics :=
  {| sm_symbol := symbol; sm_error := error; sm_date := None; sm_price := None;
     sm_priceChanges := None; sm_volatility := None; sm_fundamentals := None;
     sm_transformedAt := transformedAt |}.

Definition calculateStockMetrics (stockData : StockData) : M StockMetrics :=
  if truthy (sd_error stockData) then
    transformedAt ← call NowISO;
    mret (degenerate_stock (sd_symbol stockData) (sd_error stockData) transformedAt)
  else
    let symbol := sd_symbol stockData in
    match sd_timeSeries stockData with
    | None => throw (TypeError "Cannot convert undefined or null to object")
    | Some timeSeries =>
        let dates := Array_sort date_desc (Object_keys timeSeries) in
        match dates with
        | [] =>
            transformedAt ← call NowISO;
            mret (degenerate_stock symbol (Some no_time_series) transformedAt)
        | latestDate :: _ =>
            let day7Data :=
              if (7 <? length dates)%nat then dates !! 7%nat ≫= get_bar timeSeries else None in
            let day30Data :=
              if (30 <? length dates)%nat then dates !! 30%nat ≫= get_bar timeSeries else None in
            let day90Data :=
              if (90 <? length dates)%nat then dates !! 90%nat ≫= get_bar timeSeries else None in
            match get_bar timeSeries latestDate with
            | None =>
                throw (TypeError "Cannot read properties of undefined (reading '4. close')")
            | Some latestData =>
                let close := fun d : Bar => parseFloat (k4_close d) in
                let latestClose := parseFloat (k4_close latestData) in
                let priceChange7d := price_change close latestClose day7Data in
                let priceChange30d := price_change close latestClose day30Data in
                let priceChange90d := price_change close latestClose day90Data in
                let percentChange7d := percent_change close day7Data priceChange7d in
                let percentChange30d := percent_change close day30Data priceChange30d in
                let percentChange90d := percent_change close day90Data priceChange90d in
                volatility30d ← lift (stock_volatility timeSeries dates);
                match sd_overview stockData with
                | None =>
                    throw (TypeError "Cannot destructure property 'MarketCapitalization' of 'overview' as it is undefined.")
                | Some overview =>
                    transformedAt ← call NowISO;
                    mret {| sm_symbol := symbol;
                            sm_error := None;
                            sm_date := Some latestDate;
                            sm_price := Some
                              {| p_open := parseFloat (k1_open latestData);
                                 p_high := parseFloat (k2_high latestData);
                                 p_low := parseFloat (k3_low latestData);
                                 p_close := latestClose;
                                 p_volume := parseInt (k5_volume latestData) |};
                            sm_priceChanges := Some
                              {| change7d := priceChange7d;
                                 change30d := priceChange30d;
                                 change90d := priceChange90d;
                                 percentChange7d := percentChange7d;
                                 percentChange30d := percentChange30d;
                                 percentChange90d := percentChange90d |};
                            sm_volatility := Some {| volatility30d := volatility30d |};
                            sm_fundamentals := Some (fundamentals_of overview);
                            sm_transformedAt := transformedAt |}
                end
            end
        end
    end.

(** [sortedData[i].close] *)
Definition index_close_at (sortedData : list IndexBar) (i : nat) : Completion float :=
  match sortedData !! i with
  | Some bar => Normal (ib_close bar)
  | None => Throw (TypeError "Cannot read properties of undefined (reading 'close')")
  end.

Definition push_index_return (sortedData : list IndexBar)
    (returns : list float) (i : nat) : Completion (list float) :=
  if (i + 1 <? length sortedData)%nat then
    currentClose ← index_close_at sortedData i;
    previousClose ← index_close_at sortedData (i + 1);
    let dailyReturn := ((currentClose - previousClose) / previousClose)%float in
    mret (returns ++ [dailyReturn])
  else mret returns.

Definition index_volatility (sortedData : list IndexBar) : Completion (option float) :=
  if (30 <? length sortedData)%nat then
    returns ← for_each (push_index_return sortedData) (seq 0 30) [];
    mret (Some (annualized_volatility returns))
  else mret None.

Definition degenerate_index (index : string) (error : option string)
    (transformedAt : string) : MarketIndicators :=
  {| mi_index := index; mi_error := error; mi_date := None; mi_price := None;
     mi_priceChanges := None; mi_volatility := None;
     mi_transformedAt := transformedAt |}.

Definition calculateMarketIndicators (marketData : MarketData) : M MarketIndicators :=
  if truthy (md_error marketData) then
    transformedAt ← call NowISO;
    mret (degenerate_index (md_index marketData) (md_error marketData) transformedAt)
  else
    let index := md_index marketData in
    match md_historical marketData with
    | None => throw (TypeError "historical is not iterable")
    | Some historical =>
        let sortedData :=
          Array_sort (fun a b => date_desc (ib_date a) (ib_date b)) historical in
        match sortedData with
        | [] =>
            transformedAt ← call NowISO;
            mret (degenerate_index index (Some no_historical) transformedAt)
        | latestData :: _ =>
            let day7Data := if (7 <? length sortedData)%nat then sortedData !! 7%nat else None in
            let day30Data := if (30 <? length sortedData)%nat then sortedData !! 30%nat else None in
            let day90Data := if (90 <? length sortedData)%nat then sortedData !! 90%nat else None in
            let latestClose := ib_close latestData in
            let priceChange7d := price_change ib_close latestClose day7Data in
            let priceChange30d := price_change ib_close latestClose day30Data in
            let priceChange90d := price_change ib_close latestClose day90Data in
            let percentChange7d := percent_change ib_close day7Data priceChange7d in
            let percentChange30d := percent_change ib_close day30Data priceChange30d in
            let percentChange90d := percent_change ib_close day90Data priceChange90d in
            volatility30d ← lift (index_volatility sortedData);
            transformedAt ← call NowISO;
            mret {| mi_index := index;
                    mi_error := None;
                    mi_date := Some (ib_date latestData);
                    mi_price := Some
                      {| p_open := ib_open latestData;
                         p_high := ib_high latestData;
                         p_low := ib_low latestData;
                         p_close := ib_close latestData;
                         p_volume := ib_volume latestData |};
                    mi_priceChanges := Some
                      {| change7d := priceChange7d;
                         change30d := priceChange30d;
                         change90d := priceChange90d;
                         percentChange7d := percentChange7d;
                         percentChange30d := percentChange30d;
                         percentChange90d := percentChange90d |};
                    mi_volatility := Some {| volatility30d := volatility30d |};
                    mi_transformedAt := transformedAt |}
        end
    end.

End MetricEngine.

(** [transform]'s input and output. *)
Record ExtractedData := {
  ed_stockData : list StockData;
  ed_marketData : option MarketData;
  ed_extractionTimestamp : string
}.

Record TransformedData := {
  td_stockMetrics : list StockMetrics;
  td_marketIndicators : option MarketIndicators;
  td_transformationTimestamp : string
}.

(** [array.map(f)] for an [f] that runs in [M], left to right. *)
Fixpoint mapM {A B} (f : A -> M B) (l : list A) : M (list B) :=
  match l with
  | [] => mret []
  | x :: l' => y ← f x; ys ← mapM f l'; mret (y :: ys)
  end.

Definition transform `{Host} (extractedData : ExtractedData) : M TransformedData :=
  _ ← call (ConsoleLog "Starting data transformation process...");
  stockMetrics ← mapM calculateStockMetrics (ed_stockData extractedData);
  marketIndicators ←
    match ed_marketData extractedData with
    | Some marketData => m ← calculateMarketIndicators marketData; mret (Some m)
    | None => mret None
    end;
  transformationTimestamp ← call NowISO;
  mret {| td_stockMetrics := stockMetrics;
          td_marketIndicators := marketIndicators;
          td_transformationTimestamp := transformationTimestamp |}.

(** ** extract.js: the Extractor *)

(** *** Async functions that run side by side

    The body of an async function as a tree of calls: it runs until the
    first call that returns a promise, stops there, and goes on with the
    promise's settled value when the event loop resumes it. *)
Inductive Task (A : Type) : Type :=
| Ret (a : A)
| Raise (e : Exn)
| Do (c : Call) (k : answer c -> Task A).
Arguments Ret {A} a.
Arguments Raise {A} e.
Arguments Do {A} c k.

Fixpoint task_bind {A B} (f : A -> Task B) (t : Task A) : Task B :=
  match t with
  | Ret a => f a
  | Raise e => Raise e
  | Do c k => Do c (fun r => task_bind f (k r))
  end.

#[global] Instance Task_ret : MRet Task := fun A a => Ret a.
#[global] Instance Task_bind : MBind Task := fun A B f t => task_bind f t.

(** [try { body } catch (error) { handler }] *)
Fixpoint task_try {A} (body : Task A) (handler : Exn -> Task A) : Task A :=
  match body with
  | Ret a => Ret a
  | Raise e => handler e
  | Do c k => Do c (fun r => task_try (k r) handler)
  end.

Definition task_settled {A} (o : Outcome A) : Task A :=
  match o with
  | Fulfilled a => Ret a
  | Rejected e => Raise e
  end.

Definition axios_get_daily (symbol : string) : Task (option AVDaily) :=
  Do (AxiosGetDaily symbol) task_settled.

Definition axios_get_overview (symbol : string) : Task (option (gmap string string)) :=
  Do (AxiosGetOverview symbol) task_settled.

Definition alpha_vantage_error (symbol msg : string) : string :=
  "Alpha Vantage API error for " +:+ symbol +:+ ": " +:+ msg.

(** [response.data] is [None] when the body is [null]. *)
Definition fetchStockData (symbol : string) : Task StockData :=
  task_try
    (response_data ← axios_get_daily symbol;
     match response_data with
     | None =>
         Raise (TypeError "Cannot read properties of null (reading 'Error Message')")
     | Some data =>
         if truthy (av_errorMessage data) then
           Raise (Error (alpha_vantage_error symbol (default "" (av_errorMessage data))))
         else
           overviewResponse_data ← axios_get_overview symbol;
           _ ← Do (SetTimeout 1500) Ret;
           extractedAt ← Do NowISO Ret;
           Ret {| sd_symbol := symbol;
                  sd_error := None;
                  sd_timeSeries := Some (default [] (av_timeSeries data));
                  sd_overview := Some (default ∅ overviewResponse_data);
                  sd_extractedAt := extractedAt |}
     end)
    (fun error =>
       _ ← Do (ConsoleError ("Error fetching data for " +:+ symbol +:+ ": " +:+ message error)) Ret;
       extractedAt ← Do NowISO Ret;
       Ret {| sd_symbol := symbol;
              sd_error := Some (message error);
              sd_timeSeries := None;
              sd_overview := None;
              sd_extractedAt := extractedAt |}).

(** The promise an async function has returned. *)
Inductive Promise (A : Type) : Type :=
| Resolved (a : A)
| Failed (e : Exn)
| Pending (c : Call) (k : answer c -> Task A).
Arguments Resolved {A} a.
Arguments Failed {A} e.
Arguments Pending {A} c k.

(** Calling an async function: the body runs up to its first [await] of a
    pending promise, whose request is issued. *)
Fixpoint start {A} (t : Task A) (env : Env) (st : State) : Promise A * State :=
  match t with
  | Ret a => (Resolved a, st)
  | Raise e => (Failed e, st)
  | Do c k =>
      if is_async c then (Pending c k, emit (Issue c) st)
      else let '(r, st') := do_sync c env st in start (k r) env st'
  end.

(** The awaited call settles and the function runs on to its next [await]. *)
Definition resume {A} (p : Promise A) (env : Env) (st : State) : Promise A * State :=
  match p with
  | Pending c k =>
      let '(r, st') := perform c env st in
      start (k r) env (emit (Settle c) st')
  | _ => (p, st)
  end.

(** The calls of [symbols.map(symbol => f(symbol))] for an async [f]:
    every call is made, in order, before anything is awaited. *)
Fixpoint start_all {A} (ts : list (Task A)) (env : Env) (st : State)
  : list (Promise A) * State :=
  match ts with
  | [] => ([], st)
  | t :: ts' =>
      let '(p, st1) := start t env st in
      let '(ps, st2) := start_all ts' env st1 in
      (p :: ps, st2)
  end.

Definition map_async {A B} (f : A -> Task B) (l : list A) : M (list (Promise B)) :=
  fun env st =>
    let '(ps, st') := start_all (map f l) env st in
    (Normal ps, st').

Definition is_pending {A} (p : Promise A) : bool :=
  match p with Pending _ _ => true | _ => false end.

Fixpoint pending_indices {A} (i : nat) (ps : list (Promise A)) : list nat :=
  match ps with
  | [] => []
  | p :: ps' => if is_pending p then i :: pending_indices (S i) ps' else pending_indices (S i) ps'
  end.

(** The event loop while the promises are awaited: each number of the
    schedule picks, among the pending promises, the one whose call settles
    next. *)
Fixpoint run_sched {A} (sched : list nat) (ps : list (Promise A)) (env : Env) (st : State)
  : list (Promise A) * State :=
  match sched with
  | [] => (ps, st)
  | n :: sched' =>
      match pending_indices 0 ps with
      | [] => (ps, st)
      | i0 :: rest =>
          let i := nth (n mod length (i0 :: rest)) (i0 :: rest) i0 in
          match ps !! i with
          | Some p =>
              let '(p', st') := resume p env st in
              run_sched sched' (<[i := p']> ps) env st'
          | None => (ps, st)
          end
      end
  end.

(** A task run to its end without interleaving. *)
Fixpoint finish {A} (t : Task A) (env : Env) (st : State) : Completion A * State :=
  match t with
  | Ret a => (Normal a, st)
  | Raise e => (Throw e, st)
  | Do c k =>
      if is_async c then
        let '(r, st') := perform c env (emit (Issue c) st) in
        finish (k r) env (emit (Settle c) st')
      else let '(r, st') := do_sync c env st in finish (k r) env st'
  end.

Definition finish_promise {A} (p : Promise A) (env : Env) (st : State)
  : Completion A * State :=
  match p with
  | Resolved a => (Normal a, st)
  | Failed e => (Throw e, st)
  | Pending c k =>
      let '(r, st') := perform c env st in
      finish (k r) env (emit (Settle c) st')
  end.

(** Once the schedule is used up, what is still pending settles promise by
    promise, in the order of the array. *)
Fixpoint drain {A} (ps : list (Promise A)) (env : Env) (st : State)
  : list (Completion A) * State :=
  match ps with
  | [] => ([], st)
  | p :: ps' =>
      let '(r, st1) := finish_promise p env st in
      let '(rs, st2) := drain ps' env st1 in
      (r :: rs, st2)
  end.

Fixpoint all_values {A} (rs : list (Completion A)) : Completion (list A) :=
  match rs with
  | [] => Normal []
  | Normal a :: rs' => vs ← all_values rs'; mret (a :: vs)
  | Throw e :: _ => Throw e
  end.

(** [await Promise.all(promises)]: the values in the order of the array;
    when some promise is rejected, the rejection of the first such promise
    of the array, once all have settled. *)
Definition Promise_all {A} (promises : list (Promise A)) : M (list A) :=
  fun env st =>
    let '(ps, st1) := run_sched (env_sched env) promises env st in
    let '(rs, st2) := drain ps env st1 in
    (all_values rs, st2).

Definition index_fetch_failed : string := "Failed to fetch S&P 500 data".

Definition fetchMarketIndexData : M MarketData :=
  try_catch
    (response_data ← call AxiosGetIndex ≫= settled;
     match response_data ≫= fmp_historical with
     | None => throw (Error index_fetch_failed)
     | Some historical =>
         extractedAt ← call NowISO;
         mret {| md_index := "S&P500";
                 md_error := None;
                 md_historical := Some historical;
                 md_extractedAt := extractedAt |}
     end)
    (fun error =>
       _ ← call (ConsoleError ("Error fetching market index data: " +:+ message error));
       extractedAt ← call NowISO;
       mret {| md_index := "S&P500";
               md_error := Some (message error);
               md_historical := None;
               md_extractedAt := extractedAt |}).

(** [timestamp.replace(/[:.]/g, '-')] *)
Fixpoint replace_colon_dot (s : string) : string :=
  match s with
  | EmptyString => EmptyString
  | String a s' =>
      String (if (Ascii.eqb a ":" || Ascii.eqb a ".")%char then "-"%char else a)
             (replace_colon_dot s')
  end.

(** [path.join] of Node on POSIX, for two arguments: the arguments that
    are not empty, joined by [/], then normalized as [path.normalize]
    does (empty and [.] segments dropped, [..] resolved, a trailing [/]
    kept). *)
Fixpoint path_segments (path cur : string) : list string :=
  match path with
  | EmptyString => [cur]
  | String a path' =>
      if Ascii.eqb a "/" then cur :: path_segments path' EmptyString
      else path_segments path' (cur +:+ String a EmptyString)
  end.

(** The segments kept so far, last first. *)
Definition path_step (allowAboveRoot : bool) (kept : list string) (segment : string)
  : list string :=
  if String.eqb segment "" || String.eqb segment "." then kept
  else if String.eqb segment ".." then
    match kept with
    | last :: kept' =>
        if String.eqb last ".." then (if allowAboveRoot then ".." :: kept else kept)
        else kept'
    | [] => if allowAboveRoot then [".."] else []
    end
  else segment :: kept.

Fixpoint path_glue (segments : list string) : string :=
  match segments with
  | [] => ""
  | [segment] => segment
  | segment :: segments' => segment +:+ "/" +:+ path_glue segments'
  end.

Definition ends_with_slash (path : string) : bool :=
  match last (list_ascii_of_string path) with
  | Some a => Ascii.eqb a "/"
  | None => false
  end.

Definition path_normalize (path : string) : string :=
  match path with
  | EmptyString => "."
  | String first _ =>
      let isAbsolute := Ascii.eqb first "/" in
      let trailingSeparator := ends_with_slash path in
      let kept := fold_left (path_step (negb isAbsolute)) (path_segments path "") [] in
      let normalized := path_glue (rev kept) in
      if String.eqb normalized "" then
        if isAbsolute then "/" else if trailingSeparator then "./" else "."
      else
        let normalized :=
          if trailingSeparator then normalized +:+ "/" else normalized in
        if isAbsolute then "/" +:+ normalized else normalized
  end.

Definition path_join (a b : string) : string :=
  if String.eqb a "" then (if String.eqb b "" then "." else path_normalize b)
  else if String.eqb b "" then path_normalize a
  else path_normalize (a +:+ "/" +:+ b).
Arguments path_join : simpl never.

(** The directory is [data] under the working directory of the process;
    the file's content is the serialized batch. *)
Definition saveRawData (data : ExtractedData) : M (option string) :=
  try_catch
    (cwd ← process_cwd;
     let dataDir := path_join cwd "data" in
     _ ← call (FsMkdir dataDir) ≫= settled;
     now ← call NowISO;
     let timestamp := replace_colon_dot now in
     let filePath := path_join dataDir ("raw_data_" +:+ timestamp +:+ ".json") in
     _ ← call (FsWriteFile filePath) ≫= settled;
     mret (Some filePath))
    (fun error =>
       _ ← call (ConsoleError ("Error saving raw data: " +:+ message error));
       mret None).

(** [STOCKS_TO_TRACK] is read from the process environment when the module
    is loaded. *)
Definition extract (STOCKS_TO_TRACK : list string) : M ExtractedData :=
  _ ← call (ConsoleLog "Starting data extraction process...");
  stockDataPromises ← map_async fetchStockData STOCKS_TO_TRACK;
  stockData ← Promise_all stockDataPromises;
  marketData ← fetchMarketIndexData;
  extractionTimestamp ← call NowISO;
  let extractedData :=
    {| ed_stockData := stockData;
       ed_marketData := Some marketData;
       ed_extractionTimestamp := extractionTimestamp |} in
  savedFilePath ← saveRawData extractedData;
  _ ← match savedFilePath with
      | Some path => call (ConsoleLog ("Raw data saved to " +:+ path))
      | None => mret tt
      end;
  mret extractedData.

(** ** load.js: the Loader *)

(** [results.success] holds [{symbol, date}], [results.errors] holds
    [{symbol, error}]. *)
Record LoadResults := {
  lr_success : list (string * option string);
  lr_errors : list (string * string)
}.

Record MarketResult := {
  mr_success : bool;
  mr_index : option string;
  mr_date : option string;
  mr_error : option string
}.

Record LoadResult := {
  stocksLoaded : nat;
  stockErrors : nat;
  indicatorsLoaded : nat;
  indicatorErrors : nat;
  lr_timestamp : string
}.

Definition undefined_reading (prop : string) : Exn :=
  TypeError ("Cannot read properties of undefined (reading '" +:+ prop +:+ "')").

(** The error object of the storage client's result, thrown as it is. *)
Definition storage_error (msg : string) : Exn :=
  {| exn_name := "PostgrestError"; message := msg |}.

(** The object literal passed to [insert]. *)
Definition stock_row_of (stock : StockMetrics) : Completion StockRow :=
  match sm_price stock with
  | None => Throw (undefined_reading "open")
  | Some price =>
      match sm_priceChanges stock with
      | None => Throw (undefined_reading "change7d")
      | Some priceChanges =>
          match sm_volatility stock with
          | None => Throw (undefined_reading "volatility30d")
          | Some volatility =>
              match sm_fundamentals stock with
              | None => Throw (undefined_reading "marketCap")
              | Some fundamentals =>
                  Normal {| sr_symbol := sm_symbol stock;
                            sr_date := sm_date stock;
                            sr_price := price;
                            sr_priceChanges := priceChanges;
                            sr_volatility_30d := volatility30d volatility;
                            sr_fundamentals := fundamentals;
                            sr_processed_at := sm_transformedAt stock |}
              end
          end
      end
  end.

Definition index_row_of (marketIndicators : MarketIndicators) : Completion IndexRow :=
  match mi_price marketIndicators with
  | None => Throw (undefined_reading "open")
  | Some price =>
      match mi_priceChanges marketIndicators with
      | None => Throw (undefined_reading "change7d")
      | Some priceChanges =>
          match mi_volatility marketIndicators with
          | None => Throw (undefined_reading "volatility30d")
          | Some volatility =>
              Normal {| ir_index_name := mi_index marketIndicators;
                        ir_date := mi_date marketIndicators;
                        ir_price := price;
                        ir_priceChanges := priceChanges;
                        ir_volatility_30d := volatility30d volatility;
                        ir_processed_at := mi_transformedAt marketIndicators |}
          end
      end
  end.

Definition push_error (results : LoadResults) (symbol error : string) : LoadResults :=
  {| lr_success := lr_success results;
     lr_errors := lr_errors results ++ [(symbol, error)] |}.

Definition push_success (results : LoadResults) (symbol : string) (date : option string)
  : LoadResults :=
  {| lr_success := lr_success results ++ [(symbol, date)];
     lr_errors := lr_errors results |}.

(** The body of [for (const stock of stockMetrics)]. *)
Definition load_stock (results : LoadResults) (stock : StockMetrics) : M LoadResults :=
  try_catch
    (if truthy (sm_error stock) then
       mret (push_error results (sm_symbol stock) (default "" (sm_error stock)))
     else
       row ← lift (stock_row_of stock);
       error ← call (InsertStock row) ≫= settled;
       match error with
       | Some msg => throw (storage_error msg)
       | None => mret (push_success results (sm_symbol stock) (sm_date stock))
       end)
    (fun error =>
       _ ← call (ConsoleError
                   ("Error loading data for " +:+ sm_symbol stock +:+ ": " +:+ message error));
       mret (push_error results (sm_symbol stock) (message error))).

Fixpoint for_of {A S} (body : S -> A -> M S) (l : list A) (s : S) : M S :=
  match l with
  | [] => mret s
  | x :: l' => s' ← body s x; for_of body l' s'
  end.

Definition loadStockMetrics (stockMetrics : list StockMetrics) : M LoadResults :=
  for_of load_stock stockMetrics {| lr_success := []; lr_errors := [] |}.

Definition no_market_indicators : string := "No market indicators provided".

Definition loadMarketIndicators (marketIndicators : option MarketIndicators)
  : M MarketResult :=
  match marketIndicators with
  | None =>
      mret {| mr_success := false; mr_index := None; mr_date := None;
              mr_error := Some no_market_indicators |}
  | Some mi =>
      if truthy (mi_error mi) then
        mret {| mr_success := false; mr_index := None; mr_date := None;
                mr_error := mi_error mi |}
      else
        try_catch
          (row ← lift (index_row_of mi);
           error ← call (InsertIndex row) ≫= settled;
           match error with
           | Some msg => throw (storage_error msg)
           | None =>
               mret {| mr_success := true; mr_index := Some (mi_index mi);
                       mr_date := mi_date mi; mr_error := None |}
           end)
          (fun error =>
             _ ← call (ConsoleError
                         ("Error loading market indicators for " +:+ mi_index mi
                            +:+ ": " +:+ message error));
             mret {| mr_success := false; mr_index := Some (mi_index mi);
                     mr_date := None; mr_error := Some (message error) |})
  end.

Definition load (transformedData : TransformedData) : M LoadResult :=
  _ ← call (ConsoleLog "Starting data loading process...");
  stockResults ← loadStockMetrics (td_stockMetrics transformedData);
  marketResult ←
    match td_marketIndicators transformedData with
    | Some marketIndicators => loadMarketIndicators (Some marketIndicators)
    | None =>
        mret {| mr_success := false; mr_index := None; mr_date := None;
                mr_error := Some no_market_indicators |}
    end;
  timestamp ← call NowISO;
  mret {| stocksLoaded := length (lr_success stockResults);
          stockErrors := length (lr_errors stockResults);
          indicatorsLoaded := if mr_success marketResult then 1 else 0;
          indicatorErrors := if mr_success marketResult then 0 else 1;
          lr_timestamp := timestamp |}.

(** ** index.js: the Orchestrator *)

Record PipelineResult := {
  pr_success : bool;
  pr_message : option string;
  pr_error : option string
}.

Definition count_of {A} (v : option A) : string :=
  match v with Some _ => "1" | None => "0" end.

(** The [try] block of [runETLPipeline], the three imported stages being
    parameters. *)
Definition run_stages_body (extract : M ExtractedData)
    (transform : ExtractedData -> M TransformedData)
    (load : TransformedData -> M LoadResult) : M PipelineResult :=
  _ ← call (ConsoleLog "Extracting data...");
  rawData ← extract;
  _ ← call (ConsoleLog
              ("Extracted data for " +:+ pretty (length (ed_stockData rawData))
                 +:+ " stocks and " +:+ count_of (ed_marketData rawData)
                 +:+ " market indices"));
  _ ← call (ConsoleLog "Transforming data...");
  transformedData ← transform rawData;
  _ ← call (ConsoleLog
              ("Transformed " +:+ pretty (length (td_stockMetrics transformedData))
                 +:+ " stock metrics and "
                 +:+ count_of (td_marketIndicators transformedData)
                 +:+ " market indicators"));
  _ ← call (ConsoleLog "Loading data into database...");
  result ← load transformedData;
  _ ← call (ConsoleLog
              ("Successfully loaded data: " +:+ pretty (stocksLoaded result)
                 +:+ " stocks, " +:+ pretty (indicatorsLoaded result) +:+ " indicators"));
  _ ← call (ConsoleLog "ETL pipeline completed successfully!");
  mret {| pr_success := true;
          pr_message := Some "ETL pipeline completed successfully";
          pr_error := None |}.

(** The [catch] block. *)
Definition failure_result (error : Exn) : PipelineResult :=
  {| pr_success := false; pr_message := None; pr_error := Some (message error) |}.

Definition run_stages (extract : M ExtractedData)
    (transform : ExtractedData -> M TransformedData)
    (load : TransformedData -> M LoadResult) : M PipelineResult :=
  _ ← call (ConsoleLog "Starting ETL pipeline...");
  try_catch
    (run_stages_body extract transform load)
    (fun error =>
       _ ← call (ConsoleError ("Error in ETL pipeline: " +:+ message error));
       mret (failure_result error)).

Definition runETLPipeline `{Host} (STOCKS_TO_TRACK : list string) : M PipelineResult :=
  run_stages (extract STOCKS_TO_TRACK) transform load.

(** *** The guard of the blocks that run a module directly

    [import.meta.url] is the module's URL, a string; [import.meta.main]
    is a boolean where the runtime defines it and [undefined] elsewhere. *)
Inductive JsValue :=
| JsUndefined
| JsBoolean (b : bool)
| JsString (s : string).

(** [a === b] *)
Definition strict_equals (a b : JsValue) : bool :=
  match a, b with
  | JsUndefined, JsUndefined => true
  | JsBoolean x, JsBoolean y => Bool.eqb x y
  | JsString x, JsString y => String.eqb x y
  | _, _ => false
  end.

Record ImportMeta := {
  meta_url : string;
  meta_main : option bool
}.

(** [import.meta.url === import.meta.main] *)
Definition run_directly (meta : ImportMeta) : bool :=
  strict_equals (JsString (meta_url meta))
    match meta_main meta with
    | Some b => JsBoolean b
    | None => JsUndefined
    end.

(** The end of [index.js]: under the guard,
    [runETLPipeline().then(...).catch(...)]. *)
Definition main `{Host} (meta : ImportMeta) (STOCKS_TO_TRACK : list string) : M unit :=
  if run_directly meta then
    try_catch
      (result ← runETLPipeline STOCKS_TO_TRACK;
       if negb (pr_success result) then process_exit 1 else mret tt)
      (fun err =>
         _ ← call (ConsoleError ("Unhandled error in ETL pipeline: " +:+ message err));
         process_exit 1)
  else mret tt.

(** ** A reference host

    An instance of the built-ins to run the model on: enough of
    [parseFloat], [parseInt], [Date] and [Math.pow] for plain decimal
    numerals (at most fifteen significant digits, for which one correctly
    rounded division gives the nearest binary64 value), ISO [YYYY-MM-DD]
    dates, and squares. *)
Module Reference.

Definition digit_of (a : ascii) : option Z :=
  let n := Z.of_nat (nat_of_ascii a) in
  if ((48 <=? n) && (n <=? 57))%Z then Some (n - 48)%Z else None.

(** The digits at the head of [s]: their value after [acc], how many there
    are, and what follows them. *)
Fixpoint read_digits (s : string) (acc : Z) (count : nat) : Z * nat * string :=
  match s with
  | EmptyString => (acc, count, s)
  | String a s' =>
      match digit_of a with
      | Some d => read_digits s' (10 * acc + d)%Z (S count)
      | None => (acc, count, s)
      end
  end.

Definition float_of_Z (z : Z) : float := PrimFloat.of_uint63 (Uint63.of_Z z).

Definition unsigned_decimal (s : string) : float :=
  let '(int_part, n1, rest) := read_digits s 0 0 in
  match rest with
  | String "." rest' =>
      let '(all, n2, _) := read_digits rest' int_part 0 in
      if ((n1 + n2)%nat =? 0)%nat then PrimFloat.nan
      else (float_of_Z all / float_of_Z (10 ^ Z.of_nat n2))%float
  | _ => if (n1 =? 0)%nat then PrimFloat.nan else float_of_Z int_part
  end.

Definition parse_float (s : string) : float :=
  match s with
  | String "-" s' => (- unsigned_decimal s')%float
  | String "+" s' => unsigned_decimal s'
  | _ => unsigned_decimal s
  end.

Definition unsigned_integer (s : string) : float :=
  let '(v, n, _) := read_digits s 0 0 in
  if (n =? 0)%nat then PrimFloat.nan else float_of_Z v.

Definition parse_int (s : string) : float :=
  match s with
  | String "-" s' => (- unsigned_integer s')%float
  | String "+" s' => unsigned_integer s'
  | _ => unsigned_integer s
  end.

(** Days from 1970-01-01 to the given civil date. *)
Definition days_from_civil (y m d : Z) : Z :=
  let y' := (if m <=? 2 then y - 1 else y)%Z in
  let era := (y' / 400)%Z in
  let yoe := (y' - era * 400)%Z in
  let mp := ((m + 9) mod 12)%Z in
  let doy := ((153 * mp + 2) / 5 + d - 1)%Z in
  let doe := (yoe * 365 + yoe / 4 - yoe / 100 + doy)%Z in
  (era * 146097 + doe - 719468)%Z.

Definition date_parse (s : string) : option Z :=
  let '(y, n1, r1) := read_digits s 0 0 in
  match r1 with
  | String "-" r1' =>
      let '(m, n2, r2) := read_digits r1' 0 0 in
      match r2 with
      | String "-" r2' =>
          let '(d, n3, r3) := read_digits r2' 0 0 in
          if ((n1 =? 4)%nat && (n2 =? 2)%nat && (n3 =? 2)%nat && String.eqb r3 ""
              && (1 <=? m)%Z && (m <=? 12)%Z && (1 <=? d)%Z && (d <=? 31)%Z)
          then Some (days_from_civil y m d * 86400000)%Z
          else None
      | _ => None
      end
  | _ => None
  end.

Definition math_pow (x y : float) : float :=
  if PrimFloat.eqb y 2 then (x * x)%float
  else if PrimFloat.eqb y 1 then x
  else if PrimFloat.eqb y 0 then 1%float
  else PrimFloat.nan.

Definition host : Host :=
  {| parseFloat := parse_float;
     parseInt := parse_int;
     Date_parse := date_parse;
     Math_pow := math_pow |}.

(** A world in which every request succeeds and the clock reads its own
    count of readings. *)
Definition two_digits (n : nat) : string :=
  if (n <? 10)%nat then "0" +:+ pretty n else pretty n.

(** The [i]-th day of a year of twelve months of twenty-eight days. *)
Definition day (i : nat) : string :=
  "2023-" +:+ two_digits (i / 28 + 1) +:+ "-" +:+ two_digits (i mod 28 + 1).

Definition bar (close : string) : Bar :=
  {| k1_open := "100.5"; k2_high := "105"; k3_low := "99.25";
     k4_close := close; k5_volume := "1000000" |}.

(** [n] bars, oldest first, closing at 100, 101, ... *)
Definition series (n : nat) : TimeSeries :=
  map (fun i => (day i, bar (pretty (100 + i)))) (seq 0 n).

Definition index_series (n : nat) : list IndexBar :=
  map (fun i => {| ib_date := day i; ib_open := 4000; ib_high := 4100;
                   ib_low := 3950; ib_close := float_of_Z (4000 + Z.of_nat i);
                   ib_volume := 10000000 |}) (seq 0 n).

Definition overview : gmap string string :=
  <["MarketCapitalization" := "1000000000"]>
    (<["PERatio" := "20"]> (<["DividendYield" := "0.02"]> (<["EPS" := ""]> ∅))).

Definition stock (symbol : string) (n : nat) : StockData :=
  {| sd_symbol := symbol; sd_error := None; sd_timeSeries := Some (series n);
     sd_overview := Some overview; sd_extractedAt := "t" |}.

Definition market (n : nat) : MarketData :=
  {| md_index := "S&P500"; md_error := None; md_historical := Some (index_series n);
     md_extractedAt := "t" |}.

Definition env : Env :=
  {| env_clock := fun n => "T" +:+ pretty n;
     env_daily := fun _ =>
       Fulfilled (Some {| av_errorMessage := None; av_timeSeries := Some (series 8) |});
     env_overview := fun _ => Fulfilled (Some overview);
     env_index := Fulfilled (Some {| fmp_historical := Some (index_series 8) |});
     env_cwd := "/home/etl";
     env_mkdir := Fulfilled tt;
     env_writeFile := Fulfilled tt;
     env_db_fault := fun _ => None;
     env_sched := [] |}.

Definition init : State :=
  {| st_reads := 0; st_inserts := 0; st_stock_metrics := [];
     st_market_indicators := []; st_trace := []; st_exit := None |}.

End Reference.

#[warnings="-inexact-float"]
Example parseFloat_ref : Reference.parse_float "0.02" = 0.02%float /\
  Reference.parse_float "102.5" = 102.5%float /\ Reference.parse_float "-3" = (-3)%float.
Proof. repeat split; reflexivity. Qed.

Example Date_parse_ref : Reference.date_parse "2023-01-01" = Some 1672531200000%Z /\
  Reference.date_parse "1970-01-01" = Some 0%Z /\ Reference.date_parse "None" = None.
Proof. repeat split; reflexivity. Qed.

(** * Properties *)

(** ** The sort *)

Section SortFacts.
Context {A : Type} (cmp : A -> A -> option Z).

Lemma sort_insert_perm (x : A) (l : list A) :
  Permutation (sort_insert cmp x l) (x :: l).
Proof.
  induction l as [|y l IH]; simpl; [reflexivity|].
  destruct (cmp_pos (cmp x y)); [|reflexivity].
  rewrite IH. apply perm_swap.
Qed.

Lemma Array_sort_perm (l : list A) : Permutation (Array_sort cmp l) l.
Proof.
  induction l as [|x l IH]; simpl; [reflexivity|].
  rewrite sort_insert_perm. now constructor.
Qed.

Lemma Array_sort_length (l : list A) : length (Array_sort cmp l) = length l.
Proof. apply Permutation_length, Array_sort_perm. Qed.

Lemma Array_sort_nil (l : list A) : Array_sort cmp l = [] -> l = [].
Proof.
  intros E. apply Permutation_nil. rewrite <- E. apply Array_sort_perm.
Qed.

End SortFacts.

(** Sorting by a key commutes with reading the key off. *)
Lemma sort_insert_map {A B} (f : A -> B) (cmp : B -> B -> option Z) (x : A) (l : list A) :
  map f (sort_insert (fun a b => cmp (f a) (f b)) x l) = sort_insert cmp (f x) (map f l).
Proof.
  induction l as [|y l IH]; simpl; [reflexivity|].
  destruct (cmp_pos (cmp (f x) (f y))); simpl; [now rewrite IH | reflexivity].
Qed.

Lemma Array_sort_map {A B} (f : A -> B) (cmp : B -> B -> option Z) (l : list A) :
  map f (Array_sort (fun a b => cmp (f a) (f b)) l) = Array_sort cmp (map f l).
Proof.
  induction l as [|x l IH]; simpl; [reflexivity|].
  now rewrite sort_insert_map, IH.
Qed.

(** ** Descending dates *)

Section DateOrder.
Context `{Host} {A : Type} (date : A -> string).

(** [a] is dated no earlier than [b]. *)
Definition not_older (a b : A) : Prop :=
  exists ta tb, Date_parse (date a) = Some ta /\ Date_parse (date b) = Some tb
                /\ (tb <= ta)%Z.

Definition dated (a : A) : Prop := is_Some (Date_parse (date a)).

Definition by_date_desc (a b : A) : option Z := date_desc (date a) (date b).

Lemma not_older_trans (a b c : A) : not_older a b -> not_older b c -> not_older a c.
Proof.
  intros (ta & tb & Ha & Hb & Hab) (tb' & tc & Hb' & Hc & Hbc).
  exists ta, tc. repeat split; try assumption.
  rewrite Hb in Hb'. injection Hb' as <-. lia.
Qed.

Lemma by_date_desc_pos (x y : A) :
  dated x -> dated y ->
  if cmp_pos (by_date_desc x y) then not_older y x else not_older x y.
Proof.
  intros [tx Hx] [ty Hy]. unfold by_date_desc, date_desc. rewrite Hx, Hy. simpl.
  destruct (Z.ltb_spec 0 (ty - tx)); [exists ty, tx | exists tx, ty];
    repeat split; try assumption; lia.
Qed.

Lemma sort_insert_sorted (x : A) (l : list A) :
  dated x -> Forall dated l ->
  StronglySorted not_older l ->
  StronglySorted not_older (sort_insert by_date_desc x l).
Proof.
  intros Hx Hl Hs. induction Hs as [|y l Hs IH Hy]; simpl.
  - repeat constructor.
  - apply Forall_cons in Hl as [Hdy Hl].
    pose proof (by_date_desc_pos x y Hx Hdy) as Hc.
    destruct (cmp_pos (by_date_desc x y)).
    + constructor; [now apply IH|].
      rewrite (sort_insert_perm by_date_desc x l). now constructor.
    + constructor; [now constructor|].
      constructor; [assumption|].
      eapply Forall_impl; [exact Hy|]. intros z Hz. eapply not_older_trans; eassumption.
Qed.

Lemma Array_sort_sorted (l : list A) :
  Forall dated l -> StronglySorted not_older (Array_sort by_date_desc l).
Proof.
  induction 1 as [|x l Hx Hl IH]; simpl; [constructor|].
  apply sort_insert_sorted; try assumption.
  now rewrite (Array_sort_perm by_date_desc l).
Qed.

End DateOrder.

(** ** Stepping through [M] *)

Lemma bind_run {A B} (m : M A) (f : A -> M B) (env : Env) (st : State) :
  (m ≫= f) env st =
  match m env st with
  | (Normal a, st') => f a env st'
  | (Throw e, st') => (Throw e, st')
  end.
Proof. reflexivity. Qed.

Lemma now_run (env : Env) (st : State) :
  call NowISO env st = (Normal (env_clock env (st_reads st)), tick st).
Proof. reflexivity. Qed.

Lemma lift_run {A} (c : Completion A) (env : Env) (st : State) :
  lift c env st = (c, st).
Proof. reflexivity. Qed.

(** ** The metric engine, on the sorted bars *)

(** The volatility as the specification words it: the population standard
    deviation (the squared deviations from the mean, summed and divided by
    the count) of the thirty simple daily returns, annualized. *)
Section VolatilitySpec.
Context `{Host}.

Definition sum (xs : list float) : float :=
  fold_left (fun acc x => (acc + x)%float) xs 0%float.

Definition mean (xs : list float) : float :=
  (sum xs / Number_of_nat (length xs))%float.

Definition population_stdev (xs : list float) : float :=
  Math_sqrt (sum (map (fun x => Math_pow (x - mean xs) 2) xs)
               / Number_of_nat (length xs))%float.

(** [(close[i] - close[i+1]) / close[i+1]] for [i = 0..29], over the closes
    of the bars in descending date order. *)
Definition simple_return (closes : list float) (i : nat) : float :=
  ((nth i closes nan - nth (S i) closes nan) / nth (S i) closes nan)%float.

Definition simple_returns (closes : list float) : list float :=
  map (simple_return closes) (seq 0 30).

Definition spec_volatility (closes : list float) : option float :=
  if (30 <? length closes)%nat
  then Some (population_stdev (simple_returns closes) * Math_sqrt 252 * 100)%float
  else None.

Lemma annualized_volatility_spec (returns : list float) :
  annualized_volatility returns
  = (population_stdev returns * Math_sqrt 252 * 100)%float.
Proof. reflexivity. Qed.

Lemma simple_returns_length (closes : list float) : length (simple_returns closes) = 30%nat.
Proof. unfold simple_returns. now rewrite length_map, length_seq. Qed.

(** The loop of the source, whatever reads the closes. *)
Lemma returns_loop (body : list float -> nat -> Completion (list float))
    (len : nat) (close_at : nat -> Completion float) (closes : list float) :
  (forall returns i,
     body returns i =
     if (i + 1 <? len)%nat then
       currentClose ← close_at i;
       previousClose ← close_at (i + 1)%nat;
       mret (returns ++ [((currentClose - previousClose) / previousClose)%float])
     else mret returns) ->
  (forall i, (i < len)%nat -> close_at i = Normal (nth i closes nan)) ->
  forall n a acc, (a + n < len)%nat ->
    for_each body (seq a n) acc = Normal (acc ++ map (simple_return closes) (seq a n)).
Proof.
  intros Hbody Hclose. induction n as [|n IH]; intros a acc Hlen; simpl.
  - now rewrite app_nil_r.
  - rewrite Hbody. destruct (Nat.ltb_spec (a + 1) len) as [_|Hge]; [|lia].
    rewrite (Hclose a) by lia. rewrite (Hclose (a + 1)%nat) by lia.
    unfold mbind, Completion_bind, mret, Completion_ret.
    rewrite IH by lia. rewrite <- app_assoc. simpl.
    unfold simple_return. now replace (a + 1)%nat with (S a) by lia.
Qed.

End VolatilitySpec.

Lemma lookup_map {A B} (f : A -> B) (l : list A) (i : nat) :
  map f l !! i = f <$> (l !! i).
Proof.
  revert i. induction l as [|x l IH]; intros [|i]; simpl; try reflexivity. apply IH.
Qed.

Lemma nth_lookup_map {A B} (f : A -> B) (l : list A) (i : nat) (x : A) (d : B) :
  l !! i = Some x -> nth i (map f l) d = f x.
Proof.
  revert i. induction l as [|y l IH]; intros [|i]; simpl; try discriminate.
  - now intros [= ->].
  - apply IH.
Qed.

Section StockFacts.
Context `{Host}.

(** The entries of the time series in the order the source puts the keys. *)
Definition sorted_entries (timeSeries : TimeSeries) : TimeSeries :=
  Array_sort (by_date_desc fst) timeSeries.

Definition bar_close (entry : string * Bar) : float := parseFloat (k4_close entry.2).

Lemma sorted_keys (ts : TimeSeries) :
  map fst (sorted_entries ts) = Array_sort date_desc (Object_keys ts).
Proof. apply (Array_sort_map fst date_desc). Qed.

Lemma sorted_entries_length (ts : TimeSeries) : length (sorted_entries ts) = length ts.
Proof. apply Array_sort_length. Qed.

Lemma sorted_dates_length (ts : TimeSeries) :
  length (Array_sort date_desc (Object_keys ts)) = length ts.
Proof. rewrite Array_sort_length. apply length_map. Qed.

Lemma get_bar_in (ts : TimeSeries) (d : string) (b : Bar) :
  NoDup (Object_keys ts) -> In (d, b) ts -> get_bar ts d = Some b.
Proof.
  induction ts as [|[k bar] ts IH]; simpl; [tauto|].
  intros Hnd Hin. apply NoDup_cons in Hnd as [Hk Hnd].
  destruct (String.eqb_spec k d) as [->|Hne].
  - destruct Hin as [[= ->]|Hin]; [reflexivity|].
    exfalso. apply Hk. apply list_elem_of_In. apply (in_map fst) in Hin. exact Hin.
  - destruct Hin as [[= -> _]|Hin]; [congruence|]. now apply IH.
Qed.

Lemma sorted_lookup (ts : TimeSeries) (i : nat) (d : string) (b : Bar) :
  NoDup (Object_keys ts) ->
  sorted_entries ts !! i = Some (d, b) ->
  Array_sort date_desc (Object_keys ts) !! i = Some d /\ get_bar ts d = Some b.
Proof.
  intros Hnd Hi. split.
  - rewrite <- sorted_keys, lookup_map, Hi. reflexivity.
  - apply get_bar_in; [assumption|].
    apply list_elem_of_In.
    rewrite <- (Array_sort_perm (by_date_desc fst) ts).
    eapply list_elem_of_lookup_2. exact Hi.
Qed.

(** [dates.length > k ? timeSeries[dates[k]] : null] *)
Lemma day_data (ts : TimeSeries) (k : nat) :
  NoDup (Object_keys ts) ->
  (if (k <? length (Array_sort date_desc (Object_keys ts)))%nat
   then Array_sort date_desc (Object_keys ts) !! k ≫= get_bar ts else None)
  = snd <$> (sorted_entries ts !! k).
Proof.
  intros Hnd. rewrite sorted_dates_length.
  destruct (sorted_entries ts !! k) as [[d b]|] eqn:Hk.
  - pose proof (lookup_lt_Some _ _ _ Hk) as Hlt. rewrite sorted_entries_length in Hlt.
    destruct (Nat.ltb_spec k (length ts)); [|lia].
    destruct (sorted_lookup ts k d b Hnd Hk) as [-> Hb]. exact Hb.
  - apply lookup_ge_None in Hk. rewrite sorted_entries_length in Hk.
    destruct (Nat.ltb_spec k (length ts)); [lia|reflexivity].
Qed.

Lemma close_of_sorted (ts : TimeSeries) (i : nat) :
  NoDup (Object_keys ts) -> (i < length ts)%nat ->
  close_of ts (Array_sort date_desc (Object_keys ts) !! i)
  = Normal (nth i (map bar_close (sorted_entries ts)) nan).
Proof.
  intros Hnd Hlt. rewrite <- sorted_entries_length in Hlt.
  destruct (lookup_lt_is_Some_2 _ _ Hlt) as [[d b] Hi].
  destruct (sorted_lookup ts i d b Hnd Hi) as [Hd Hb].
  unfold close_of. rewrite Hd. simpl. rewrite Hb.
  now rewrite (nth_lookup_map bar_close _ _ _ nan Hi).
Qed.

Lemma stock_volatility_spec (ts : TimeSeries) :
  NoDup (Object_keys ts) ->
  stock_volatility ts (Array_sort date_desc (Object_keys ts))
  = Normal (spec_volatility (map bar_close (sorted_entries ts))).
Proof.
  intros Hnd. unfold stock_volatility, spec_volatility.
  rewrite sorted_dates_length, length_map, sorted_entries_length.
  destruct (Nat.ltb_spec 30 (length ts)) as [Hlt|Hge]; [|reflexivity].
  rewrite (returns_loop _ (length ts)
             (fun i => close_of ts (Array_sort date_desc (Object_keys ts) !! i))
             (map bar_close (sorted_entries ts))).
  - reflexivity.
  - intros returns i. unfold push_return. now rewrite sorted_dates_length.
  - intros i Hi. now apply close_of_sorted.
  - lia.
Qed.

(** The record the source builds from a series that has bars. *)
Definition stock_record (symbol : string) (bars : TimeSeries) (overview : gmap string string)
    (latestDate : string) (latestData : Bar) (transformedAt : string) : StockMetrics :=
  let latestClose := parseFloat (k4_close latestData) in
  let close := fun d : Bar => parseFloat (k4_close d) in
  let day := fun k : nat => snd <$> (bars !! k) in
  {| sm_symbol := symbol;
     sm_error := None;
     sm_date := Some latestDate;
     sm_price := Some
       {| p_open := parseFloat (k1_open latestData);
          p_high := parseFloat (k2_high latestData);
          p_low := parseFloat (k3_low latestData);
          p_close := latestClose;
          p_volume := parseInt (k5_volume latestData) |};
     sm_priceChanges := Some
       {| change7d := price_change close latestClose (day 7%nat);
          change30d := price_change close latestClose (day 30%nat);
          change90d := price_change close latestClose (day 90%nat);
          percentChange7d :=
            percent_change close (day 7%nat) (price_change close latestClose (day 7%nat));
          percentChange30d :=
            percent_change close (day 30%nat) (price_change close latestClose (day 30%nat));
          percentChange90d :=
            percent_change close (day 90%nat) (price_change close latestClose (day 90%nat)) |};
     sm_volatility := Some {| volatility30d := spec_volatility (map bar_close bars) |};
     sm_fundamentals := Some (fundamentals_of overview);
     sm_transformedAt := transformedAt |}.

Lemma calculateStockMetrics_bars (sd : StockData) (env : Env) (st : State)
    (ts : TimeSeries) (ov : gmap string string) :
  truthy (sd_error sd) = false ->
  sd_timeSeries sd = Some ts ->
  sd_overview sd = Some ov ->
  NoDup (Object_keys ts) ->
  ts <> [] ->
  exists latestDate latestData,
    sorted_entries ts !! 0%nat = Some (latestDate, latestData) /\
    calculateStockMetrics sd env st
    = (Normal (stock_record (sd_symbol sd) (sorted_entries ts) ov latestDate latestData
                 (env_clock env (st_reads st))),
       tick st).
Proof.
  intros Herr Hts Hov Hnd Hne.
  destruct (sorted_entries ts) as [|[d0 b0] rest] eqn:Hbars.
  { apply Array_sort_nil in Hbars. contradiction. }
  exists d0, b0. split; [reflexivity|].
  destruct (sorted_lookup ts 0 d0 b0 Hnd) as [Hd0 Hb0]; [now rewrite Hbars|].
  unfold calculateStockMetrics. rewrite Herr, Hts, Hov.
  rewrite !(day_data ts) by assumption.
  rewrite (stock_volatility_spec ts Hnd).
  destruct (Array_sort date_desc (Object_keys ts)) as [|latestDate dates] eqn:Hdates;
    [discriminate|].
  injection Hd0 as ->. rewrite Hb0, Hbars.
  reflexivity.
Qed.

End StockFacts.

Section IndexFacts.
Context `{Host}.

(** [sortedData] of the source. *)
Definition sorted_bars (historical : list IndexBar) : list IndexBar :=
  Array_sort (by_date_desc ib_date) historical.

Lemma sorted_bars_length (h : list IndexBar) : length (sorted_bars h) = length h.
Proof. apply Array_sort_length. Qed.

Lemma index_day_data (bars : list IndexBar) (k : nat) :
  (if (k <? length bars)%nat then bars !! k else None) = bars !! k.
Proof.
  destruct (Nat.ltb_spec k (length bars)); [reflexivity|].
  symmetry. now apply lookup_ge_None.
Qed.

Lemma index_close_at_nth (bars : list IndexBar) (i : nat) :
  (i < length bars)%nat ->
  index_close_at bars i = Normal (nth i (map ib_close bars) nan).
Proof.
  intros Hlt. destruct (lookup_lt_is_Some_2 _ _ Hlt) as [b Hi].
  unfold index_close_at. rewrite Hi.
  now rewrite (nth_lookup_map ib_close _ _ _ nan Hi).
Qed.

Lemma index_volatility_spec (bars : list IndexBar) :
  index_volatility bars = Normal (spec_volatility (map ib_close bars)).
Proof.
  unfold index_volatility, spec_volatility. rewrite length_map.
  destruct (Nat.ltb_spec 30 (length bars)) as [Hlt|Hge]; [|reflexivity].
  rewrite (returns_loop _ (length bars) (index_close_at bars) (map ib_close bars)).
  - reflexivity.
  - reflexivity.
  - intros i Hi. now apply index_close_at_nth.
  - lia.
Qed.

(** The record the source builds from a history that has bars. *)
Definition index_record (index : string) (bars : list IndexBar) (latestData : IndexBar)
    (transformedAt : string) : MarketIndicators :=
  let latestClose := ib_close latestData in
  let day := fun k : nat => bars !! k in
  {| mi_index := index;
     mi_error := None;
     mi_date := Some (ib_date latestData);
     mi_price := Some
       {| p_open := ib_open latestData;
          p_high := ib_high latestData;
          p_low := ib_low latestData;
          p_close := ib_close latestData;
          p_volume := ib_volume latestData |};
     mi_priceChanges := Some
       {| change7d := price_change ib_close latestClose (day 7%nat);
          change30d := price_change ib_close latestClose (day 30%nat);
          change90d := price_change ib_close latestClose (day 90%nat);
          percentChange7d :=
            percent_change ib_close (day 7%nat) (price_change ib_close latestClose (day 7%nat));
          percentChange30d :=
            percent_change ib_close (day 30%nat) (price_change ib_close latestClose (day 30%nat));
          percentChange90d :=
            percent_change ib_close (day 90%nat) (price_change ib_close latestClose (day 90%nat)) |};
     mi_volatility := Some {| volatility30d := spec_volatility (map ib_close bars) |};
     mi_transformedAt := transformedAt |}.

Lemma calculateMarketIndicators_bars (md : MarketData) (env : Env) (st : State)
    (h : list IndexBar) :
  truthy (md_error md) = false ->
  md_historical md = Some h ->
  h <> [] ->
  exists latestData,
    sorted_bars h !! 0%nat = Some latestData /\
    calculateMarketIndicators md env st
    = (Normal (index_record (md_index md) (sorted_bars h) latestData
                 (env_clock env (st_reads st))),
       tick st).
Proof.
  intros Herr Hh Hne.
  destruct (sorted_bars h) as [|b0 rest] eqn:Hbars.
  { apply Array_sort_nil in Hbars. contradiction. }
  exists b0. split; [reflexivity|].
  unfold calculateMarketIndicators. rewrite Herr, Hh.
  change (Array_sort (fun a b => date_desc (ib_date a) (ib_date b)) h) with (sorted_bars h).
  rewrite !index_day_data, index_volatility_spec, Hbars.
  reflexivity.
Qed.

End IndexFacts.

(** ** Degenerate records *)

Section Degenerate.
Context `{Host}.

Lemma calculateStockMetrics_error (sd : StockData) (env : Env) (st : State) :
  truthy (sd_error sd) = true ->
  calculateStockMetrics sd env st
  = (Normal (degenerate_stock (sd_symbol sd) (sd_error sd) (env_clock env (st_reads st))),
     tick st).
Proof. intros Herr. unfold calculateStockMetrics. now rewrite Herr. Qed.

Lemma calculateStockMetrics_empty (sd : StockData) (env : Env) (st : State) :
  truthy (sd_error sd) = false ->
  sd_timeSeries sd = Some [] ->
  calculateStockMetrics sd env st
  = (Normal (degenerate_stock (sd_symbol sd) (Some no_time_series)
               (env_clock env (st_reads st))),
     tick st).
Proof. intros Herr Hts. unfold calculateStockMetrics. now rewrite Herr, Hts. Qed.

Lemma calculateMarketIndicators_error (md : MarketData) (env : Env) (st : State) :
  truthy (md_error md) = true ->
  calculateMarketIndicators md env st
  = (Normal (degenerate_index (md_index md) (md_error md) (env_clock env (st_reads st))),
     tick st).
Proof. intros Herr. unfold calculateMarketIndicators. now rewrite Herr. Qed.

Lemma calculateMarketIndicators_empty (md : MarketData) (env : Env) (st : State) :
  truthy (md_error md) = false ->
  md_historical md = Some [] ->
  calculateMarketIndicators md env st
  = (Normal (degenerate_index (md_index md) (Some no_historical)
               (env_clock env (st_reads st))),
     tick st).
Proof. intros Herr Hh. unfold calculateMarketIndicators. now rewrite Herr, Hh. Qed.

End Degenerate.

(** ** Lookback changes *)

Inductive Lookback := D7 | D30 | D90.

Definition days (k : Lookback) : nat :=
  match k with D7 => 7 | D30 => 30 | D90 => 90 end.

Definition change_of (k : Lookback) (pc : PriceChanges) : option float :=
  match k with D7 => change7d pc | D30 => change30d pc | D90 => change90d pc end.

Definition percent_of (k : Lookback) (pc : PriceChanges) : option float :=
  match k with
  | D7 => percentChange7d pc | D30 => percentChange30d pc | D90 => percentChange90d pc
  end.

(** The fields as a reader of the record finds them: [None] when the field
    is [null] and when the record has no such block. *)
Definition stock_change (k : Lookback) (m : StockMetrics) : option float :=
  sm_priceChanges m ≫= change_of k.
Definition stock_percent (k : Lookback) (m : StockMetrics) : option float :=
  sm_priceChanges m ≫= percent_of k.
Definition stock_volatility30d (m : StockMetrics) : option float :=
  sm_volatility m ≫= volatility30d.
Definition index_change (k : Lookback) (m : MarketIndicators) : option float :=
  mi_priceChanges m ≫= change_of k.
Definition index_percent (k : Lookback) (m : MarketIndicators) : option float :=
  mi_priceChanges m ≫= percent_of k.
Definition index_volatility30d (m : MarketIndicators) : option float :=
  mi_volatility m ≫= volatility30d.

(** What the specification asks of the [k]-day fields of a record made from
    [n] bars, [bars] being the series in descending date order and [close]
    the close of a bar. *)
Definition lookback_holds {B} (close : B -> float) (n : nat) (bars : list B) (k : nat)
    (change percent : option float) : Prop :=
  (is_Some change <-> (k < n)%nat) /\
  (is_Some percent <-> (k < n)%nat) /\
  forall reference comparison,
    bars !! 0%nat = Some reference -> bars !! k = Some comparison ->
    change = Some (close reference - close comparison)%float /\
    percent = Some ((close reference - close comparison) / close comparison * 100)%float.

Lemma lookback_of_day {E B} (f : E -> B) (close : B -> float) (bars : list E)
    (reference : E) (k : nat) :
  bars !! 0%nat = Some reference ->
  let day := f <$> (bars !! k) in
  let change := price_change close (close (f reference)) day in
  lookback_holds (fun e => close (f e)) (length bars) bars k change
    (percent_change close day change).
Proof.
  intros Href. unfold lookback_holds. simpl.
  destruct (bars !! k) as [c|] eqn:Hk; simpl.
  - pose proof (lookup_lt_Some _ _ _ Hk) as Hlt.
    split; [|split].
    + split; [intros _; exact Hlt | intros _; eexists; reflexivity].
    + split; [intros _; exact Hlt | intros _; eexists; reflexivity].
    + intros r c' Hr Hc. rewrite Href in Hr. injection Hr as <-. injection Hc as <-.
      split; reflexivity.
  - apply lookup_ge_None in Hk.
    split; [|split].
    + split; [intros [x Hx]; discriminate | lia].
    + split; [intros [x Hx]; discriminate | lia].
    + intros r c _ Hc. discriminate.
Qed.

Lemma lookback_nil {B} (close : B -> float) (k : nat) :
  lookback_holds close 0 [] k None None.
Proof.
  split; [|split].
  - split; [intros [x Hx]; discriminate | simpl; lia].
  - split; [intros [x Hx]; discriminate | simpl; lia].
  - intros r c Hr. discriminate.
Qed.

#[global] Instance dated_dec `{Host} {A} (date : A -> string) (a : A) :
  Decision (dated date a).
Proof. unfold dated. apply _. Defined.

(** C1.  For an error-free RawSeries of [n] bars, of an equity or of the
    index, the [k]-day absolute-change and percent-change fields of the
    MetricsRecord are non-null exactly when [n > k], for [k] in 7, 30, 90.
    The record is computed over the bars in descending date order: when the
    fields are non-null the comparison bar is the bar at index [k] of that
    sequence, the absolute change is the reference close minus the
    comparison close, and the percent change is the absolute change divided
    by the comparison close, times 100.  When [n <= k] both fields are
    null; the call returns a record in every case. *)
Theorem lookback_fields_iff_enough_bars `{Host} (env : Env) (st : State)
    (sd : StockData) (ts : TimeSeries) (ov : gmap string string)
    (md : MarketData) (h : list IndexBar) :
  truthy (sd_error sd) = false ->
  sd_timeSeries sd = Some ts ->
  sd_overview sd = Some ov ->
  NoDup (Object_keys ts) ->
  Forall (dated fst) ts ->
  truthy (md_error md) = false ->
  md_historical md = Some h ->
  Forall (dated ib_date) h ->
  (exists record bars,
      calculateStockMetrics sd env st = (Normal record, tick st) /\
      bars ≡ₚ ts /\
      StronglySorted (not_older fst) bars /\
      forall k, lookback_holds bar_close (length ts) bars (days k)
                  (stock_change k record) (stock_percent k record))
  /\
  (exists record bars,
      calculateMarketIndicators md env st = (Normal record, tick st) /\
      bars ≡ₚ h /\
      StronglySorted (not_older ib_date) bars /\
      forall k, lookback_holds ib_close (length h) bars (days k)
                  (index_change k record) (index_percent k record)).
Proof.
  intros Herr Hts Hov Hnd Hdated Herr' Hh Hdated'. split.
  - destruct ts as [|e ts'] eqn:Ets.
    + exists (degenerate_stock (sd_symbol sd) (Some no_time_series)
                (env_clock env (st_reads st))), [].
      split; [now apply calculateStockMetrics_empty|].
      split; [reflexivity|]. split; [constructor|].
      intros k. apply lookback_nil.
    + rewrite <- Ets in *.
      destruct (calculateStockMetrics_bars sd env st ts ov) as (d0 & b0 & H0 & Hrun);
        try assumption; [now rewrite Ets|].
      eexists _, (sorted_entries ts). split; [exact Hrun|].
      split; [apply Array_sort_perm|].
      split; [now apply Array_sort_sorted|].
      rewrite <- (sorted_entries_length ts).
      intros []; exact (lookback_of_day snd (fun d => parseFloat (k4_close d))
                          (sorted_entries ts) (d0, b0) _ H0).
  - destruct h as [|e h'] eqn:Eh.
    + exists (degenerate_index (md_index md) (Some no_historical)
                (env_clock env (st_reads st))), [].
      split; [now apply calculateMarketIndicators_empty|].
      split; [reflexivity|]. split; [constructor|].
      intros k. apply lookback_nil.
    + rewrite <- Eh in *.
      destruct (calculateMarketIndicators_bars md env st h) as (b0 & H0 & Hrun);
        try assumption; [now rewrite Eh|].
      eexists _, (sorted_bars h). split; [exact Hrun|].
      split; [apply Array_sort_perm|].
      split; [now apply Array_sort_sorted|].
      rewrite <- (sorted_bars_length h).
      intros k. unfold index_change, index_percent, index_record. simpl.
      pose proof (lookback_of_day id ib_close (sorted_bars h) b0 (days k) H0) as L.
      simpl in L. rewrite option_fmap_id in L.
      destruct k; exact L.
Qed.

(** The theorem at series of 91 bars in the reference world. *)
Lemma lookback_fields_witness :
  (exists record bars,
      @calculateStockMetrics Reference.host (Reference.stock "X" 91)
        Reference.env Reference.init = (Normal record, tick Reference.init) /\
      bars ≡ₚ Reference.series 91 /\
      StronglySorted (@not_older Reference.host _ fst) bars /\
      forall k, lookback_holds (@bar_close Reference.host) (length (Reference.series 91))
                  bars (days k) (stock_change k record) (stock_percent k record))
  /\
  (exists record bars,
      @calculateMarketIndicators Reference.host (Reference.market 91)
        Reference.env Reference.init = (Normal record, tick Reference.init) /\
      bars ≡ₚ Reference.index_series 91 /\
      StronglySorted (@not_older Reference.host _ ib_date) bars /\
      forall k, lookback_holds ib_close (length (Reference.index_series 91))
                  bars (days k) (index_change k record) (index_percent k record)).
Proof.
  apply (@lookback_fields_iff_enough_bars Reference.host Reference.env Reference.init
           (Reference.stock "X" 91) (Reference.series 91) Reference.overview
           (Reference.market 91) (Reference.index_series 91)); try reflexivity.
  - apply (bool_decide_unpack _). vm_compute. exact I.
  - apply (bool_decide_unpack _). vm_compute. exact I.
  - apply (bool_decide_unpack _). vm_compute. exact I.
Defined.

(** ** Volatility *)

(** What the specification asks of the volatility field of a record made
    from [n] bars whose closes, in descending date order, are [closes]. *)
Definition volatility_holds `{Host} (n : nat) (closes : list float)
    (volatility : option float) : Prop :=
  (volatility = None <-> (n <= 30)%nat) /\
  ((30 < n)%nat ->
     let returns := simple_returns closes in
     volatility = Some (population_stdev returns * Math_sqrt 252 * 100)%float /\
     length returns = 30%nat /\
     forall i, (i < 30)%nat ->
       exists c c', closes !! i = Some c /\ closes !! S i = Some c' /\
                    returns !! i = Some ((c - c') / c')%float).

Lemma spec_volatility_holds `{Host} (closes : list float) :
  volatility_holds (length closes) closes (spec_volatility closes).
Proof.
  unfold volatility_holds, spec_volatility.
  destruct (Nat.ltb_spec 30 (length closes)) as [Hlt|Hge].
  - split; [split; [discriminate | lia]|].
    intros _. split; [reflexivity|]. split; [apply simple_returns_length|].
    intros i Hi.
    destruct (lookup_lt_is_Some_2 closes i) as [c Hc]; [lia|].
    destruct (lookup_lt_is_Some_2 closes (S i)) as [c' Hc']; [lia|].
    exists c, c'. repeat split; try assumption.
    unfold simple_returns. rewrite lookup_map, lookup_seq_lt by assumption. simpl.
    unfold simple_return.
    now rewrite (nth_lookup_Some _ _ nan _ Hc), (nth_lookup_Some _ _ nan _ Hc').
  - split; [split; [lia | reflexivity]|]. lia.
Qed.

Lemma volatility_nil `{Host} : volatility_holds 0 [] None.
Proof. split; [split; [lia | reflexivity]|]. lia. Qed.

(** C2.  For an error-free RawSeries of [n] bars, of an equity or of the
    index, the 30-day volatility field is null exactly when [n <= 30].
    When [n > 30] it is the population standard deviation (squared
    deviations summed and divided by the count) of exactly thirty simple
    daily returns [(close[i] - close[i+1]) / close[i+1]], [i = 0..29], over
    the bars in descending date order, times [sqrt 252], times 100. *)
Theorem volatility_iff_more_than_30_bars `{Host} (env : Env) (st : State)
    (sd : StockData) (ts : TimeSeries) (ov : gmap string string)
    (md : MarketData) (h : list IndexBar) :
  truthy (sd_error sd) = false ->
  sd_timeSeries sd = Some ts ->
  sd_overview sd = Some ov ->
  NoDup (Object_keys ts) ->
  Forall (dated fst) ts ->
  truthy (md_error md) = false ->
  md_historical md = Some h ->
  Forall (dated ib_date) h ->
  (exists record bars,
      calculateStockMetrics sd env st = (Normal record, tick st) /\
      bars ≡ₚ ts /\
      StronglySorted (not_older fst) bars /\
      volatility_holds (length ts) (map bar_close bars) (stock_volatility30d record))
  /\
  (exists record bars,
      calculateMarketIndicators md env st = (Normal record, tick st) /\
      bars ≡ₚ h /\
      StronglySorted (not_older ib_date) bars /\
      volatility_holds (length h) (map ib_close bars) (index_volatility30d record)).
Proof.
  intros Herr Hts Hov Hnd Hdated Herr' Hh Hdated'. split.
  - destruct ts as [|e ts'] eqn:Ets.
    + exists (degenerate_stock (sd_symbol sd) (Some no_time_series)
                (env_clock env (st_reads st))), [].
      split; [now apply calculateStockMetrics_empty|].
      split; [reflexivity|]. split; [constructor|]. apply volatility_nil.
    + rewrite <- Ets in *.
      destruct (calculateStockMetrics_bars sd env st ts ov) as (d0 & b0 & H0 & Hrun);
        try assumption; [now rewrite Ets|].
      eexists _, (sorted_entries ts). split; [exact Hrun|].
      split; [apply Array_sort_perm|].
      split; [now apply Array_sort_sorted|].
      rewrite <- (sorted_entries_length ts), <- (length_map bar_close).
      apply spec_volatility_holds.
  - destruct h as [|e h'] eqn:Eh.
    + exists (degenerate_index (md_index md) (Some no_historical)
                (env_clock env (st_reads st))), [].
      split; [now apply calculateMarketIndicators_empty|].
      split; [reflexivity|]. split; [constructor|]. apply volatility_nil.
    + rewrite <- Eh in *.
      destruct (calculateMarketIndicators_bars md env st h) as (b0 & H0 & Hrun);
        try assumption; [now rewrite Eh|].
      eexists _, (sorted_bars h). split; [exact Hrun|].
      split; [apply Array_sort_perm|].
      split; [now apply Array_sort_sorted|].
      rewrite <- (sorted_bars_length h), <- (length_map ib_close).
      apply spec_volatility_holds.
Qed.

(** The theorem at series of 31 bars in the reference world. *)
Lemma volatility_witness :
  (exists record bars,
      @calculateStockMetrics Reference.host (Reference.stock "X" 31)
        Reference.env Reference.init = (Normal record, tick Reference.init) /\
      bars ≡ₚ Reference.series 31 /\
      StronglySorted (@not_older Reference.host _ fst) bars /\
      @volatility_holds Reference.host (length (Reference.series 31))
        (map (@bar_close Reference.host) bars) (stock_volatility30d record))
  /\
  (exists record bars,
      @calculateMarketIndicators Reference.host (Reference.market 31)
        Reference.env Reference.init = (Normal record, tick Reference.init) /\
      bars ≡ₚ Reference.index_series 31 /\
      StronglySorted (@not_older Reference.host _ ib_date) bars /\
      @volatility_holds Reference.host (length (Reference.index_series 31))
        (map ib_close bars) (index_volatility30d record)).
Proof.
  apply (@volatility_iff_more_than_30_bars Reference.host Reference.env Reference.init
           (Reference.stock "X" 31) (Reference.series 31) Reference.overview
           (Reference.market 31) (Reference.index_series 31)); try reflexivity.
  - apply (bool_decide_unpack _). vm_compute. exact I.
  - apply (bool_decide_unpack _). vm_compute. exact I.
  - apply (bool_decide_unpack _). vm_compute. exact I.
Defined.

(** ** Degenerate records, exactly *)

(** A record with its blocks: no error, and price, price changes and
    volatility present. *)
Definition full_stock_record (m : StockMetrics) : Prop :=
  sm_error m = None /\ is_Some (sm_date m) /\ is_Some (sm_price m) /\
  is_Some (sm_priceChanges m) /\ is_Some (sm_volatility m) /\
  is_Some (sm_fundamentals m).

Definition full_index_record (m : MarketIndicators) : Prop :=
  mi_error m = None /\ is_Some (mi_date m) /\ is_Some (mi_price m) /\
  is_Some (mi_priceChanges m) /\ is_Some (mi_volatility m).

Lemma no_time_series_truthy : truthy (Some no_time_series) = true.
Proof. reflexivity. Qed.

Lemma no_historical_truthy : truthy (Some no_historical) = true.
Proof. reflexivity. Qed.

Lemma calculateStockMetrics_otherwise `{Host} (sd : StockData) (env : Env) (st : State) :
  truthy (sd_error sd) = false ->
  sd_timeSeries sd <> Some [] ->
  forall m st', calculateStockMetrics sd env st = (Normal m, st') -> full_stock_record m.
Proof.
  intros Herr Hts m st'. unfold calculateStockMetrics. rewrite Herr.
  destruct (sd_timeSeries sd) as [ts|]; [|discriminate].
  destruct (Array_sort date_desc (Object_keys ts)) as [|latestDate dates] eqn:Hd.
  { apply Array_sort_nil in Hd. destruct ts; [congruence | discriminate]. }
  destruct (get_bar ts latestDate); [|discriminate].
  rewrite bind_run, lift_run.
  destruct (stock_volatility ts (latestDate :: dates)); [|discriminate].
  destruct (sd_overview sd); [|discriminate].
  intros [= <- _]. repeat split; eexists; reflexivity.
Qed.

Lemma calculateMarketIndicators_otherwise `{Host} (md : MarketData) (env : Env) (st : State) :
  truthy (md_error md) = false ->
  md_historical md <> Some [] ->
  forall m st', calculateMarketIndicators md env st = (Normal m, st') -> full_index_record m.
Proof.
  intros Herr Hh m st'. unfold calculateMarketIndicators. rewrite Herr.
  destruct (md_historical md) as [h|]; [|discriminate].
  destruct (Array_sort _ h) as [|latestData bars] eqn:Hd.
  { apply Array_sort_nil in Hd. congruence. }
  rewrite bind_run, lift_run.
  destruct (index_volatility (latestData :: bars)); [|discriminate].
  intros [= <- _]. repeat split; eexists; reflexivity.
Qed.

(** The degenerate MetricsRecord as the specification words it: the
    identifier, an error message and a transformation timestamp, and no
    price, price-change, volatility or fundamentals block (nor a
    reference date). *)
Definition spec_degenerate_stock (identifier : string) (error : string)
    (transformedAt : string) : StockMetrics :=
  {| sm_symbol := identifier;
     sm_error := Some error;
     sm_date := None;
     sm_price := None;
     sm_priceChanges := None;
     sm_volatility := None;
     sm_fundamentals := None;
     sm_transformedAt := transformedAt |}.

Definition spec_degenerate_index (identifier : string) (error : string)
    (transformedAt : string) : MarketIndicators :=
  {| mi_index := identifier;
     mi_error := Some error;
     mi_date := None;
     mi_price := None;
     mi_priceChanges := None;
     mi_volatility := None;
     mi_transformedAt := transformedAt |}.

(** A provider that refuses every request, for the equities and for the
    index, with an exception whose message is empty. *)
Definition refusing_env : Env :=
  {| env_clock := env_clock Reference.env;
     env_daily := fun _ => Rejected (Error "");
     env_overview := env_overview Reference.env;
     env_index := Rejected (Error "");
     env_cwd := env_cwd Reference.env;
     env_mkdir := Fulfilled tt;
     env_writeFile := Fulfilled tt;
     env_db_fault := fun _ => None;
     env_sched := [] |}.

(** C5.  The metric engine returns the degenerate MetricsRecord
    (identifier, error message, transformation timestamp, and no block)
    when the RawSeries carries a non-empty error message, with that
    message, and when it carries none and its bar sequence is empty, with
    a fixed no-data message that differs from whatever the input's error
    property holds; on bars it returns only records with no error and with
    their blocks.  It does not return the degenerate record for every
    RawSeries that carries an error: the early return is taken on
    [if (stockData.error)], which the empty message does not pass, and for
    the item of a fetch that failed with an empty message (the error [''],
    no bars) the engine throws a [TypeError] and returns no record, for an
    equity and for the index.  The extractor builds such items: it does in
    the world in which the providers refuse every request with an empty
    message. *)
Theorem degenerate_record_unless_error_message_empty `{Host} (env : Env) (st : State)
    (sd : StockData) (md : MarketData) :
  let now := env_clock env (st_reads st) in
  ((exists error,
       sd_error sd = Some error /\ error <> "" /\
       calculateStockMetrics sd env st
       = (Normal (spec_degenerate_stock (sd_symbol sd) error now), tick st))
   \/
   (truthy (sd_error sd) = false /\ sd_timeSeries sd = Some [] /\
    sd_error sd <> Some "No time series data available" /\
    calculateStockMetrics sd env st
    = (Normal (spec_degenerate_stock (sd_symbol sd) "No time series data available" now),
       tick st))
   \/
   (truthy (sd_error sd) = false /\
    (exists bar bars, sd_timeSeries sd = Some (bar :: bars)) /\
    forall m st', calculateStockMetrics sd env st = (Normal m, st') ->
                  full_stock_record m)
   \/
   (truthy (sd_error sd) = false /\ sd_timeSeries sd = None /\
    calculateStockMetrics sd env st
    = (Throw (TypeError "Cannot convert undefined or null to object"), st)))
  /\
  ((exists error,
       md_error md = Some error /\ error <> "" /\
       calculateMarketIndicators md env st
       = (Normal (spec_degenerate_index (md_index md) error now), tick st))
   \/
   (truthy (md_error md) = false /\ md_historical md = Some [] /\
    md_error md <> Some "No historical data available" /\
    calculateMarketIndicators md env st
    = (Normal (spec_degenerate_index (md_index md) "No historical data available" now),
       tick st))
   \/
   (truthy (md_error md) = false /\
    (exists bar bars, md_historical md = Some (bar :: bars)) /\
    forall m st', calculateMarketIndicators md env st = (Normal m, st') ->
                  full_index_record m)
   \/
   (truthy (md_error md) = false /\ md_historical md = None /\
    calculateMarketIndicators md env st
    = (Throw (TypeError "historical is not iterable"), st)))
  /\
  (sd_error sd = Some "" -> sd_timeSeries sd = None ->
   calculateStockMetrics sd env st
   = (Throw (TypeError "Cannot convert undefined or null to object"), st))
  /\
  (md_error md = Some "" -> md_historical md = None ->
   calculateMarketIndicators md env st
   = (Throw (TypeError "historical is not iterable"), st))
  /\
  (exists item st1,
      finish (fetchStockData "AAPL") refusing_env Reference.init = (Normal item, st1) /\
      sd_symbol item = "AAPL" /\ sd_error item = Some "" /\ sd_timeSeries item = None /\
      @calculateStockMetrics Reference.host item refusing_env st1
      = (Throw (TypeError "Cannot convert undefined or null to object"), st1))
  /\
  (exists item st1,
      fetchMarketIndexData refusing_env Reference.init = (Normal item, st1) /\
      md_index item = "S&P500" /\ md_error item = Some "" /\ md_historical item = None /\
      @calculateMarketIndicators Reference.host item refusing_env st1
      = (Throw (TypeError "historical is not iterable"), st1)).
Proof.
  intros now.
  assert (Hstock : forall sd0 : StockData,
             truthy (sd_error sd0) = false -> sd_timeSeries sd0 = None ->
             calculateStockMetrics sd0 env st
             = (Throw (TypeError "Cannot convert undefined or null to object"), st)).
  { intros sd0 Herr Hts. unfold calculateStockMetrics. now rewrite Herr, Hts. }
  assert (Hindex : forall md0 : MarketData,
             truthy (md_error md0) = false -> md_historical md0 = None ->
             calculateMarketIndicators md0 env st
             = (Throw (TypeError "historical is not iterable"), st)).
  { intros md0 Herr Hh. unfold calculateMarketIndicators. now rewrite Herr, Hh. }
  split; [|split; [|split; [|split; [|split]]]].
  - destruct (truthy (sd_error sd)) eqn:Herr.
    + left. destruct (sd_error sd) as [error|] eqn:He; [|discriminate].
      exists error. split; [reflexivity|]. split.
      * intros ->. discriminate.
      * rewrite calculateStockMetrics_error by now rewrite He.
        now rewrite He.
    + right. destruct (sd_timeSeries sd) as [[|e ts]|] eqn:Hts.
      * left. split; [reflexivity|]. split; [reflexivity|]. split.
        -- intros E. rewrite E in Herr. discriminate.
        -- now rewrite calculateStockMetrics_empty.
      * right. left. split; [reflexivity|]. split; [now exists e, ts|].
        apply calculateStockMetrics_otherwise; [assumption | now rewrite Hts].
      * right. right. split; [reflexivity|]. split; [reflexivity|].
        now apply Hstock.
  - destruct (truthy (md_error md)) eqn:Herr.
    + left. destruct (md_error md) as [error|] eqn:He; [|discriminate].
      exists error. split; [reflexivity|]. split.
      * intros ->. discriminate.
      * rewrite calculateMarketIndicators_error by now rewrite He.
        now rewrite He.
    + right. destruct (md_historical md) as [[|b h]|] eqn:Hh.
      * left. split; [reflexivity|]. split; [reflexivity|]. split.
        -- intros E. rewrite E in Herr. discriminate.
        -- now rewrite calculateMarketIndicators_empty.
      * right. left. split; [reflexivity|]. split; [now exists b, h|].
        apply calculateMarketIndicators_otherwise; [assumption | now rewrite Hh].
      * right. right. split; [reflexivity|]. split; [reflexivity|].
        now apply Hindex.
  - intros He Hts. apply Hstock; [now rewrite He | exact Hts].
  - intros He Hh. apply Hindex; [now rewrite He | exact Hh].
  - eexists _, _. split; [vm_compute; reflexivity|]. repeat split.
  - eexists _, _. split; [vm_compute; reflexivity|]. repeat split.
Qed.

(** ** Fundamentals *)

(** The fundamentals as the specification words them: a table of named
    ratios, each parsed when present and non-empty, the fractions rescaled
    to a percentage. *)
Inductive Scale := Unscaled | Percent.

Definition ratio_table : list (string * (Fundamentals -> option float) * Scale) :=
  [ ("MarketCapitalization", marketCap, Unscaled);
    ("PERatio", peRatio, Unscaled);
    ("DividendYield", dividendYield, Percent);
    ("EPS", eps, Unscaled);
    ("RevenueTTM", revenue, Unscaled);
    ("GrossProfitTTM", grossProfit, Unscaled);
    ("ProfitMargin", profitMargin, Percent);
    ("OperatingMarginTTM", operatingMargin, Percent);
    ("ReturnOnAssetsTTM", roa, Percent);
    ("ReturnOnEquityTTM", roe, Percent);
    ("DilutedEPSTTM", dilutedEPS, Unscaled) ].

Definition spec_ratio `{Host} (input : option string) (scale : Scale) : option float :=
  match input with
  | Some s =>
      if decide (s = "") then None
      else Some match scale with
                | Unscaled => parseFloat s
                | Percent => (parseFloat s * 100)%float
                end
  | None => None
  end.

Definition ratio_holds `{Host} (overview : gmap string string) (f : Fundamentals)
    (entry : string * (Fundamentals -> option float) * Scale) : Prop :=
  let '(name, field, scale) := entry in field f = spec_ratio (overview !! name) scale.

Lemma parsed_spec `{Host} (v : option string) : parsed v = spec_ratio v Unscaled.
Proof.
  destruct v as [s|]; [|reflexivity]. simpl.
  destruct (String.eqb_spec s ""), (decide (s = "")); simpl; congruence.
Qed.

Lemma parsed_percent_spec `{Host} (v : option string) :
  parsed_percent v = spec_ratio v Percent.
Proof.
  destruct v as [s|]; [|reflexivity]. simpl.
  destruct (String.eqb_spec s ""), (decide (s = "")); simpl; congruence.
Qed.

Lemma fundamentals_of_table `{Host} (overview : gmap string string) :
  Forall (ratio_holds overview (fundamentals_of overview)) ratio_table.
Proof.
  unfold ratio_table.
  repeat (constructor; [first [apply parsed_spec | apply parsed_percent_spec]|]).
  constructor.
Qed.

(** C8.  For an equity's fundamentals snapshot, each of the eleven named
    ratio fields of the MetricsRecord is the decimal parse of the
    snapshot's string when the field is present and non-empty, and null
    otherwise; dividend yield, profit margin, operating margin, return on
    assets and return on equity are multiplied by 100, market cap, P/E,
    EPS, revenue, gross profit and diluted EPS are not. *)
Theorem fundamentals_parsed_and_scaled `{Host} (env : Env) (st : State)
    (sd : StockData) (ts : TimeSeries) (ov : gmap string string) :
  truthy (sd_error sd) = false ->
  sd_timeSeries sd = Some ts ->
  ts <> [] ->
  NoDup (Object_keys ts) ->
  sd_overview sd = Some ov ->
  exists record f,
    calculateStockMetrics sd env st = (Normal record, tick st) /\
    sm_fundamentals record = Some f /\
    Forall (ratio_holds ov f) ratio_table.
Proof.
  intros Herr Hts Hne Hnd Hov.
  destruct (calculateStockMetrics_bars sd env st ts ov) as (d0 & b0 & _ & Hrun);
    try assumption.
  eexists _, (fundamentals_of ov). split; [exact Hrun|].
  split; [reflexivity|]. apply fundamentals_of_table.
Qed.

(** The theorem at the reference overview, whose [EPS] is the empty string. *)
Lemma fundamentals_witness :
  exists record f,
    @calculateStockMetrics Reference.host (Reference.stock "X" 8)
      Reference.env Reference.init = (Normal record, tick Reference.init) /\
    sm_fundamentals record = Some f /\
    Forall (@ratio_holds Reference.host Reference.overview f) ratio_table.
Proof.
  apply (@fundamentals_parsed_and_scaled Reference.host Reference.env Reference.init
           (Reference.stock "X" 8) (Reference.series 8) Reference.overview);
    try reflexivity.
  - discriminate.
  - apply (bool_decide_unpack _). vm_compute. exact I.
Defined.

Example fundamentals_sample :
  @fundamentals_of Reference.host Reference.overview
  = {| marketCap := Some 1000000000%float; peRatio := Some 20%float;
       dividendYield := Some 2%float; eps := None; revenue := None;
       grossProfit := None; profitMargin := None; operatingMargin := None;
       roa := None; roe := None; dilutedEPS := None |}.
Proof. vm_compute. reflexivity. Qed.

(** ** Determinism, up to the clock *)

Definition stock_stamped (t : string) (m : StockMetrics) : StockMetrics :=
  {| sm_symbol := sm_symbol m; sm_error := sm_error m; sm_date := sm_date m;
     sm_price := sm_price m; sm_priceChanges := sm_priceChanges m;
     sm_volatility := sm_volatility m; sm_fundamentals := sm_fundamentals m;
     sm_transformedAt := t |}.

Definition index_stamped (t : string) (m : MarketIndicators) : MarketIndicators :=
  {| mi_index := mi_index m; mi_error := mi_error m; mi_date := mi_date m;
     mi_price := mi_price m; mi_priceChanges := mi_priceChanges m;
     mi_volatility := mi_volatility m; mi_transformedAt := t |}.

(** Two runs of the engine agree: both throw the same exception and leave
    the state alone, or both return, read the clock once and do nothing
    else, and their records differ at most in the timestamp, which is the
    clock's reading. *)
Definition runs_agree {R} (stamped : string -> R -> R) (stamp : R -> string)
    (env1 env2 : Env) (st1 st2 : State)
    (r1 r2 : Completion R * State) : Prop :=
  match r1, r2 with
  | (Normal m1, st1'), (Normal m2, st2') =>
      stamped "" m1 = stamped "" m2 /\
      stamp m1 = env_clock env1 (st_reads st1) /\
      stamp m2 = env_clock env2 (st_reads st2) /\
      st1' = tick st1 /\ st2' = tick st2
  | (Throw e1, st1'), (Throw e2, st2') => e1 = e2 /\ st1' = st1 /\ st2' = st2
  | _, _ => False
  end.

(** Two calls in a row on the same input. *)
Definition twice `{Host} (sd : StockData) : M (StockMetrics * StockMetrics) :=
  a ← calculateStockMetrics sd;
  b ← calculateStockMetrics sd;
  mret (a, b).

(** C9, as stated, fails: the record carries the time of the call, so two
    invocations on the same RawSeries return records that differ. *)
Lemma metric_engine_stamps_the_clock :
  exists a b st',
    @twice Reference.host (Reference.stock "X" 1) Reference.env Reference.init
    = (Normal (a, b), st') /\ a <> b.
Proof.
  eexists _, _, _. split; [vm_compute; reflexivity|]. discriminate.
Qed.

(** C9, amended.  The metric engine is a function of its input and of one
    reading of the clock: two invocations on equal RawSeries inputs yield
    MetricsRecords equal in every field but the transformation timestamp,
    which is the clock's reading at the call (or both throw the same
    exception); the call touches nothing but the clock: no request, no
    write, no console line. *)
Theorem metric_engine_deterministic_up_to_clock `{Host}
    (sd : StockData) (md : MarketData) (env1 env2 : Env) (st1 st2 : State) :
  runs_agree stock_stamped sm_transformedAt env1 env2 st1 st2
    (calculateStockMetrics sd env1 st1) (calculateStockMetrics sd env2 st2)
  /\
  runs_agree index_stamped mi_transformedAt env1 env2 st1 st2
    (calculateMarketIndicators md env1 st1) (calculateMarketIndicators md env2 st2).
Proof.
  split.
  - unfold calculateStockMetrics.
    destruct (truthy (sd_error sd)); [simpl; tauto|].
    destruct (sd_timeSeries sd) as [ts|]; [|simpl; tauto].
    destruct (Array_sort date_desc (Object_keys ts)) as [|latestDate dates];
      [simpl; tauto|].
    destruct (get_bar ts latestDate); [|simpl; tauto].
    rewrite !bind_run, !lift_run.
    destruct (stock_volatility ts (latestDate :: dates)); [|simpl; tauto].
    destruct (sd_overview sd); simpl; tauto.
  - unfold calculateMarketIndicators.
    destruct (truthy (md_error md)); [simpl; tauto|].
    destruct (md_historical md) as [h|]; [|simpl; tauto].
    destruct (Array_sort _ h) as [|latestData bars]; [simpl; tauto|].
    rewrite !bind_run, !lift_run.
    destruct (index_volatility (latestData :: bars)); simpl; tauto.
Qed.

(** ** The loader *)

Lemma call_returns (c : Call) (env : Env) (st : State) :
  exists r st', call c env st = (Normal r, st').
Proof.
  unfold call. destruct (is_async c).
  - destruct (perform c env (emit (Issue c) st)) as [r st']. eauto.
  - destruct (do_sync c env st) as [r st']. eauto.
Qed.

Definition counted (results : LoadResults) : nat :=
  length (lr_success results) + length (lr_errors results).

(** One turn of the loop never throws and counts its record once. *)
Lemma load_stock_counts (results : LoadResults) (stock : StockMetrics)
    (env : Env) (st : State) :
  exists results' st',
    load_stock results stock env st = (Normal results', st') /\
    counted results' = S (counted results).
Proof.
  assert (Hcatch : forall e st0, exists results' st',
             (_ ← call (ConsoleError
                          ("Error loading data for " +:+ sm_symbol stock +:+ ": " +:+ message e));
              mret (push_error results (sm_symbol stock) (message e))) env st0
             = (Normal results', st') /\ counted results' = S (counted results)).
  { intros e st0. eexists _, _. split; [reflexivity|].
    unfold counted, push_error. simpl. rewrite length_app. simpl. lia. }
  unfold load_stock, try_catch.
  destruct (truthy (sm_error stock)).
  { eexists _, _. split; [reflexivity|].
    unfold counted, push_error. simpl. rewrite length_app. simpl. lia. }
  rewrite bind_run, lift_run.
  destruct (stock_row_of stock) as [row|e]; [|apply Hcatch].
  rewrite !bind_run.
  destruct (call_returns (InsertStock row) env st) as (r & st1 & ->).
  simpl in r. destruct r as [[msg|]|e].
  - exact (Hcatch (storage_error msg) st1).
  - eexists _, _. split; [reflexivity|].
    unfold counted, push_success. simpl. rewrite length_app. simpl. lia.
  - exact (Hcatch e st1).
Qed.

Lemma for_of_load_stock_counts (stockMetrics : list StockMetrics) (results : LoadResults)
    (env : Env) (st : State) :
  exists results' st',
    for_of load_stock stockMetrics results env st = (Normal results', st') /\
    counted results' = counted results + length stockMetrics.
Proof.
  revert results st. induction stockMetrics as [|stock l IH]; intros results st; simpl.
  - eexists _, _. split; [reflexivity|]. lia.
  - rewrite bind_run.
    destruct (load_stock_counts results stock env st) as (r1 & st1 & -> & H1).
    destruct (IH r1 st1) as (r2 & st2 & -> & H2).
    eexists _, _. split; [reflexivity|]. lia.
Qed.

Lemma loadMarketIndicators_returns (marketIndicators : option MarketIndicators)
    (env : Env) (st : State) :
  exists result st', loadMarketIndicators marketIndicators env st = (Normal result, st').
Proof.
  unfold loadMarketIndicators.
  destruct marketIndicators as [mi|]; [|eauto].
  destruct (truthy (mi_error mi)); [eauto|].
  unfold try_catch. rewrite bind_run, lift_run.
  destruct (index_row_of mi) as [row|e]; [|eauto].
  rewrite !bind_run.
  destruct (call_returns (InsertIndex row) env st) as (r & st1 & ->).
  simpl in r. destruct r as [[msg|]|e]; simpl; eauto.
Qed.

(** C10.  The loader's aggregate result conserves counts: [stocksLoaded]
    plus [stockErrors] is the number of stock MetricsRecords given, every
    record being counted once, as loaded or as errored; and
    [indicatorsLoaded] plus [indicatorErrors] is 1, with [indicatorsLoaded]
    0 or 1.  The loader returns such a result whatever the storage service
    answers. *)
Theorem load_conserves_counts (transformedData : TransformedData)
    (env : Env) (st : State) :
  exists result st',
    load transformedData env st = (Normal result, st') /\
    stocksLoaded result + stockErrors result
    = length (td_stockMetrics transformedData) /\
    indicatorsLoaded result + indicatorErrors result = 1 /\
    (indicatorsLoaded result = 0 \/ indicatorsLoaded result = 1).
Proof.
  unfold load. rewrite bind_run.
  destruct (call_returns (ConsoleLog "Starting data loading process...") env st)
    as (r0 & st0 & ->).
  rewrite bind_run. unfold loadStockMetrics.
  destruct (for_of_load_stock_counts (td_stockMetrics transformedData)
              {| lr_success := []; lr_errors := [] |} env st0)
    as (results & st1 & -> & Hcount).
  rewrite bind_run.
  assert (Hm : exists result st2,
             match td_marketIndicators transformedData with
             | Some marketIndicators => loadMarketIndicators (Some marketIndicators)
             | None =>
                 mret {| mr_success := false; mr_index := None; mr_date := None;
                         mr_error := Some no_market_indicators |}
             end env st1 = (Normal result, st2)).
  { destruct (td_marketIndicators transformedData);
      [apply loadMarketIndicators_returns | eauto]. }
  destruct Hm as (mr & st2 & ->).
  eexists _, _. split; [reflexivity|]. simpl.
  split; [exact Hcount|].
  destruct (mr_success mr); auto.
Qed.

(** *** Loading the same record again *)

(** The rows of [stock_metrics] under a key. *)
Definition rows_of_key (symbol date : string) (table : list StockRow) : list StockRow :=
  List.filter (same_stock_key symbol date) table.

Lemma stock_row_of_key (stock : StockMetrics) (row : StockRow) :
  stock_row_of stock = Normal row ->
  sr_symbol row = sm_symbol stock /\ sr_date row = sm_date stock.
Proof.
  unfold stock_row_of.
  destruct (sm_price stock); [|discriminate].
  destruct (sm_priceChanges stock); [|discriminate].
  destruct (sm_volatility stock); [|discriminate].
  destruct (sm_fundamentals stock); [|discriminate].
  now intros [= <-].
Qed.

Lemma same_stock_key_refl (row : StockRow) (date : string) :
  sr_date row = Some date -> same_stock_key (sr_symbol row) date row = true.
Proof.
  intros Hd. unfold same_stock_key. rewrite String.eqb_refl, Hd. simpl.
  now apply bool_decide_eq_true_2.
Qed.

(** A load that reports the record as loaded has put its row, the only one
    under its key, at the end of the table. *)
Lemma load_stock_loaded (stock : StockMetrics) (env : Env) (st st1 : State)
    (r1 : LoadResults) :
  load_stock {| lr_success := []; lr_errors := [] |} stock env st = (Normal r1, st1) ->
  lr_success r1 <> [] ->
  exists row date,
    truthy (sm_error stock) = false /\
    stock_row_of stock = Normal row /\
    sr_date row = Some date /\
    existsb (same_stock_key (sr_symbol row) date) (st_stock_metrics st) = false /\
    st_stock_metrics st1 = st_stock_metrics st ++ [row].
Proof.
  unfold load_stock, try_catch.
  destruct (truthy (sm_error stock)).
  { intros [= <- _] Hs. now contradiction Hs. }
  rewrite bind_run, lift_run.
  destruct (stock_row_of stock) as [row|e] eqn:Hrow.
  2:{ intros [= <- _] Hs. now contradiction Hs. }
  rewrite !bind_run. unfold call. simpl.
  destruct (env_db_fault env (st_inserts st)) as [[msg|e]|].
  - intros [= <- _] Hs. now contradiction Hs.
  - intros [= <- _] Hs. now contradiction Hs.
  - unfold insert_stock_row.
    destruct (sr_date row) as [date|] eqn:Hdate.
    2:{ intros [= <- _] Hs. now contradiction Hs. }
    destruct (existsb (same_stock_key (sr_symbol row) date) (st_stock_metrics st)) eqn:Hex.
    { intros [= <- _] Hs. now contradiction Hs. }
    intros [= _ <-] _. exists row, date. repeat split; assumption.
Qed.

(** Loading a record whose key is in the table: the loop's turn returns,
    counts an error, and leaves the table as it was. *)
Lemma load_stock_again (stock : StockMetrics) (row : StockRow) (date : string)
    (env : Env) (st : State) :
  truthy (sm_error stock) = false ->
  stock_row_of stock = Normal row ->
  sr_date row = Some date ->
  existsb (same_stock_key (sr_symbol row) date) (st_stock_metrics st) = true ->
  exists msg st',
    load_stock {| lr_success := []; lr_errors := [] |} stock env st
    = (Normal {| lr_success := []; lr_errors := [(sm_symbol stock, msg)] |}, st') /\
    st_stock_metrics st' = st_stock_metrics st /\
    (env_db_fault env (st_inserts st) = None -> msg = stock_unique_violation).
Proof.
  intros Herr Hrow Hdate Hex.
  unfold load_stock, try_catch. rewrite Herr, bind_run, lift_run, Hrow.
  rewrite !bind_run. unfold call. simpl.
  destruct (env_db_fault env (st_inserts st)) as [[msg|e]|].
  - eexists _, _. split; [reflexivity|]. split; [reflexivity | discriminate].
  - eexists _, _. split; [reflexivity|]. split; [reflexivity | discriminate].
  - unfold insert_stock_row. rewrite Hdate, Hex.
    eexists _, _. split; [reflexivity|]. split; reflexivity.
Qed.

Lemma loadStockMetrics_one (stock : StockMetrics) (env : Env) (st : State) :
  loadStockMetrics [stock] env st
  = load_stock {| lr_success := []; lr_errors := [] |} stock env st.
Proof.
  unfold loadStockMetrics. simpl. rewrite bind_run.
  now destruct (load_stock _ stock env st) as [[r|e] st'].
Qed.

(** The sample batch of [load.js]. *)
#[warnings="-inexact-float"]
Definition sampleStock : StockMetrics :=
  {| sm_symbol := "SAMPLE";
     sm_error := None;
     sm_date := Some "2023-01-01";
     sm_price := Some {| p_open := 100; p_high := 105; p_low := 99; p_close := 102;
                         p_volume := 1000000 |};
     sm_priceChanges := Some
       {| change7d := Some 2%float; change30d := Some 5%float; change90d := Some 10%float;
          percentChange7d := Some 2%float; percentChange30d := Some 5%float;
          percentChange90d := Some 10%float |};
     sm_volatility := Some {| volatility30d := Some 15%float |};
     sm_fundamentals := Some
       {| marketCap := Some 1000000000%float; peRatio := Some 20%float;
          dividendYield := Some 2%float; eps := Some 5%float;
          revenue := Some 10000000%float; grossProfit := Some 5000000%float;
          profitMargin := Some 20%float; operatingMargin := Some 25%float;
          roa := Some 10%float; roe := Some 15%float; dilutedEPS := Some 4.8%float |};
     sm_transformedAt := "2023-01-02T00:00:00.000Z" |}.

Definition sampleIndex : MarketIndicators :=
  {| mi_index := "SAMPLE_INDEX";
     mi_error := None;
     mi_date := Some "2023-01-01";
     mi_price := Some {| p_open := 4000; p_high := 4100; p_low := 3950; p_close := 4050;
                         p_volume := 10000000 |};
     mi_priceChanges := Some
       {| change7d := Some 50%float; change30d := Some 100%float;
          change90d := Some 200%float; percentChange7d := Some 1.25%float;
          percentChange30d := Some 2.5%float; percentChange90d := Some 5%float |};
     mi_volatility := Some {| volatility30d := Some 12%float |};
     mi_transformedAt := "2023-01-02T00:00:00.000Z" |}.

Definition sampleData : TransformedData :=
  {| td_stockMetrics := [sampleStock];
     td_marketIndicators := Some sampleIndex;
     td_transformationTimestamp := "2023-01-02T00:00:00.000Z" |}.

Definition load_twice (transformedData : TransformedData) : M (LoadResult * LoadResult) :=
  first ← load transformedData;
  second ← load transformedData;
  mret (first, second).

(** C3, as stated, fails: the write is a plain insert, which the
    uniqueness constraint refuses when the key is there, and the repeat run
    counts the record as errored, not as loaded. *)
Lemma repeat_load_counted_as_error :
  exists first second st',
    load_twice sampleData Reference.env Reference.init = (Normal (first, second), st') /\
    stocksLoaded first = 1 /\ stockErrors first = 0 /\
    stocksLoaded second = 0 /\ stockErrors second = 1 /\
    indicatorsLoaded first = 1 /\ indicatorsLoaded second = 0 /\
    length (st_stock_metrics st') = 1.
Proof.
  eexists _, _, _. split; [vm_compute; reflexivity|]. repeat split.
Qed.

(** C3, amended.  Loading a non-error MetricsRecord that an earlier load
    has persisted, for the same identifier and reference date, leaves
    exactly one row under that key, and the second load does not raise an
    error: the insert is refused (by the uniqueness constraint on
    identifier and date, when the storage service answers at all), the
    table stays as it was, and the record is counted as errored, not as
    loaded, on the repeat run. *)
Theorem repeat_load_keeps_one_row (stock : StockMetrics) (date : string)
    (env1 env2 : Env) (st : State) :
  let first := loadStockMetrics [stock] env1 st in
  (exists r1, first.1 = Normal r1 /\ lr_success r1 = [(sm_symbol stock, Some date)]) ->
  exists msg st2,
    loadStockMetrics [stock] env2 first.2
    = (Normal {| lr_success := []; lr_errors := [(sm_symbol stock, msg)] |}, st2) /\
    (env_db_fault env2 (st_inserts first.2) = None -> msg = stock_unique_violation) /\
    st_stock_metrics st2 = st_stock_metrics first.2 /\
    length (rows_of_key (sm_symbol stock) date (st_stock_metrics st2)) = 1.
Proof.
  intros first (r1 & Hr1 & Hs). subst first.
  rewrite !loadStockMetrics_one in *.
  destruct (load_stock {| lr_success := []; lr_errors := [] |} stock env1 st)
    as [[r1'|e] st1] eqn:Hfirst; simpl in Hr1; [|discriminate].
  injection Hr1 as ->. simpl.
  destruct (load_stock_loaded stock env1 st st1 r1 Hfirst)
    as (row & d & Herr & Hrow & Hdate & Hfresh & Htable); [now rewrite Hs|].
  destruct (stock_row_of_key stock row Hrow) as [Hsym Hd].
  assert (Hpush : lr_success r1 = [(sm_symbol stock, sm_date stock)]).
  { revert Hfirst. unfold load_stock, try_catch. rewrite Herr, bind_run, lift_run, Hrow.
    rewrite !bind_run. unfold call. simpl.
    destruct (env_db_fault env1 (st_inserts st)) as [[msg|e]|];
      try (intros [= <- _]; now rewrite Hs in * ).
    unfold insert_stock_row. rewrite Hdate, Hfresh. now intros [= <- _]. }
  assert (d = date) as ->.
  { rewrite Hs in Hpush. injection Hpush as Hp. congruence. }
  assert (Hex : existsb (same_stock_key (sr_symbol row) date) (st_stock_metrics st1) = true).
  { rewrite Htable, existsb_app. simpl.
    rewrite (same_stock_key_refl row date Hdate). now rewrite orb_true_r. }
  destruct (load_stock_again stock row date env2 st1 Herr Hrow Hdate Hex)
    as (msg & st2 & Hrun & Hsame & Hmsg).
  rewrite Hrun. exists msg, st2.
  split; [reflexivity|]. split; [exact Hmsg|]. split; [exact Hsame|].
  rewrite Hsame, Htable. unfold rows_of_key. rewrite List.filter_app, length_app.
  rewrite <- Hsym. simpl. rewrite (same_stock_key_refl row date Hdate). simpl.
  assert (Hnone : List.filter (same_stock_key (sr_symbol row) date) (st_stock_metrics st) = []).
  { clear -Hfresh. induction (st_stock_metrics st) as [|x l IH]; [reflexivity|].
    simpl in *. apply orb_false_elim in Hfresh as [-> Hl]. now apply IH. }
  now rewrite Hnone.
Qed.

(** The theorem at the sample record of [load.js], loaded twice into empty
    tables. *)
Lemma repeat_load_witness :
  exists msg st2,
    loadStockMetrics [sampleStock] Reference.env
      (loadStockMetrics [sampleStock] Reference.env Reference.init).2
    = (Normal {| lr_success := []; lr_errors := [(sm_symbol sampleStock, msg)] |}, st2) /\
    (env_db_fault Reference.env
       (st_inserts (loadStockMetrics [sampleStock] Reference.env Reference.init).2) = None ->
     msg = stock_unique_violation) /\
    st_stock_metrics st2
    = st_stock_metrics (loadStockMetrics [sampleStock] Reference.env Reference.init).2 /\
    length (rows_of_key (sm_symbol sampleStock) "2023-01-01" (st_stock_metrics st2)) = 1.
Proof.
  apply (repeat_load_keeps_one_row sampleStock "2023-01-01" Reference.env Reference.env
           Reference.init).
  eexists. split; vm_compute; reflexivity.
Defined.

(** ** What a run leaves behind

    [st'] follows [st] when the process has not been terminated in between
    and the trace has only grown. *)

Definition follows (st st' : State) : Prop :=
  st_exit st' = st_exit st /\ exists events, st_trace st' = st_trace st ++ events.

Lemma follows_refl (st : State) : follows st st.
Proof. split; [reflexivity|]. exists []. now rewrite app_nil_r. Qed.

Lemma follows_trans (st1 st2 st3 : State) :
  follows st1 st2 -> follows st2 st3 -> follows st1 st3.
Proof.
  intros [E1 [l1 T1]] [E2 [l2 T2]]. split; [congruence|].
  exists (l1 ++ l2). now rewrite T2, T1, app_assoc.
Qed.

Lemma follows_emit (ev : Event) (st : State) : follows st (emit ev st).
Proof. split; [reflexivity|]. now exists [ev]. Qed.

Lemma follows_perform (c : Call) (env : Env) (st : State) :
  follows st (perform c env st).2.
Proof.
  destruct c; simpl; try apply follows_refl.
  - destruct (env_db_fault env (st_inserts st)) as [[msg|e]|]; simpl.
    + split; [reflexivity|]. exists []. simpl. now rewrite app_nil_r.
    + split; [reflexivity|]. exists []. simpl. now rewrite app_nil_r.
    + destruct (insert_stock_row row (st_stock_metrics st)) as [err table]. simpl.
      split; [reflexivity|]. exists []. simpl. now rewrite app_nil_r.
  - destruct (env_db_fault env (st_inserts st)) as [[msg|e]|]; simpl.
    + split; [reflexivity|]. exists []. simpl. now rewrite app_nil_r.
    + split; [reflexivity|]. exists []. simpl. now rewrite app_nil_r.
    + destruct (insert_index_row row (st_market_indicators st)) as [err table]. simpl.
      split; [reflexivity|]. exists []. simpl. now rewrite app_nil_r.
  - split; [reflexivity|]. exists []. simpl. now rewrite app_nil_r.
Qed.

Lemma follows_do_sync (c : Call) (env : Env) (st : State) :
  follows st (do_sync c env st).2.
Proof.
  unfold do_sync. pose proof (follows_perform c env st) as Hp.
  destruct (perform c env st) as [r st']. simpl in *.
  destruct c; try exact Hp; eapply follows_trans; try exact Hp; apply follows_emit.
Qed.

Lemma follows_call (c : Call) (env : Env) (st : State) :
  follows st (call c env st).2.
Proof.
  unfold call. destruct (is_async c).
  - pose proof (follows_perform c env (emit (Issue c) st)) as Hp.
    destruct (perform c env (emit (Issue c) st)) as [r st']. simpl in *.
    eapply follows_trans; [apply follows_emit|].
    eapply follows_trans; [exact Hp | apply follows_emit].
  - pose proof (follows_do_sync c env st) as Hp.
    now destruct (do_sync c env st) as [r st'].
Qed.

(** A computation in [M] is orderly when every run of it is followed by
    its final state. *)
Definition orderly {A} (m : M A) : Prop :=
  forall env st, follows st (m env st).2.

Lemma orderly_ret {A} (a : A) : orderly (mret a).
Proof. intros env st. apply follows_refl. Qed.

Lemma orderly_throw {A} (e : Exn) : orderly (@throw A e).
Proof. intros env st. apply follows_refl. Qed.

Lemma orderly_lift {A} (c : Completion A) : orderly (lift c).
Proof. intros env st. apply follows_refl. Qed.

Lemma orderly_call (c : Call) : orderly (call c).
Proof. intros env st. apply follows_call. Qed.

Lemma orderly_cwd : orderly process_cwd.
Proof. intros env st. apply follows_refl. Qed.

Lemma orderly_settled {A} (o : Outcome A) : orderly (settled o).
Proof. destruct o; [apply orderly_ret | apply orderly_throw]. Qed.

Lemma orderly_bind {A B} (m : M A) (f : A -> M B) :
  orderly m -> (forall a, orderly (f a)) -> orderly (m ≫= f).
Proof.
  intros Hm Hf env st. rewrite bind_run. specialize (Hm env st).
  destruct (m env st) as [[a|e] st1]; simpl in *; [|exact Hm].
  eapply follows_trans; [exact Hm | apply Hf].
Qed.

Lemma orderly_try {A} (body : M A) (handler : Exn -> M A) :
  orderly body -> (forall e, orderly (handler e)) -> orderly (try_catch body handler).
Proof.
  intros Hb Hh env st. unfold try_catch. specialize (Hb env st).
  destruct (body env st) as [[a|e] st1]; simpl in *; [exact Hb|].
  eapply follows_trans; [exact Hb | apply Hh].
Qed.

Lemma orderly_mapM {A B} (f : A -> M B) (l : list A) :
  (forall a, orderly (f a)) -> orderly (mapM f l).
Proof.
  intros Hf. induction l as [|x l IH]; simpl; [apply orderly_ret|].
  apply orderly_bind; [apply Hf|]. intros y.
  apply orderly_bind; [exact IH|]. intros ys. apply orderly_ret.
Qed.

Lemma orderly_for_of {A S} (body : S -> A -> M S) (l : list A) (s : S) :
  (forall s a, orderly (body s a)) -> orderly (for_of body l s).
Proof.
  intros Hb. revert s. induction l as [|x l IH]; intros s; simpl; [apply orderly_ret|].
  apply orderly_bind; [apply Hb | exact IH].
Qed.

Ltac orderly_step :=
  repeat match goal with
         | |- orderly (mbind _ _) => apply orderly_bind; [|intros ?]
         | |- orderly (try_catch _ _) => apply orderly_try; [|intros ?]
         | |- orderly (mapM _ _) => apply orderly_mapM; intros ?
         | |- orderly (for_of _ _ _) => apply orderly_for_of; intros ? ?
         | |- orderly (mret _) => apply orderly_ret
         | |- orderly (throw _) => apply orderly_throw
         | |- orderly (lift _) => apply orderly_lift
         | |- orderly (call ?c) => exact (orderly_call c)
         | |- orderly (settled _) => apply orderly_settled
         | |- orderly process_cwd => apply orderly_cwd
         end.

Section OrderlyEngine.
Context `{Host}.

Lemma orderly_calculateStockMetrics (sd : StockData) : orderly (calculateStockMetrics sd).
Proof.
  unfold calculateStockMetrics.
  destruct (truthy (sd_error sd)); [orderly_step|].
  destruct (sd_timeSeries sd) as [ts|]; [|orderly_step].
  destruct (Array_sort date_desc (Object_keys ts)) as [|latestDate dates]; [orderly_step|].
  destruct (get_bar ts latestDate); [|orderly_step].
  apply orderly_bind; [orderly_step|]. intros v.
  destruct (sd_overview sd); orderly_step.
Qed.

Lemma orderly_calculateMarketIndicators (md : MarketData) :
  orderly (calculateMarketIndicators md).
Proof.
  unfold calculateMarketIndicators.
  destruct (truthy (md_error md)); [orderly_step|].
  destruct (md_historical md) as [h|]; [|orderly_step].
  destruct (Array_sort _ h) as [|latestData bars]; orderly_step.
Qed.

Lemma orderly_transform (extractedData : ExtractedData) : orderly (transform extractedData).
Proof.
  unfold transform. orderly_step.
  - apply orderly_calculateStockMetrics.
  - destruct (ed_marketData extractedData); orderly_step.
    apply orderly_calculateMarketIndicators.
Qed.

End OrderlyEngine.

Lemma orderly_load_stock (results : LoadResults) (stock : StockMetrics) :
  orderly (load_stock results stock).
Proof.
  unfold load_stock. orderly_step.
  destruct (truthy (sm_error stock)); orderly_step.
  match goal with |- orderly (match ?x with _ => _ end) => destruct x end; orderly_step.
Qed.

Lemma orderly_loadMarketIndicators (marketIndicators : option MarketIndicators) :
  orderly (loadMarketIndicators marketIndicators).
Proof.
  unfold loadMarketIndicators. destruct marketIndicators as [mi|]; [|orderly_step].
  destruct (truthy (mi_error mi)); orderly_step.
  match goal with |- orderly (match ?x with _ => _ end) => destruct x end; orderly_step.
Qed.

Lemma orderly_load (transformedData : TransformedData) : orderly (load transformedData).
Proof.
  unfold load, loadStockMetrics. orderly_step.
  - apply orderly_load_stock.
  - destruct (td_marketIndicators transformedData);
      [apply orderly_loadMarketIndicators | orderly_step].
Qed.

Lemma orderly_fetchMarketIndexData : orderly fetchMarketIndexData.
Proof.
  unfold fetchMarketIndexData. orderly_step.
  match goal with |- orderly (match ?x with _ => _ end) => destruct x end; orderly_step.
Qed.

Lemma orderly_saveRawData (data : ExtractedData) : orderly (saveRawData data).
Proof. unfold saveRawData. orderly_step. Qed.

(** ** Promises *)

Lemma follows_start {A} (t : Task A) (env : Env) (st : State) :
  follows st (start t env st).2.
Proof.
  revert st. induction t as [a|e|c k IH]; intros st; simpl; try apply follows_refl.
  destruct (is_async c); [apply follows_emit|].
  pose proof (follows_do_sync c env st) as Hs.
  destruct (do_sync c env st) as [r st1]. simpl in Hs.
  eapply follows_trans; [exact Hs | apply IH].
Qed.

Lemma follows_resume {A} (p : Promise A) (env : Env) (st : State) :
  follows st (resume p env st).2.
Proof.
  destruct p as [a|e|c k]; simpl; try apply follows_refl.
  pose proof (follows_perform c env st) as Hp.
  destruct (perform c env st) as [r st1]. simpl in Hp.
  eapply follows_trans; [exact Hp|].
  eapply follows_trans; [apply follows_emit | apply follows_start].
Qed.

Lemma follows_start_all {A} (ts : list (Task A)) (env : Env) (st : State) :
  follows st (start_all ts env st).2.
Proof.
  revert st. induction ts as [|t ts IH]; intros st; simpl; [apply follows_refl|].
  pose proof (follows_start t env st) as H1.
  destruct (start t env st) as [p st1]. simpl in H1.
  pose proof (IH st1) as H2.
  destruct (start_all ts env st1) as [ps st2]. simpl in *.
  eapply follows_trans; eassumption.
Qed.

Lemma follows_run_sched {A} (sched : list nat) (ps : list (Promise A))
    (env : Env) (st : State) :
  follows st (run_sched sched ps env st).2.
Proof.
  revert ps st. induction sched as [|n sched IH]; intros ps st; simpl;
    [apply follows_refl|].
  destruct (pending_indices 0 ps) as [|i0 rest]; [apply follows_refl|].
  destruct (ps !! _) as [p|]; [|apply follows_refl].
  pose proof (follows_resume p env st) as Hr.
  destruct (resume p env st) as [p' st1]. simpl in Hr.
  eapply follows_trans; [exact Hr | apply IH].
Qed.

Lemma follows_finish {A} (t : Task A) (env : Env) (st : State) :
  follows st (finish t env st).2.
Proof.
  revert st. induction t as [a|e|c k IH]; intros st; simpl; try apply follows_refl.
  destruct (is_async c).
  - pose proof (follows_perform c env (emit (Issue c) st)) as Hp.
    destruct (perform c env (emit (Issue c) st)) as [r st1]. simpl in Hp.
    eapply follows_trans; [apply follows_emit|].
    eapply follows_trans; [exact Hp|].
    eapply follows_trans; [apply follows_emit | apply IH].
  - pose proof (follows_do_sync c env st) as Hs.
    destruct (do_sync c env st) as [r st1]. simpl in Hs.
    eapply follows_trans; [exact Hs | apply IH].
Qed.

Lemma follows_finish_promise {A} (p : Promise A) (env : Env) (st : State) :
  follows st (finish_promise p env st).2.
Proof.
  destruct p as [a|e|c k]; simpl; try apply follows_refl.
  pose proof (follows_perform c env st) as Hp.
  destruct (perform c env st) as [r st1]. simpl in Hp.
  eapply follows_trans; [exact Hp|].
  eapply follows_trans; [apply follows_emit | apply follows_finish].
Qed.

Lemma follows_drain {A} (ps : list (Promise A)) (env : Env) (st : State) :
  follows st (drain ps env st).2.
Proof.
  revert st. induction ps as [|p ps IH]; intros st; simpl; [apply follows_refl|].
  pose proof (follows_finish_promise p env st) as H1.
  destruct (finish_promise p env st) as [r st1]. simpl in H1.
  pose proof (IH st1) as H2.
  destruct (drain ps env st1) as [rs st2]. simpl in *.
  eapply follows_trans; eassumption.
Qed.

Lemma orderly_map_async {A B} (f : A -> Task B) (l : list A) : orderly (map_async f l).
Proof.
  intros env st. unfold map_async.
  pose proof (follows_start_all (map f l) env st) as Hs.
  now destruct (start_all (map f l) env st) as [ps st1].
Qed.

Lemma orderly_Promise_all {A} (promises : list (Promise A)) : orderly (Promise_all promises).
Proof.
  intros env st. unfold Promise_all.
  pose proof (follows_run_sched (env_sched env) promises env st) as H1.
  destruct (run_sched (env_sched env) promises env st) as [ps st1]. simpl in H1.
  pose proof (follows_drain ps env st1) as H2.
  destruct (drain ps env st1) as [rs st2]. simpl in *.
  eapply follows_trans; eassumption.
Qed.

Lemma orderly_extract (STOCKS_TO_TRACK : list string) : orderly (extract STOCKS_TO_TRACK).
Proof.
  unfold extract. orderly_step.
  - apply orderly_map_async.
  - apply orderly_Promise_all.
  - apply orderly_fetchMarketIndexData.
  - apply orderly_saveRawData.
  - match goal with |- orderly (match ?x with _ => _ end) => destruct x end; orderly_step.
Qed.

(** ** The orchestrator *)

Definition logged (line : string) (st : State) : State := emit (Issue (ConsoleLog line)) st.

Lemma call_log (line : string) (env : Env) (st : State) :
  call (ConsoleLog line) env st = (Normal tt, logged line st).
Proof. reflexivity. Qed.

Definition success_result : PipelineResult :=
  {| pr_success := true;
     pr_message := Some "ETL pipeline completed successfully";
     pr_error := None |}.

Definition extracted_line (rawData : ExtractedData) : string :=
  "Extracted data for " +:+ pretty (length (ed_stockData rawData))
    +:+ " stocks and " +:+ count_of (ed_marketData rawData) +:+ " market indices".

Definition transformed_line (transformedData : TransformedData) : string :=
  "Transformed " +:+ pretty (length (td_stockMetrics transformedData))
    +:+ " stock metrics and " +:+ count_of (td_marketIndicators transformedData)
    +:+ " market indicators".

(** What [runETLPipeline] returns, stage by stage: an exception of the
    first stage that throws becomes a failure result; with no exception the
    result is the success result. *)
Definition staged_result (extract : M ExtractedData)
    (transform : ExtractedData -> M TransformedData)
    (load : TransformedData -> M LoadResult) (env : Env) (st : State) : PipelineResult :=
  let st1 := logged "Extracting data..." (logged "Starting ETL pipeline..." st) in
  match extract env st1 with
  | (Throw e, _) => failure_result e
  | (Normal rawData, st2) =>
      let st3 := logged "Transforming data..." (logged (extracted_line rawData) st2) in
      match transform rawData env st3 with
      | (Throw e, _) => failure_result e
      | (Normal transformedData, st4) =>
          let st5 := logged "Loading data into database..."
                       (logged (transformed_line transformedData) st4) in
          match load transformedData env st5 with
          | (Throw e, _) => failure_result e
          | (Normal _, _) => success_result
          end
      end
  end.

Lemma run_stages_returns (extract : M ExtractedData)
    (transform : ExtractedData -> M TransformedData)
    (load : TransformedData -> M LoadResult) (env : Env) (st : State) :
  exists st',
    run_stages extract transform load env st
    = (Normal (staged_result extract transform load env st), st').
Proof.
  unfold run_stages, run_stages_body, staged_result, try_catch.
  rewrite bind_run, call_log, bind_run, call_log, bind_run.
  destruct (extract env _) as [[rawData|e] st2]; [|eexists; reflexivity].
  rewrite bind_run, call_log. fold (extracted_line rawData).
  rewrite bind_run, call_log, bind_run.
  destruct (transform rawData env _) as [[transformedData|e] st4]; [|eexists; reflexivity].
  rewrite bind_run, call_log. fold (transformed_line transformedData).
  rewrite bind_run, call_log, bind_run.
  destruct (load transformedData env _) as [[result|e] st6]; eexists; reflexivity.
Qed.

Lemma orderly_run_stages (extract : M ExtractedData)
    (transform : ExtractedData -> M TransformedData)
    (load : TransformedData -> M LoadResult) :
  orderly extract -> (forall d, orderly (transform d)) -> (forall d, orderly (load d)) ->
  orderly (run_stages extract transform load).
Proof.
  intros He Ht Hl. unfold run_stages, run_stages_body. orderly_step; auto.
Qed.

(** A provider that refuses every request with an exception whose message
    is empty. *)
Definition silent_env : Env :=
  {| env_clock := env_clock Reference.env;
     env_daily := fun _ => Rejected (Error "");
     env_overview := env_overview Reference.env;
     env_index := env_index Reference.env;
     env_cwd := env_cwd Reference.env;
     env_mkdir := Fulfilled tt;
     env_writeFile := Fulfilled tt;
     env_db_fault := fun _ => None;
     env_sched := [] |}.

(** The exception that ends the stages, if one does: that of the first
    stage that throws, each stage being run on what the stage before it
    returned. *)
Definition stage_exception (extract : M ExtractedData)
    (transform : ExtractedData -> M TransformedData)
    (load : TransformedData -> M LoadResult) (env : Env) (st : State) : option Exn :=
  let st1 := logged "Extracting data..." (logged "Starting ETL pipeline..." st) in
  match extract env st1 with
  | (Throw e, _) => Some e
  | (Normal rawData, st2) =>
      let st3 := logged "Transforming data..." (logged (extracted_line rawData) st2) in
      match transform rawData env st3 with
      | (Throw e, _) => Some e
      | (Normal transformedData, st4) =>
          let st5 := logged "Loading data into database..."
                       (logged (transformed_line transformedData) st4) in
          match load transformedData env st5 with
          | (Throw e, _) => Some e
          | (Normal _, _) => None
          end
      end
  end.

(** C6.  [runETLPipeline] never propagates an exception: whatever the
    extract, transform and load stages do, it returns a result.  When a
    stage throws, the stages after it are not run, the exception is
    written to the error console, and the result is
    [{success: false, error}] with the exception's message and no
    [message]; when none throws the result is [{success: true, message}]
    with no [error].  Run on the pipeline's own stages it leaves the exit
    status of the process alone; and there are worlds in which a stage
    does throw and the result is the failure. *)
Theorem run_pipeline_never_throws `{Host}
    (extract0 : M ExtractedData) (transform0 : ExtractedData -> M TransformedData)
    (load0 : TransformedData -> M LoadResult) (STOCKS_TO_TRACK : list string)
    (env : Env) (st : State) :
  (exists result st',
      run_stages extract0 transform0 load0 env st = (Normal result, st') /\
      match stage_exception extract0 transform0 load0 env st with
      | Some e =>
          result = {| pr_success := false; pr_message := None;
                      pr_error := Some (message e) |} /\
          last (st_trace st')
          = Some (Issue (ConsoleError ("Error in ETL pipeline: " +:+ message e)))
      | None =>
          result = {| pr_success := true;
                      pr_message := Some "ETL pipeline completed successfully";
                      pr_error := None |} /\
          last (st_trace st')
          = Some (Issue (ConsoleLog "ETL pipeline completed successfully!"))
      end)
  /\
  (exists result st',
      runETLPipeline STOCKS_TO_TRACK env st = (Normal result, st') /\
      (pr_success result = false
       <-> is_Some (stage_exception (extract STOCKS_TO_TRACK) transform load env st)) /\
      st_exit st' = st_exit st)
  /\
  (exists st',
      @runETLPipeline Reference.host ["AAPL"] silent_env Reference.init
      = (Normal {| pr_success := false; pr_message := None;
                   pr_error := Some "Cannot convert undefined or null to object" |},
         st')).
Proof.
  assert (Hrun : forall extract1 transform1 load1,
             exists result st',
               run_stages extract1 transform1 load1 env st = (Normal result, st') /\
               match stage_exception extract1 transform1 load1 env st with
               | Some e =>
                   result = {| pr_success := false; pr_message := None;
                               pr_error := Some (message e) |} /\
                   last (st_trace st')
                   = Some (Issue (ConsoleError ("Error in ETL pipeline: " +:+ message e)))
               | None =>
                   result = {| pr_success := true;
                               pr_message := Some "ETL pipeline completed successfully";
                               pr_error := None |} /\
                   last (st_trace st')
                   = Some (Issue (ConsoleLog "ETL pipeline completed successfully!"))
               end).
  { intros extract1 transform1 load1.
    unfold run_stages, run_stages_body, stage_exception, try_catch.
    rewrite bind_run, call_log, bind_run, call_log, bind_run.
    destruct (extract1 env _) as [[rawData|e] st2].
    2: { eexists _, _. split; [reflexivity|]. split; [reflexivity | apply last_snoc]. }
    rewrite bind_run, call_log. fold (extracted_line rawData).
    rewrite bind_run, call_log, bind_run.
    destruct (transform1 rawData env _) as [[transformedData|e] st4].
    2: { eexists _, _. split; [reflexivity|]. split; [reflexivity | apply last_snoc]. }
    rewrite bind_run, call_log. fold (transformed_line transformedData).
    rewrite bind_run, call_log, bind_run.
    destruct (load1 transformedData env _) as [[result|e] st6].
    2: { eexists _, _. split; [reflexivity|]. split; [reflexivity | apply last_snoc]. }
    eexists _, _. split; [reflexivity|]. split; [reflexivity | apply last_snoc]. }
  split; [apply Hrun|]. split.
  - unfold runETLPipeline.
    destruct (Hrun (extract STOCKS_TO_TRACK) transform load) as (result & st' & Hr & Hres).
    exists result, st'. split; [exact Hr|]. split.
    + destruct (stage_exception _ _ _ env st) as [e|]; destruct Hres as [-> _]; simpl.
      * split; [intros _; now eexists | reflexivity].
      * split; [discriminate | intros [x Hx]; discriminate].
    + pose proof (orderly_run_stages (extract STOCKS_TO_TRACK) transform load
                    (orderly_extract STOCKS_TO_TRACK) orderly_transform orderly_load
                    env st) as [Hexit _].
      now rewrite Hr in Hexit.
  - eexists. vm_compute. reflexivity.
Qed.

(** ** What the extractor returns *)

(** The values a call may settle to in [env]: the providers answer as
    [env] says. *)
Definition answers (env : Env) (c : Call) : answer c -> Prop :=
  match c as c0 return answer c0 -> Prop with
  | AxiosGetDaily symbol => fun r => r = env_daily env symbol
  | AxiosGetOverview symbol => fun r => r = env_overview env symbol
  | _ => fun _ => True
  end.

Lemma perform_answers (c : Call) (env : Env) (st : State) :
  answers env c (perform c env st).1.
Proof. destruct c; simpl; auto. Qed.

Lemma do_sync_answers (c : Call) (env : Env) (st : State) :
  answers env c (do_sync c env st).1.
Proof.
  unfold do_sync. pose proof (perform_answers c env st) as Hp.
  now destruct (perform c env st) as [r st'].
Qed.

(** Every run of the task returns a value that satisfies [P]. *)
Inductive yields {A} (env : Env) (P : A -> Prop) : Task A -> Prop :=
| yields_ret (a : A) : P a -> yields env P (Ret a)
| yields_do (c : Call) (k : answer c -> Task A) :
    (forall r, answers env c r -> yields env P (k r)) -> yields env P (Do c k).

Definition promise_yields {A} (env : Env) (P : A -> Prop) (p : Promise A) : Prop :=
  match p with
  | Resolved a => P a
  | Failed _ => False
  | Pending c k => forall r, answers env c r -> yields env P (k r)
  end.

Lemma start_yields {A} (env : Env) (P : A -> Prop) (t : Task A) :
  yields env P t -> forall st, promise_yields env P (start t env st).1.
Proof.
  induction 1 as [a Ha|c k Hk IH]; intros st; simpl; [exact Ha|].
  destruct (is_async c); [exact Hk|].
  pose proof (do_sync_answers c env st) as Hr.
  destruct (do_sync c env st) as [r st1]. simpl in Hr. now apply IH.
Qed.

Lemma resume_yields {A} (env : Env) (P : A -> Prop) (p : Promise A) (st : State) :
  promise_yields env P p -> promise_yields env P (resume p env st).1.
Proof.
  destruct p as [a|e|c k]; simpl; auto. intros Hk.
  pose proof (perform_answers c env st) as Hr.
  destruct (perform c env st) as [r st1]. simpl in Hr.
  apply start_yields. now apply Hk.
Qed.

Lemma finish_yields {A} (env : Env) (P : A -> Prop) (t : Task A) :
  yields env P t -> forall st, exists a st', finish t env st = (Normal a, st') /\ P a.
Proof.
  induction 1 as [a Ha|c k Hk IH]; intros st; simpl; [eauto|].
  destruct (is_async c).
  - pose proof (perform_answers c env (emit (Issue c) st)) as Hr.
    destruct (perform c env (emit (Issue c) st)) as [r st1]. simpl in Hr. now apply IH.
  - pose proof (do_sync_answers c env st) as Hr.
    destruct (do_sync c env st) as [r st1]. simpl in Hr. now apply IH.
Qed.

Lemma finish_promise_yields {A} (env : Env) (P : A -> Prop) (p : Promise A) (st : State) :
  promise_yields env P p ->
  exists a st', finish_promise p env st = (Normal a, st') /\ P a.
Proof.
  destruct p as [a|e|c k]; simpl; [eauto | tauto |]. intros Hk.
  pose proof (perform_answers c env st) as Hr.
  destruct (perform c env st) as [r st1]. simpl in Hr.
  apply finish_yields. now apply Hk.
Qed.

Lemma start_all_yields {A} (env : Env) (Ps : list (A -> Prop)) (ts : list (Task A)) :
  Forall2 (yields env) Ps ts ->
  forall st, Forall2 (promise_yields env) Ps (start_all ts env st).1.
Proof.
  induction 1 as [|P t Ps ts Ht Hts IH]; intros st; simpl; [constructor|].
  pose proof (start_yields env P t Ht st) as H1.
  destruct (start t env st) as [p st1]. simpl in H1.
  specialize (IH st1). destruct (start_all ts env st1) as [ps st2]. simpl in *.
  now constructor.
Qed.

Lemma run_sched_yields {A} (env : Env) (Ps : list (A -> Prop)) (sched : list nat) :
  forall (ps : list (Promise A)) (st : State),
    Forall2 (promise_yields env) Ps ps ->
    Forall2 (promise_yields env) Ps (run_sched sched ps env st).1.
Proof.
  induction sched as [|n sched IH]; intros ps st Hps; simpl; [exact Hps|].
  destruct (pending_indices 0 ps) as [|i0 rest]; [exact Hps|].
  match goal with |- context [ps !! ?j] => set (i := j) end.
  destruct (ps !! i) as [p|] eqn:Hi; [|exact Hps].
  destruct (Forall2_lookup_r _ _ _ _ _ Hps Hi) as (P & HP & Hp).
  pose proof (resume_yields env P p st Hp) as Hr.
  destruct (resume p env st) as [p' st1]. apply IH.
  rewrite <- (list_insert_id Ps i P HP).
  apply Forall2_insert; [exact Hps | exact Hr].
Qed.

Lemma drain_yields {A} (env : Env) (Ps : list (A -> Prop)) (ps : list (Promise A)) :
  Forall2 (promise_yields env) Ps ps ->
  forall st, exists vs st',
    drain ps env st = (map Normal vs, st') /\ Forall2 (fun P v => P v) Ps vs.
Proof.
  induction 1 as [|P p Ps ps Hp Hps IH]; intros st; simpl.
  - exists [], st. split; [reflexivity | constructor].
  - destruct (finish_promise_yields env P p st Hp) as (a & st1 & -> & Ha).
    destruct (IH st1) as (vs & st2 & -> & Hvs).
    exists (a :: vs), st2. split; [reflexivity | now constructor].
Qed.

Lemma all_values_normal {A} (vs : list A) : all_values (map Normal vs) = Normal vs.
Proof. induction vs as [|v vs IH]; simpl; [reflexivity | now rewrite IH]. Qed.

Lemma Promise_all_yields {A} (env : Env) (Ps : list (A -> Prop))
    (promises : list (Promise A)) (st : State) :
  Forall2 (promise_yields env) Ps promises ->
  exists vs st',
    Promise_all promises env st = (Normal vs, st') /\ Forall2 (fun P v => P v) Ps vs.
Proof.
  intros Hps. unfold Promise_all.
  pose proof (run_sched_yields env Ps (env_sched env) promises st Hps) as H1.
  destruct (run_sched (env_sched env) promises env st) as [ps st1]. simpl in H1.
  destruct (drain_yields env Ps ps H1 st1) as (vs & st2 & -> & Hvs).
  exists vs, st2. split; [now rewrite all_values_normal | exact Hvs].
Qed.

(** The message of the exception that ends the fetch of [symbol] in [env],
    if one does: a request that is rejected, a body that is [null], an
    error payload. *)
Definition fetch_failure (env : Env) (symbol : string) : option string :=
  match env_daily env symbol with
  | Rejected e => Some (message e)
  | Fulfilled None => Some "Cannot read properties of null (reading 'Error Message')"
  | Fulfilled (Some data) =>
      if truthy (av_errorMessage data)
      then Some (alpha_vantage_error symbol (default "" (av_errorMessage data)))
      else match env_overview env symbol with
           | Rejected e => Some (message e)
           | Fulfilled _ => None
           end
  end.

Definition daily_series (env : Env) (symbol : string) : TimeSeries :=
  match env_daily env symbol with
  | Fulfilled (Some data) => default [] (av_timeSeries data)
  | _ => []
  end.

Definition overview_data (env : Env) (symbol : string) : gmap string string :=
  match env_overview env symbol with
  | Fulfilled (Some overview) => overview
  | _ => ∅
  end.

(** The RawSeries of [symbol] in [env], extracted at [extractedAt]: a
    function of the answers to the requests for [symbol] alone. *)
Definition fetch_result (env : Env) (symbol extractedAt : string) : StockData :=
  match fetch_failure env symbol with
  | Some msg =>
      {| sd_symbol := symbol; sd_error := Some msg; sd_timeSeries := None;
         sd_overview := None; sd_extractedAt := extractedAt |}
  | None =>
      {| sd_symbol := symbol; sd_error := None;
         sd_timeSeries := Some (daily_series env symbol);
         sd_overview := Some (overview_data env symbol);
         sd_extractedAt := extractedAt |}
  end.

Definition fetched (env : Env) (symbol : string) (r : StockData) : Prop :=
  exists extractedAt, r = fetch_result env symbol extractedAt.

Lemma fetch_caught (env : Env) (symbol : string) (e : Exn) :
  fetch_failure env symbol = Some (message e) ->
  yields env (fetched env symbol)
    (_ ← Do (ConsoleError ("Error fetching data for " +:+ symbol +:+ ": " +:+ message e)) Ret;
     extractedAt ← Do NowISO Ret;
     Ret {| sd_symbol := symbol; sd_error := Some (message e); sd_timeSeries := None;
            sd_overview := None; sd_extractedAt := extractedAt |}).
Proof.
  intros Hf. apply yields_do. intros _ _. apply yields_do. intros t _.
  apply yields_ret. exists t. unfold fetch_result. now rewrite Hf.
Qed.

Lemma fetchStockData_yields (env : Env) (symbol : string) :
  yields env (fetched env symbol) (fetchStockData symbol).
Proof.
  unfold fetchStockData. apply yields_do. intros r Hr. simpl in Hr. subst r.
  destruct (env_daily env symbol) as [[data|]|e] eqn:Hd; simpl.
  - destruct (truthy (av_errorMessage data)) eqn:Herr; simpl.
    + apply (fetch_caught env symbol (Error _)).
      unfold fetch_failure. now rewrite Hd, Herr.
    + apply yields_do. intros r Hr. simpl in Hr. subst r.
      destruct (env_overview env symbol) as [ov|e] eqn:Ho; simpl.
      * apply yields_do. intros _ _. apply yields_do. intros t _. apply yields_ret.
        exists t. unfold fetch_result, fetch_failure, daily_series, overview_data.
        rewrite Hd, Herr, Ho. now destruct ov.
      * apply (fetch_caught env symbol e).
        unfold fetch_failure. now rewrite Hd, Herr, Ho.
  - apply (fetch_caught env symbol (TypeError _)).
    unfold fetch_failure. now rewrite Hd.
  - apply (fetch_caught env symbol e).
    unfold fetch_failure. now rewrite Hd.
Qed.

(** A computation that returns in every world. *)
Definition total {A} (m : M A) : Prop :=
  forall env st, exists a st', m env st = (Normal a, st').

Lemma total_ret {A} (a : A) : total (mret a).
Proof. intros env st. now eexists _, _. Qed.

Lemma total_call (c : Call) : total (call c).
Proof. intros env st. apply call_returns. Qed.

Lemma total_cwd : total process_cwd.
Proof. intros env st. now eexists _, _. Qed.

Lemma total_bind {A B} (m : M A) (f : A -> M B) :
  total m -> (forall a, total (f a)) -> total (m ≫= f).
Proof.
  intros Hm Hf env st. rewrite bind_run.
  destruct (Hm env st) as (a & st1 & ->). apply Hf.
Qed.

(** A [try] whose handler returns, returns. *)
Lemma total_try {A} (body : M A) (handler : Exn -> M A) :
  (forall e, total (handler e)) -> total (try_catch body handler).
Proof.
  intros Hh env st. unfold try_catch.
  destruct (body env st) as [[a|e] st1]; [now eexists _, _ | apply Hh].
Qed.

Ltac total_step :=
  repeat match goal with
         | |- total (try_catch _ _) => apply total_try; intros ?
         | |- total (mbind _ _) => apply total_bind; [|intros ?]
         | |- total (mret _) => apply total_ret
         | |- total (call ?c) => exact (total_call c)
         | |- total process_cwd => apply total_cwd
         end.

Lemma fetchMarketIndexData_returns : total fetchMarketIndexData.
Proof. unfold fetchMarketIndexData. total_step. Qed.

Lemma saveRawData_returns (data : ExtractedData) : total (saveRawData data).
Proof. unfold saveRawData. total_step. Qed.

(** C7.  The extractor returns, for every batch of equity identifiers and
    whatever the providers answer, exactly one RawSeries per requested
    identifier, in the order requested, each a function of the answers to
    its own identifier's requests: a failure of one fetch leaves the others
    as they are.  The item of a failed fetch carries the identifier, the
    error message and an extraction timestamp, and neither price bars nor
    fundamentals. *)
Theorem extract_isolates_failures (STOCKS_TO_TRACK : list string)
    (env : Env) (st : State) :
  exists extractedData st',
    extract STOCKS_TO_TRACK env st = (Normal extractedData, st') /\
    Forall2 (fetched env) STOCKS_TO_TRACK (ed_stockData extractedData) /\
    Forall2 (fun symbol r =>
               sd_symbol r = symbol /\
               (is_Some (fetch_failure env symbol) ->
                sd_error r = fetch_failure env symbol /\
                sd_timeSeries r = None /\ sd_overview r = None) /\
               (fetch_failure env symbol = None ->
                sd_error r = None /\ is_Some (sd_timeSeries r) /\ is_Some (sd_overview r)))
            STOCKS_TO_TRACK (ed_stockData extractedData).
Proof.
  unfold extract. rewrite bind_run, call_log, bind_run. unfold map_async.
  pose proof (start_all_yields env (map (fetched env) STOCKS_TO_TRACK)
                (map fetchStockData STOCKS_TO_TRACK)) as Hstart.
  destruct (start_all (map fetchStockData STOCKS_TO_TRACK) env _) as [ps st1] eqn:Hs.
  rewrite bind_run.
  destruct (Promise_all_yields env (map (fetched env) STOCKS_TO_TRACK) ps st1)
    as (stockData & st2 & -> & Hall).
  { specialize (Hstart ltac:(apply Forall2_fmap, Forall_Forall2_diag, Forall_forall;
                              intros; apply fetchStockData_yields)
                       (logged "Starting data extraction process..." st)).
    now rewrite Hs in Hstart. }
  rewrite bind_run.
  destruct (fetchMarketIndexData_returns env st2) as (marketData & st3 & ->).
  rewrite bind_run, now_run, bind_run.
  match goal with |- context [saveRawData ?d env ?s] =>
    destruct (saveRawData_returns d env s) as (path & st4 & ->) end.
  rewrite bind_run.
  assert (Hitems : Forall2 (fetched env) STOCKS_TO_TRACK stockData).
  { apply Forall2_fmap_l in Hall. eapply Forall2_impl; [exact Hall|]. auto. }
  assert (Hshape : Forall2 (fun symbol r =>
               sd_symbol r = symbol /\
               (is_Some (fetch_failure env symbol) ->
                sd_error r = fetch_failure env symbol /\
                sd_timeSeries r = None /\ sd_overview r = None) /\
               (fetch_failure env symbol = None ->
                sd_error r = None /\ is_Some (sd_timeSeries r) /\ is_Some (sd_overview r)))
            STOCKS_TO_TRACK stockData).
  { eapply Forall2_impl; [exact Hitems|]. intros symbol r [t ->].
    unfold fetch_result. destruct (fetch_failure env symbol) as [msg|]; simpl.
    - split; [reflexivity|]. split; [intros _; repeat split | discriminate].
    - split; [reflexivity|]. split; [intros [x Hx]; discriminate|].
      intros _. repeat split; eexists; reflexivity. }
  destruct path as [path|].
  - rewrite call_log. eexists _, _. split; [reflexivity|]. split; assumption.
  - eexists _, _. split; [reflexivity|]. split; assumption.
Qed.

(** ** The order of the requests *)

Lemma start_fetchStockData (symbol : string) (env : Env) (st : State) :
  (start (fetchStockData symbol) env st).2 = emit (Issue (AxiosGetDaily symbol)) st /\
  is_pending (start (fetchStockData symbol) env st).1 = true.
Proof. split; reflexivity. Qed.

Lemma start_all_fetch_trace (symbols : list string) (env : Env) (st : State) :
  st_trace (start_all (map fetchStockData symbols) env st).2
  = st_trace st ++ map (fun symbol => Issue (AxiosGetDaily symbol)) symbols.
Proof.
  revert st. induction symbols as [|s symbols IH]; intros st; simpl.
  - now rewrite app_nil_r.
  - specialize (IH (emit (Issue (AxiosGetDaily s)) st)).
    destruct (start_all (map fetchStockData symbols) env _) as [ps st2]. simpl in *.
    rewrite IH. now rewrite <- app_assoc.
Qed.

(** A trace is throttled when, between the requests that open two
    successive per-equity fetches, a delay has run out. *)
Fixpoint throttled (seen delayed : bool) (trace : list Event) : bool :=
  match trace with
  | [] => true
  | Issue (AxiosGetDaily _) :: rest =>
      if seen && negb delayed then false else throttled true false rest
  | Settle (SetTimeout _) :: rest => throttled seen true rest
  | _ :: rest => throttled seen delayed rest
  end.

(** C4 fails on the code.  In every extraction run the request that opens
    each equity's fetch is issued, in the order of the batch, before any
    call settles: the fetches run side by side, and the delay inside each
    of them comes after its two requests, not between two fetches.  So no
    run for two equities or more is throttled. *)
Theorem extract_issues_all_requests_at_once (STOCKS_TO_TRACK : list string)
    (env : Env) (st : State) :
  exists later,
    let run :=
      Issue (ConsoleLog "Starting data extraction process...")
        :: map (fun symbol => Issue (AxiosGetDaily symbol)) STOCKS_TO_TRACK
        ++ later in
    st_trace (extract STOCKS_TO_TRACK env st).2 = st_trace st ++ run /\
    (2 <= length STOCKS_TO_TRACK -> throttled false false run = false).
Proof.
  unfold extract. rewrite bind_run, call_log, bind_run. unfold map_async.
  pose proof (start_all_fetch_trace STOCKS_TO_TRACK env
                (logged "Starting data extraction process..." st)) as Htrace.
  destruct (start_all (map fetchStockData STOCKS_TO_TRACK) env _) as [ps st1].
  simpl in Htrace.
  match goal with |- context [(Promise_all ps ≫= ?k) env st1] =>
    assert (Hrest : orderly (Promise_all ps ≫= k)) end.
  { orderly_step.
    - apply orderly_Promise_all.
    - apply orderly_fetchMarketIndexData.
    - apply orderly_saveRawData.
    - match goal with |- orderly (match ?x with _ => _ end) => destruct x end;
        orderly_step. }
  destruct (Hrest env st1) as [_ [later Hlater]].
  exists later. split.
  - rewrite Hlater, Htrace. now rewrite <- !app_assoc.
  - destruct STOCKS_TO_TRACK as [|s1 [|s2 symbols]]; simpl; [lia | lia | reflexivity].
Qed.

(** The run for two equities in the reference world: the second request
    goes out before the first equity's delay has begun. *)
Example extract_two_symbols_trace :
  firstn 5 (st_trace (extract ["AAPL"; "MSFT"] Reference.env Reference.init).2)
  = [ Issue (ConsoleLog "Starting data extraction process...");
      Issue (AxiosGetDaily "AAPL"); Issue (AxiosGetDaily "MSFT");
      Settle (AxiosGetDaily "AAPL"); Issue (AxiosGetOverview "AAPL") ] /\
  throttled false false
    (st_trace (extract ["AAPL"; "MSFT"] Reference.env Reference.init).2) = false.
Proof. split; vm_compute; reflexivity. Qed.

(** ** Runs in the reference world *)

(** The lookback fields for series of 0, 1, 7, 8, 30, 31, 90 and 91 bars:
    which of the 7-, 30- and 90-day changes and the volatility are
    present. *)
Definition fields_present (n : nat) : list bool :=
  match (@calculateStockMetrics Reference.host (Reference.stock "X" n)
           Reference.env Reference.init).1 with
  | Normal m =>
      [ bool_decide (is_Some (stock_change D7 m));
        bool_decide (is_Some (stock_change D30 m));
        bool_decide (is_Some (stock_change D90 m));
        bool_decide (is_Some (stock_volatility30d m)) ]
  | Throw _ => []
  end.

Example fields_present_by_length :
  map fields_present [0; 1; 7; 8; 30; 31; 90; 91]%nat
  = [ [false; false; false; false]; [false; false; false; false];
      [false; false; false; false]; [true; false; false; false];
      [true; false; false; false]; [true; true; false; true];
      [true; true; false; true]; [true; true; true; true] ].
Proof. vm_compute. reflexivity. Qed.

(** A single bar: the price block is there, the reference date is the
    bar's, every change and the volatility are null. *)
Example single_bar_record :
  exists m, (@calculateStockMetrics Reference.host (Reference.stock "X" 1)
               Reference.env Reference.init).1 = Normal m /\
            sm_date m = Some "2023-01-01" /\ is_Some (sm_price m) /\
            sm_priceChanges m = Some {| change7d := None; change30d := None;
                                        change90d := None; percentChange7d := None;
                                        percentChange30d := None;
                                        percentChange90d := None |} /\
            sm_volatility m = Some {| volatility30d := None |}.
Proof. eexists. split; [vm_compute; reflexivity|]. repeat split. now eexists. Qed.

(** Three equities, the second refused upstream: the others are extracted,
    transformed and persisted, and the loader counts one error. *)
Definition second_fails : Env :=
  {| env_clock := env_clock Reference.env;
     env_daily := fun symbol =>
       if String.eqb symbol "MSFT" then Rejected (Error "Request failed with status code 500")
       else env_daily Reference.env symbol;
     env_overview := env_overview Reference.env;
     env_index := env_index Reference.env;
     env_cwd := env_cwd Reference.env;
     env_mkdir := Fulfilled tt;
     env_writeFile := Fulfilled tt;
     env_db_fault := fun _ => None;
     env_sched := [1; 0; 2; 1]%nat |}.

Definition extract_transform_load `{Host} (symbols : list string) : M LoadResult :=
  rawData ← extract symbols;
  transformedData ← transform rawData;
  load transformedData.

Example partial_failure_run :
  exists result st',
    @extract_transform_load Reference.host ["AAPL"; "MSFT"; "GOOGL"]
      second_fails Reference.init = (Normal result, st') /\
    stocksLoaded result = 2%nat /\ stockErrors result = 1%nat /\
    indicatorsLoaded result = 1%nat /\ indicatorErrors result = 0%nat /\
    map sr_symbol (st_stock_metrics st') = ["AAPL"; "GOOGL"].
Proof. eexists _, _. split; [vm_compute; reflexivity|]. repeat split. Qed.

(** The storage service fails for the index record only. *)
Definition index_insert_fails : Env :=
  {| env_clock := env_clock Reference.env;
     env_daily := env_daily Reference.env;
     env_overview := env_overview Reference.env;
     env_index := env_index Reference.env;
     env_cwd := env_cwd Reference.env;
     env_mkdir := Fulfilled tt;
     env_writeFile := Fulfilled tt;
     env_db_fault := fun n => if (n =? 1)%nat then Some (FaultReject (Error "fetch failed")) else None;
     env_sched := [] |}.

Example index_write_failure_run :
  exists result st',
    load sampleData index_insert_fails Reference.init = (Normal result, st') /\
    stocksLoaded result = 1%nat /\ stockErrors result = 0%nat /\
    indicatorsLoaded result = 0%nat /\ indicatorErrors result = 1%nat.
Proof. eexists _, _. split; [vm_compute; reflexivity|]. repeat split. Qed.

(** * Further properties *)

(** ** When the metric engine throws *)

Lemma get_bar_key (ts : TimeSeries) (d : string) :
  In d (Object_keys ts) -> is_Some (get_bar ts d).
Proof.
  induction ts as [|[k bar] ts IH]; simpl; [tauto|].
  intros Hin. destruct (String.eqb_spec k d) as [->|Hne]; [now eexists|].
  destruct Hin as [E|Hin]; [congruence | now apply IH].
Qed.

Lemma for_each_returns (body : list float -> nat -> Completion (list float))
    (len : nat) (close_at : nat -> Completion float) :
  (forall returns i,
     body returns i =
     if (i + 1 <? len)%nat then
       currentClose ← close_at i;
       previousClose ← close_at (i + 1)%nat;
       mret (returns ++ [((currentClose - previousClose) / previousClose)%float])
     else mret returns) ->
  (forall i, (i < len)%nat -> exists x, close_at i = Normal x) ->
  forall l acc, exists returns, for_each body l acc = Normal returns.
Proof.
  intros Hbody Hclose. induction l as [|i l IH]; intros acc; simpl; [eauto|].
  rewrite Hbody. destruct (Nat.ltb_spec (i + 1) len) as [Hlt|Hge].
  - destruct (Hclose i) as [x ->]; [lia|].
    destruct (Hclose (i + 1)%nat) as [y ->]; [lia|]. simpl. apply IH.
  - simpl. apply IH.
Qed.

Section EngineReturns.
Context `{Host}.

Lemma sorted_date_is_key (ts : TimeSeries) (i : nat) (d : string) :
  Array_sort date_desc (Object_keys ts) !! i = Some d -> In d (Object_keys ts).
Proof.
  intros Hi. apply list_elem_of_In.
  rewrite <- (Array_sort_perm date_desc (Object_keys ts)).
  eapply list_elem_of_lookup_2. exact Hi.
Qed.

Lemma close_of_returns (ts : TimeSeries) (i : nat) :
  (i < length (Array_sort date_desc (Object_keys ts)))%nat ->
  exists x, close_of ts (Array_sort date_desc (Object_keys ts) !! i) = Normal x.
Proof.
  intros Hlt. destruct (lookup_lt_is_Some_2 _ _ Hlt) as [d Hd].
  destruct (get_bar_key ts d (sorted_date_is_key ts i d Hd)) as [bar Hbar].
  unfold close_of. rewrite Hd. simpl. rewrite Hbar. eauto.
Qed.

Lemma stock_volatility_returns (ts : TimeSeries) :
  exists v, stock_volatility ts (Array_sort date_desc (Object_keys ts)) = Normal v.
Proof.
  unfold stock_volatility.
  destruct (30 <? _)%nat; [|now eexists].
  destruct (for_each_returns
              (push_return ts (Array_sort date_desc (Object_keys ts)))
              (length (Array_sort date_desc (Object_keys ts)))
              (fun i => close_of ts (Array_sort date_desc (Object_keys ts) !! i))
              ltac:(reflexivity) (close_of_returns ts) (seq 0 30) []) as [r ->].
  now eexists.
Qed.

(** The shapes of RawSeries on which the engine returns: an error, or a
    series that is empty, or a series together with an overview. *)
Definition stock_shape_ok (sd : StockData) : bool :=
  truthy (sd_error sd)
  || match sd_timeSeries sd with
     | Some [] => true
     | Some (_ :: _) => bool_decide (is_Some (sd_overview sd))
     | None => false
     end.

Definition index_shape_ok (md : MarketData) : bool :=
  truthy (md_error md) || bool_decide (is_Some (md_historical md)).

(** The error the record carries when the engine returns. *)
Definition stock_record_error (sd : StockData) : option string :=
  if truthy (sd_error sd) then sd_error sd
  else match sd_timeSeries sd with
       | Some [] => Some no_time_series
       | _ => None
       end.

Definition index_record_error (md : MarketData) : option string :=
  if truthy (md_error md) then md_error md
  else match md_historical md with
       | Some [] => Some no_historical
       | _ => None
       end.

Lemma calculateStockMetrics_shape (sd : StockData) (env : Env) (st : State) :
  if stock_shape_ok sd
  then exists m, calculateStockMetrics sd env st = (Normal m, tick st) /\
                 sm_symbol m = sd_symbol sd /\
                 sm_error m = stock_record_error sd /\
                 sm_transformedAt m = env_clock env (st_reads st)
  else exists msg, calculateStockMetrics sd env st = (Throw (TypeError msg), st).
Proof.
  unfold stock_shape_ok, stock_record_error, calculateStockMetrics.
  destruct (truthy (sd_error sd)); simpl; [now eexists|].
  destruct (sd_timeSeries sd) as [ts|]; [|now eexists].
  destruct (stock_volatility_returns ts) as [v Hv].
  destruct (Array_sort date_desc (Object_keys ts)) as [|latestDate dates] eqn:Hd.
  { apply Array_sort_nil in Hd. destruct ts; [now eexists | discriminate]. }
  destruct ts as [|e ts']; [discriminate|]. set (ts := e :: ts') in *.
  destruct (get_bar_key ts latestDate) as [bar ->].
  { apply (sorted_date_is_key ts 0). now rewrite Hd. }
  rewrite bind_run, lift_run, Hv.
  destruct (sd_overview sd) as [ov|].
  - rewrite bool_decide_eq_true_2 by now eexists. now eexists.
  - rewrite bool_decide_eq_false_2 by (intros [x Hx]; discriminate). now eexists.
Qed.

Lemma calculateMarketIndicators_shape (md : MarketData) (env : Env) (st : State) :
  if index_shape_ok md
  then exists m, calculateMarketIndicators md env st = (Normal m, tick st) /\
                 mi_index m = md_index md /\
                 mi_error m = index_record_error md /\
                 mi_transformedAt m = env_clock env (st_reads st)
  else exists msg, calculateMarketIndicators md env st = (Throw (TypeError msg), st).
Proof.
  unfold index_shape_ok, index_record_error, calculateMarketIndicators.
  destruct (truthy (md_error md)); simpl; [now eexists|].
  destruct (md_historical md) as [h|].
  - rewrite bool_decide_eq_true_2 by now eexists.
    destruct (Array_sort _ h) as [|latestData bars] eqn:Hd.
    + apply Array_sort_nil in Hd. subst h. now eexists.
    + rewrite bind_run, lift_run, index_volatility_spec.
      destruct h; [discriminate | now eexists].
  - rewrite bool_decide_eq_false_2 by (intros [x Hx]; discriminate). now eexists.
Qed.

(** X1.  [calculateStockMetrics] and [calculateMarketIndicators] return a
    record for the input's identifier, after one reading of the clock,
    exactly on the shapes above; on every other input (no error and no
    series; for an equity, bars and no overview) they throw a [TypeError]
    before the clock is read. *)
Theorem engine_throws_exactly_on_missing_parts (sd : StockData) (md : MarketData)
    (env : Env) (st : State) :
  (if stock_shape_ok sd
   then exists m, calculateStockMetrics sd env st = (Normal m, tick st) /\
                  sm_symbol m = sd_symbol sd /\
                  sm_transformedAt m = env_clock env (st_reads st)
   else exists msg, calculateStockMetrics sd env st = (Throw (TypeError msg), st))
  /\
  (if index_shape_ok md
   then exists m, calculateMarketIndicators md env st = (Normal m, tick st) /\
                  mi_index m = md_index md /\
                  mi_transformedAt m = env_clock env (st_reads st)
   else exists msg, calculateMarketIndicators md env st = (Throw (TypeError msg), st)).
Proof.
  split.
  - pose proof (calculateStockMetrics_shape sd env st) as Hs.
    destruct (stock_shape_ok sd); [|exact Hs].
    destruct Hs as (m & Hrun & Hsym & _ & Ht). now exists m.
  - pose proof (calculateMarketIndicators_shape md env st) as Hs.
    destruct (index_shape_ok md); [|exact Hs].
    destruct Hs as (m & Hrun & Hidx & _ & Ht). now exists m.
Qed.

End EngineReturns.

(** ** The reference bar *)

Lemma sorted_head_latest `{Host} {A} (date : A -> string) (l : list A) (a : A) :
  Forall (dated date) l ->
  Array_sort (by_date_desc date) l !! 0%nat = Some a ->
  In a l /\ Forall (not_older date a) l.
Proof.
  intros Hd H0.
  pose proof (Array_sort_sorted date l Hd) as Hs.
  pose proof (Array_sort_perm (by_date_desc date) l) as Hp.
  destruct (Array_sort (by_date_desc date) l) as [|x rest]; [discriminate|].
  injection H0 as ->.
  assert (Ha : a ∈ l) by (rewrite <- Hp; left).
  split; [now apply list_elem_of_In|].
  rewrite <- Hp. apply StronglySorted_inv in Hs as [_ Hrest].
  constructor; [|exact Hrest].
  rewrite Forall_forall in Hd. destruct (Hd a Ha) as [t Ht].
  exists t, t. repeat split; try assumption. lia.
Qed.

(** X2.  For an error-free RawSeries that has bars, of an equity or of the
    index, the record's reference date is the date of a bar of the series
    that no bar of the series is more recent than, and the record's price
    block is that bar's open, high, low, close and volume. *)
Theorem reference_bar_is_most_recent `{Host} (env : Env) (st : State)
    (sd : StockData) (ts : TimeSeries) (ov : gmap string string)
    (md : MarketData) (h : list IndexBar) :
  truthy (sd_error sd) = false ->
  sd_timeSeries sd = Some ts ->
  sd_overview sd = Some ov ->
  NoDup (Object_keys ts) ->
  Forall (dated fst) ts ->
  ts <> [] ->
  truthy (md_error md) = false ->
  md_historical md = Some h ->
  Forall (dated ib_date) h ->
  h <> [] ->
  (exists m date bar,
      calculateStockMetrics sd env st = (Normal m, tick st) /\
      In (date, bar) ts /\
      Forall (not_older fst (date, bar)) ts /\
      sm_date m = Some date /\
      sm_price m = Some {| p_open := parseFloat (k1_open bar);
                           p_high := parseFloat (k2_high bar);
                           p_low := parseFloat (k3_low bar);
                           p_close := parseFloat (k4_close bar);
                           p_volume := parseInt (k5_volume bar) |})
  /\
  (exists m bar,
      calculateMarketIndicators md env st = (Normal m, tick st) /\
      In bar h /\
      Forall (not_older ib_date bar) h /\
      mi_date m = Some (ib_date bar) /\
      mi_price m = Some {| p_open := ib_open bar; p_high := ib_high bar;
                           p_low := ib_low bar; p_close := ib_close bar;
                           p_volume := ib_volume bar |}).
Proof.
  intros Herr Hts Hov Hnd Hdated Hne Herr' Hh Hdated' Hne'. split.
  - destruct (calculateStockMetrics_bars sd env st ts ov) as (d0 & b0 & H0 & Hrun);
      try assumption.
    destruct (sorted_head_latest fst ts (d0, b0) Hdated H0) as [Hin Hall].
    eexists _, d0, b0. split; [exact Hrun|]. repeat split; assumption.
  - destruct (calculateMarketIndicators_bars md env st h) as (b0 & H0 & Hrun);
      try assumption.
    destruct (sorted_head_latest ib_date h b0 Hdated' H0) as [Hin Hall].
    eexists _, b0. split; [exact Hrun|]. repeat split; assumption.
Qed.

(** The theorem at series of 8 bars in the reference world. *)
Lemma reference_bar_witness :
  (exists m date bar,
      @calculateStockMetrics Reference.host (Reference.stock "X" 8)
        Reference.env Reference.init = (Normal m, tick Reference.init) /\
      In (date, bar) (Reference.series 8) /\
      Forall (@not_older Reference.host _ fst (date, bar)) (Reference.series 8) /\
      sm_date m = Some date /\
      sm_price m = Some {| p_open := Reference.parse_float (k1_open bar);
                           p_high := Reference.parse_float (k2_high bar);
                           p_low := Reference.parse_float (k3_low bar);
                           p_close := Reference.parse_float (k4_close bar);
                           p_volume := Reference.parse_int (k5_volume bar) |})
  /\
  (exists m bar,
      @calculateMarketIndicators Reference.host (Reference.market 8)
        Reference.env Reference.init = (Normal m, tick Reference.init) /\
      In bar (Reference.index_series 8) /\
      Forall (@not_older Reference.host _ ib_date bar) (Reference.index_series 8) /\
      mi_date m = Some (ib_date bar) /\
      mi_price m = Some {| p_open := ib_open bar; p_high := ib_high bar;
                           p_low := ib_low bar; p_close := ib_close bar;
                           p_volume := ib_volume bar |}).
Proof.
  apply (@reference_bar_is_most_recent Reference.host Reference.env Reference.init
           (Reference.stock "X" 8) (Reference.series 8) Reference.overview
           (Reference.market 8) (Reference.index_series 8));
    try reflexivity; try discriminate.
  - apply (bool_decide_unpack _). vm_compute. exact I.
  - apply (bool_decide_unpack _). vm_compute. exact I.
  - apply (bool_decide_unpack _). vm_compute. exact I.
Defined.

(** ** The order of arrival *)

Lemma sorted_perm_unique {A} (R : A -> A -> Prop) (l1 l2 : list A) :
  (forall a b, a ∈ l1 -> b ∈ l1 -> R a b -> R b a -> a = b) ->
  StronglySorted R l1 -> StronglySorted R l2 -> l1 ≡ₚ l2 -> l1 = l2.
Proof.
  revert l2. induction l1 as [|a l1 IH]; intros l2 Hanti H1 H2 Hp.
  - now apply Permutation_nil in Hp.
  - destruct l2 as [|b l2]; [now apply Permutation_sym, Permutation_nil in Hp|].
    apply StronglySorted_inv in H1 as [H1 Ha].
    apply StronglySorted_inv in H2 as [H2 Hb].
    assert (a = b) as <-.
    { assert (Hin : a ∈ b :: l2) by (rewrite <- Hp; left).
      apply elem_of_cons in Hin as [E|Hin]; [exact E|].
      assert (Hin' : b ∈ a :: l1) by (rewrite Hp; left).
      pose proof Hin' as Hin''.
      apply elem_of_cons in Hin' as [E|Hin']; [now symmetry|].
      rewrite Forall_forall in Ha, Hb.
      apply Hanti; [left | exact Hin'' | now apply Ha | now apply Hb]. }
    f_equal. apply IH; try assumption.
    + intros x y Hx Hy. apply Hanti; now right.
    + now apply Permutation_cons_inv in Hp.
Qed.

Lemma NoDup_map_inj {A B} (f : A -> B) (l : list A) (a b : A) :
  NoDup (map f l) -> a ∈ l -> b ∈ l -> f a = f b -> a = b.
Proof.
  induction l as [|x l IH]; simpl; intros Hnd Ha Hb Hf; [now apply elem_of_nil in Ha|].
  apply NoDup_cons in Hnd as [Hx Hnd].
  apply elem_of_cons in Ha as [->|Ha]; apply elem_of_cons in Hb as [->|Hb].
  - reflexivity.
  - exfalso. apply Hx. rewrite Hf. apply list_elem_of_In, in_map. now apply list_elem_of_In.
  - exfalso. apply Hx. rewrite <- Hf. apply list_elem_of_In, in_map. now apply list_elem_of_In.
  - now apply IH.
Qed.

Section ArrivalOrder.
Context `{Host}.

(** Bars on pairwise different days sort to one sequence, however they
    arrive. *)
Lemma Array_sort_perm_eq {A} (date : A -> string) (l l' : list A) :
  l ≡ₚ l' ->
  NoDup (map (fun a => Date_parse (date a)) l) ->
  Forall (dated date) l ->
  Array_sort (by_date_desc date) l = Array_sort (by_date_desc date) l'.
Proof.
  intros Hp Hnd Hd.
  apply (sorted_perm_unique (not_older date)).
  - intros a b Ha Hb (ta & tb & Hta & Htb & Hab) (tb' & ta' & Htb' & Hta' & Hba).
    rewrite (Array_sort_perm (by_date_desc date) l) in Ha, Hb.
    apply (NoDup_map_inj (fun a => Date_parse (date a)) l a b Hnd Ha Hb).
    rewrite Hta, Htb. f_equal. rewrite Hta in Hta'. rewrite Htb in Htb'.
    injection Hta' as <-. injection Htb' as <-. lia.
  - now apply Array_sort_sorted.
  - apply Array_sort_sorted. now rewrite <- Hp.
  - now rewrite !Array_sort_perm.
Qed.

(** X3.  The record does not depend on the order in which the bars
    arrive: two error-free RawSeries with the same identifier (and, for an
    equity, the same overview) whose bars are the same up to their order,
    on pairwise different days, give the same record. *)
Theorem record_independent_of_arrival_order (env : Env) (st : State)
    (sd sd' : StockData) (ts ts' : TimeSeries) (ov : gmap string string)
    (md md' : MarketData) (h h' : list IndexBar) :
  sd_symbol sd = sd_symbol sd' ->
  truthy (sd_error sd) = false -> truthy (sd_error sd') = false ->
  sd_timeSeries sd = Some ts -> sd_timeSeries sd' = Some ts' ->
  sd_overview sd = Some ov -> sd_overview sd' = Some ov ->
  ts ≡ₚ ts' ->
  NoDup (map (fun e => Date_parse e.1) ts) ->
  Forall (dated fst) ts ->
  md_index md = md_index md' ->
  truthy (md_error md) = false -> truthy (md_error md') = false ->
  md_historical md = Some h -> md_historical md' = Some h' ->
  h ≡ₚ h' ->
  NoDup (map (fun b => Date_parse (ib_date b)) h) ->
  Forall (dated ib_date) h ->
  calculateStockMetrics sd env st = calculateStockMetrics sd' env st /\
  calculateMarketIndicators md env st = calculateMarketIndicators md' env st.
Proof.
  intros Hsym Herr Herr' Hts Hts' Hov Hov' Hp Hnd Hd Hidx Herr2 Herr2' Hh Hh' Hp2 Hnd2 Hd2.
  split.
  - destruct ts as [|e0 ts0] eqn:Ets.
    { apply Permutation_nil in Hp. subst ts'.
      rewrite !calculateStockMetrics_empty by assumption. now rewrite Hsym. }
    rewrite <- Ets in *.
    assert (Hkeys : NoDup (Object_keys ts)).
    { unfold Object_keys. apply (NoDup_fmap_1 Date_parse).
      change (NoDup (map Date_parse (map fst ts))). now rewrite map_map. }
    assert (Hkeys' : NoDup (Object_keys ts')).
    { unfold Object_keys. change (NoDup (fst <$> ts')). now rewrite <- Hp. }
    assert (Hne' : ts' <> []).
    { intros ->. apply Permutation_sym, Permutation_nil in Hp. congruence. }
    destruct (calculateStockMetrics_bars sd env st ts ov) as (d0 & b0 & H0 & ->);
      try assumption; [congruence|].
    destruct (calculateStockMetrics_bars sd' env st ts' ov) as (d0' & b0' & H0' & ->);
      try assumption.
    assert (Hsorted : sorted_entries ts = sorted_entries ts')
      by now apply Array_sort_perm_eq.
    rewrite <- Hsorted in *. rewrite H0 in H0'. injection H0' as <- <-.
    now rewrite Hsym.
  - destruct h as [|b0 hh] eqn:Eh.
    { apply Permutation_nil in Hp2. subst h'.
      rewrite !calculateMarketIndicators_empty by assumption. now rewrite Hidx. }
    rewrite <- Eh in *.
    assert (Hne' : h' <> []).
    { intros ->. apply Permutation_sym, Permutation_nil in Hp2. congruence. }
    destruct (calculateMarketIndicators_bars md env st h) as (l0 & H0 & ->);
      try assumption; [congruence|].
    destruct (calculateMarketIndicators_bars md' env st h') as (l0' & H0' & ->);
      try assumption.
    assert (Hsorted : sorted_bars h = sorted_bars h') by now apply Array_sort_perm_eq.
    rewrite <- Hsorted in *. rewrite H0 in H0'. injection H0' as <-.
    now rewrite Hidx.
Qed.

End ArrivalOrder.

Definition reversed_stock (symbol : string) (n : nat) : StockData :=
  {| sd_symbol := symbol; sd_error := None;
     sd_timeSeries := Some (rev (Reference.series n));
     sd_overview := Some Reference.overview; sd_extractedAt := "t" |}.

Definition reversed_market (n : nat) : MarketData :=
  {| md_index := "S&P500"; md_error := None;
     md_historical := Some (rev (Reference.index_series n)); md_extractedAt := "t" |}.

(** The theorem at series of 8 bars, oldest first and newest first. *)
Lemma arrival_order_witness :
  @calculateStockMetrics Reference.host (Reference.stock "X" 8) Reference.env Reference.init
  = @calculateStockMetrics Reference.host (reversed_stock "X" 8) Reference.env Reference.init
  /\
  @calculateMarketIndicators Reference.host (Reference.market 8) Reference.env Reference.init
  = @calculateMarketIndicators Reference.host (reversed_market 8) Reference.env Reference.init.
Proof.
  apply (@record_independent_of_arrival_order Reference.host Reference.env Reference.init
           (Reference.stock "X" 8) (reversed_stock "X" 8)
           (Reference.series 8) (rev (Reference.series 8)) Reference.overview
           (Reference.market 8) (reversed_market 8)
           (Reference.index_series 8) (rev (Reference.index_series 8)));
    try reflexivity; try apply Permutation_rev;
    apply (bool_decide_unpack _); vm_compute; exact I.
Defined.

(** ** The index fetch and the audit file *)

(** The message of the exception that ends the index fetch in [env], if
    one does: a rejected request, a body that is [null] or has no
    [historical]. *)
Definition index_failure (env : Env) : option string :=
  match env_index env with
  | Rejected e => Some (message e)
  | Fulfilled data =>
      match data ≫= fmp_historical with
      | Some _ => None
      | None => Some index_fetch_failed
      end
  end.

Definition index_result (env : Env) (extractedAt : string) : MarketData :=
  match index_failure env with
  | Some msg =>
      {| md_index := "S&P500"; md_error := Some msg; md_historical := None;
         md_extractedAt := extractedAt |}
  | None =>
      {| md_index := "S&P500"; md_error := None;
         md_historical := match env_index env with
                          | Fulfilled data => data ≫= fmp_historical
                          | Rejected _ => None
                          end;
         md_extractedAt := extractedAt |}
  end.

(** X4.  [fetchMarketIndexData] never throws and makes one request.  A
    rejected request, a [null] body and a body without [historical] all
    give the degenerate RawSeries of ["S&P500"]: the error message, no
    bars, and one line on the error console; otherwise the RawSeries
    carries the response's bars and no error.  The extraction timestamp is
    the clock's reading. *)
Theorem fetchMarketIndexData_spec (env : Env) (st : State) :
  exists st',
    fetchMarketIndexData env st
    = (Normal (index_result env (env_clock env (st_reads st))), st') /\
    st_reads st' = S (st_reads st) /\
    st_trace st'
    = st_trace st ++ [Issue AxiosGetIndex; Settle AxiosGetIndex]
        ++ match index_failure env with
           | Some msg => [Issue (ConsoleError ("Error fetching market index data: " +:+ msg))]
           | None => []
           end.
Proof.
  unfold fetchMarketIndexData, try_catch, index_result, index_failure.
  rewrite !bind_run. unfold call at 1. simpl.
  destruct (env_index env) as [data|e]; simpl.
  - destruct (data ≫= fmp_historical) as [historical|]; simpl.
    + eexists. split; [reflexivity|]. split; [reflexivity|]. simpl.
      now rewrite <- app_assoc.
    + eexists. split; [reflexivity|]. split; [reflexivity|]. simpl.
      now rewrite <- !app_assoc.
  - eexists. split; [reflexivity|]. split; [reflexivity|]. simpl.
    now rewrite <- !app_assoc.
Qed.

Lemma replace_colon_dot_chars (s : string) :
  String.length (replace_colon_dot s) = String.length s /\
  Forall (fun a => a <> ":"%char /\ a <> "."%char)
         (list_ascii_of_string (replace_colon_dot s)).
Proof.
  induction s as [|a s [IHl IHf]]; simpl; [split; [reflexivity | constructor]|].
  split; [now rewrite IHl|]. constructor; [|exact IHf].
  destruct (Ascii.eqb_spec a ":") as [->|H1]; simpl; [split; discriminate|].
  destruct (Ascii.eqb_spec a ".") as [->|H2]; simpl; [split; discriminate|].
  now split.
Qed.

(** The file's path for the working directory [cwd] and the clock's
    reading [now]. *)
Definition raw_data_path (cwd now : string) : string :=
  path_join (path_join cwd "data") ("raw_data_" +:+ replace_colon_dot now +:+ ".json").

(** X5.  [saveRawData] is best effort: it never throws.  When the
    directory cannot be made, nothing is written and the clock is not
    read; when the directory is made and the write fails, or the directory
    cannot be made, the result is [null] and the failure is on the error
    console; otherwise the result is the path of the file: in the
    directory [data] of the working directory of the process, named after
    the clock's reading with every [:] and [.] replaced, so that the stamp
    in the name has the reading's length and neither character.  The path
    is absolute when the working directory is: run in [/home/etl] at
    [2024-01-15T10:30:00.000Z] the file is
    [/home/etl/data/raw_data_2024-01-15T10-30-00-000Z.json]. *)
Theorem saveRawData_best_effort (data : ExtractedData) (env : Env) (st : State) :
  let now := env_clock env (st_reads st) in
  let dataDir := path_join (env_cwd env) "data" in
  let filePath := path_join dataDir ("raw_data_" +:+ replace_colon_dot now +:+ ".json") in
  (String.length (replace_colon_dot now) = String.length now /\
   Forall (fun a => a <> ":"%char /\ a <> "."%char)
          (list_ascii_of_string (replace_colon_dot now)))
  /\
  (exists st',
    saveRawData data env st
    = (Normal match env_mkdir env, env_writeFile env with
              | Fulfilled _, Fulfilled _ => Some filePath
              | _, _ => None
              end, st') /\
    st_trace st'
    = st_trace st ++
      match env_mkdir env with
      | Rejected e =>
          [Issue (FsMkdir dataDir); Settle (FsMkdir dataDir);
           Issue (ConsoleError ("Error saving raw data: " +:+ message e))]
      | Fulfilled _ =>
          [Issue (FsMkdir dataDir); Settle (FsMkdir dataDir);
           Issue (FsWriteFile filePath); Settle (FsWriteFile filePath)]
          ++ match env_writeFile env with
             | Rejected e => [Issue (ConsoleError ("Error saving raw data: " +:+ message e))]
             | Fulfilled _ => []
             end
      end /\
    st_reads st' = match env_mkdir env with
                   | Rejected _ => st_reads st
                   | Fulfilled _ => S (st_reads st)
                   end)
  /\
  path_join "/home/etl" "data" = "/home/etl/data" /\
  raw_data_path "/home/etl" "2024-01-15T10:30:00.000Z"
  = "/home/etl/data/raw_data_2024-01-15T10-30-00-000Z.json" /\
  (filePath = raw_data_path (env_cwd env) now).
Proof.
  intros now dataDir filePath. split; [apply replace_colon_dot_chars|].
  split; [|split; [vm_compute; reflexivity | split; [vm_compute; reflexivity | reflexivity]]].
  unfold saveRawData, try_catch. subst now dataDir filePath.
  unfold mbind, M_bind, call, process_cwd. simpl.
  destruct (env_mkdir env) as [[]|e]; simpl.
  - destruct (env_writeFile env) as [[]|e]; simpl;
      (eexists; split; [reflexivity|]; split; [|reflexivity]; simpl;
       now rewrite <- !app_assoc).
  - eexists. split; [reflexivity|]. split; [|reflexivity]. simpl.
    now rewrite <- !app_assoc.
Qed.

(** ** Invariants of a run

    A relation between the state before and the state after that every
    call keeps is kept by every function of the pipeline. *)

Section Invariant.
Variable R : State -> State -> Prop.
Hypothesis R_refl : forall st, R st st.
Hypothesis R_trans : forall st1 st2 st3, R st1 st2 -> R st2 st3 -> R st1 st3.
Hypothesis R_emit : forall ev st, R st (emit ev st).
Hypothesis R_perform : forall c env st, R st (perform c env st).2.

Definition keeps {A} (m : M A) : Prop := forall env st, R st (m env st).2.

Lemma R_do_sync (c : Call) (env : Env) (st : State) : R st (do_sync c env st).2.
Proof.
  unfold do_sync. pose proof (R_perform c env st) as Hp.
  destruct (perform c env st) as [r st']. simpl in *.
  destruct c; try exact Hp; eapply R_trans; try exact Hp; apply R_emit.
Qed.

Lemma keeps_call (c : Call) : keeps (call c).
Proof.
  intros env st. unfold call. destruct (is_async c).
  - pose proof (R_perform c env (emit (Issue c) st)) as Hp.
    destruct (perform c env (emit (Issue c) st)) as [r st']. simpl in *.
    eapply R_trans; [apply R_emit|]. eapply R_trans; [exact Hp | apply R_emit].
  - pose proof (R_do_sync c env st) as Hp.
    now destruct (do_sync c env st) as [r st'].
Qed.

Lemma keeps_ret {A} (a : A) : keeps (mret a).
Proof. intros env st. apply R_refl. Qed.

Lemma keeps_throw {A} (e : Exn) : keeps (@throw A e).
Proof. intros env st. apply R_refl. Qed.

Lemma keeps_lift {A} (c : Completion A) : keeps (lift c).
Proof. intros env st. apply R_refl. Qed.

Lemma keeps_cwd : keeps process_cwd.
Proof. intros env st. apply R_refl. Qed.

Lemma keeps_settled {A} (o : Outcome A) : keeps (settled o).
Proof. destruct o; [apply keeps_ret | apply keeps_throw]. Qed.

Lemma keeps_bind {A B} (m : M A) (f : A -> M B) :
  keeps m -> (forall a, keeps (f a)) -> keeps (m ≫= f).
Proof.
  intros Hm Hf env st. rewrite bind_run. specialize (Hm env st).
  destruct (m env st) as [[a|e] st1]; simpl in *; [|exact Hm].
  eapply R_trans; [exact Hm | apply Hf].
Qed.

Lemma keeps_try {A} (body : M A) (handler : Exn -> M A) :
  keeps body -> (forall e, keeps (handler e)) -> keeps (try_catch body handler).
Proof.
  intros Hb Hh env st. unfold try_catch. specialize (Hb env st).
  destruct (body env st) as [[a|e] st1]; simpl in *; [exact Hb|].
  eapply R_trans; [exact Hb | apply Hh].
Qed.

Lemma keeps_mapM {A B} (f : A -> M B) (l : list A) :
  (forall a, keeps (f a)) -> keeps (mapM f l).
Proof.
  intros Hf. induction l as [|x l IH]; simpl; [apply keeps_ret|].
  apply keeps_bind; [apply Hf|]. intros y.
  apply keeps_bind; [exact IH|]. intros ys. apply keeps_ret.
Qed.

Lemma keeps_for_of {A S} (body : S -> A -> M S) (l : list A) (s : S) :
  (forall s a, keeps (body s a)) -> keeps (for_of body l s).
Proof.
  intros Hb. revert s. induction l as [|x l IH]; intros s; simpl; [apply keeps_ret|].
  apply keeps_bind; [apply Hb | exact IH].
Qed.

Ltac keeps_step :=
  repeat match goal with
         | |- keeps (mbind _ _) => apply keeps_bind; [|intros ?]
         | |- keeps (try_catch _ _) => apply keeps_try; [|intros ?]
         | |- keeps (mapM _ _) => apply keeps_mapM; intros ?
         | |- keeps (for_of _ _ _) => apply keeps_for_of; intros ? ?
         | |- keeps (mret _) => apply keeps_ret
         | |- keeps (throw _) => apply keeps_throw
         | |- keeps (lift _) => apply keeps_lift
         | |- keeps (call ?c) => exact (keeps_call c)
         | |- keeps (settled _) => apply keeps_settled
         | |- keeps process_cwd => apply keeps_cwd
         | |- keeps (match ?x with _ => _ end) => destruct x
         | |- keeps (if ?x then _ else _) => destruct x
         end.

Lemma R_start {A} (t : Task A) (env : Env) (st : State) : R st (start t env st).2.
Proof.
  revert st. induction t as [a|e|c k IH]; intros st; simpl; try apply R_refl.
  destruct (is_async c); [apply R_emit|].
  pose proof (R_do_sync c env st) as Hs.
  destruct (do_sync c env st) as [r st1]. simpl in Hs.
  eapply R_trans; [exact Hs | apply IH].
Qed.

Lemma R_resume {A} (p : Promise A) (env : Env) (st : State) : R st (resume p env st).2.
Proof.
  destruct p as [a|e|c k]; simpl; try apply R_refl.
  pose proof (R_perform c env st) as Hp.
  destruct (perform c env st) as [r st1]. simpl in Hp.
  eapply R_trans; [exact Hp|]. eapply R_trans; [apply R_emit | apply R_start].
Qed.

Lemma R_finish {A} (t : Task A) (env : Env) (st : State) : R st (finish t env st).2.
Proof.
  revert st. induction t as [a|e|c k IH]; intros st; simpl; try apply R_refl.
  destruct (is_async c).
  - pose proof (R_perform c env (emit (Issue c) st)) as Hp.
    destruct (perform c env (emit (Issue c) st)) as [r st1]. simpl in Hp.
    eapply R_trans; [apply R_emit|]. eapply R_trans; [exact Hp|].
    eapply R_trans; [apply R_emit | apply IH].
  - pose proof (R_do_sync c env st) as Hs.
    destruct (do_sync c env st) as [r st1]. simpl in Hs.
    eapply R_trans; [exact Hs | apply IH].
Qed.

Lemma keeps_map_async {A B} (f : A -> Task B) (l : list A) : keeps (map_async f l).
Proof.
  intros env st. unfold map_async.
  assert (Hs : forall ts st, R st (start_all (A:=B) ts env st).2).
  { clear st. induction ts as [|t ts IH]; intros st; simpl; [apply R_refl|].
    pose proof (R_start t env st) as H1.
    destruct (start t env st) as [p st1]. simpl in H1.
    specialize (IH st1). destruct (start_all ts env st1) as [ps st2]. simpl in *.
    eapply R_trans; eassumption. }
  specialize (Hs (map f l) st).
  now destruct (start_all (map f l) env st) as [ps st1].
Qed.

Lemma keeps_Promise_all {A} (promises : list (Promise A)) : keeps (Promise_all promises).
Proof.
  intros env st. unfold Promise_all.
  assert (H1 : forall sched ps st, R st (run_sched (A:=A) sched ps env st).2).
  { clear st. induction sched as [|n sched IH]; intros ps st; simpl; [apply R_refl|].
    destruct (pending_indices 0 ps) as [|i0 rest]; [apply R_refl|].
    destruct (ps !! _) as [p|]; [|apply R_refl].
    pose proof (R_resume p env st) as Hr.
    destruct (resume p env st) as [p' st1]. simpl in Hr.
    eapply R_trans; [exact Hr | apply IH]. }
  assert (H2 : forall ps st, R st (drain (A:=A) ps env st).2).
  { clear st H1. induction ps as [|p ps IH]; intros st; simpl; [apply R_refl|].
    assert (Hf : R st (finish_promise p env st).2).
    { destruct p as [a|e|c k]; simpl; try apply R_refl.
      pose proof (R_perform c env st) as Hp.
      destruct (perform c env st) as [r st1]. simpl in Hp.
      eapply R_trans; [exact Hp|]. eapply R_trans; [apply R_emit | apply R_finish]. }
    destruct (finish_promise p env st) as [r st1]. simpl in Hf.
    specialize (IH st1). destruct (drain ps env st1) as [rs st2]. simpl in *.
    eapply R_trans; eassumption. }
  specialize (H1 (env_sched env) promises st).
  destruct (run_sched (env_sched env) promises env st) as [ps st1]. simpl in H1.
  specialize (H2 ps st1). destruct (drain ps env st1) as [rs st2]. simpl in *.
  eapply R_trans; eassumption.
Qed.

Lemma keeps_extract (STOCKS_TO_TRACK : list string) : keeps (extract STOCKS_TO_TRACK).
Proof.
  unfold extract. keeps_step.
  - apply keeps_map_async.
  - apply keeps_Promise_all.
  - unfold fetchMarketIndexData. keeps_step.
  - unfold saveRawData. keeps_step.
Qed.

Lemma keeps_transform `{Host} (extractedData : ExtractedData) :
  keeps (transform extractedData).
Proof.
  unfold transform. keeps_step.
  - unfold calculateStockMetrics. keeps_step.
  - unfold calculateMarketIndicators. keeps_step.
Qed.

Lemma keeps_loadStockMetrics (stockMetrics : list StockMetrics) :
  keeps (loadStockMetrics stockMetrics).
Proof. unfold loadStockMetrics. keeps_step. unfold load_stock. keeps_step. Qed.

Lemma keeps_loadMarketIndicators (marketIndicators : option MarketIndicators) :
  keeps (loadMarketIndicators marketIndicators).
Proof. unfold loadMarketIndicators. keeps_step. Qed.

Lemma keeps_load (transformedData : TransformedData) : keeps (load transformedData).
Proof.
  unfold load. keeps_step.
  - apply keeps_loadStockMetrics.
  - apply keeps_loadMarketIndicators.
Qed.

Lemma keeps_runETLPipeline `{Host} (STOCKS_TO_TRACK : list string) :
  keeps (runETLPipeline STOCKS_TO_TRACK).
Proof.
  unfold runETLPipeline, run_stages, run_stages_body. keeps_step.
  - apply keeps_extract.
  - apply keeps_transform.
  - apply keeps_load.
Qed.

End Invariant.

(** ** The tables over a run *)

Definition stock_key (r : StockRow) : string * option string := (sr_symbol r, sr_date r).
Definition index_key (r : IndexRow) : string * option string := (ir_index_name r, ir_date r).

(** The constraints of the migration: [UNIQUE(symbol, date)],
    [UNIQUE(index_name, date)], and [date] is [NOT NULL]. *)
Definition constraints_hold (st : State) : Prop :=
  NoDup (map stock_key (st_stock_metrics st)) /\
  NoDup (map index_key (st_market_indicators st)) /\
  Forall (fun r => is_Some (sr_date r)) (st_stock_metrics st) /\
  Forall (fun r => is_Some (ir_date r)) (st_market_indicators st).

(** Rows are only added, at the end, and the constraints are kept. *)
Definition tables_evolve (st st' : State) : Prop :=
  st_stock_metrics st `prefix_of` st_stock_metrics st' /\
  st_market_indicators st `prefix_of` st_market_indicators st' /\
  (constraints_hold st -> constraints_hold st').

Lemma tables_evolve_refl (st : State) : tables_evolve st st.
Proof. split; [reflexivity|]. split; [reflexivity | tauto]. Qed.

Lemma tables_evolve_trans (st1 st2 st3 : State) :
  tables_evolve st1 st2 -> tables_evolve st2 st3 -> tables_evolve st1 st3.
Proof.
  intros (A1 & B1 & C1) (A2 & B2 & C2).
  split; [etransitivity; eassumption|]. split; [etransitivity; eassumption|].
  intros C. apply C2, C1, C.
Qed.

Lemma tables_evolve_same (st st' : State) :
  st_stock_metrics st' = st_stock_metrics st ->
  st_market_indicators st' = st_market_indicators st ->
  tables_evolve st st'.
Proof.
  intros E1 E2. unfold tables_evolve, constraints_hold. rewrite E1, E2.
  split; [reflexivity|]. split; [reflexivity | tauto].
Qed.

Lemma fresh_stock_key (row : StockRow) (date : string) (table : list StockRow) :
  sr_date row = Some date ->
  existsb (same_stock_key (sr_symbol row) date) table = false ->
  ~ In (stock_key row) (map stock_key table).
Proof.
  intros Hd Hex Hin. apply in_map_iff in Hin as (r & Hk & Hr).
  assert (Ht : existsb (same_stock_key (sr_symbol row) date) table = true).
  { apply existsb_exists. exists r. split; [exact Hr|].
    unfold stock_key in Hk. injection Hk as Hs Hdt. unfold same_stock_key.
    rewrite Hs, String.eqb_refl. simpl. apply bool_decide_eq_true_2. congruence. }
  congruence.
Qed.

Lemma fresh_index_key (row : IndexRow) (date : string) (table : list IndexRow) :
  ir_date row = Some date ->
  existsb (same_index_key (ir_index_name row) date) table = false ->
  ~ In (index_key row) (map index_key table).
Proof.
  intros Hd Hex Hin. apply in_map_iff in Hin as (r & Hk & Hr).
  assert (Ht : existsb (same_index_key (ir_index_name row) date) table = true).
  { apply existsb_exists. exists r. split; [exact Hr|].
    unfold index_key in Hk. injection Hk as Hs Hdt. unfold same_index_key.
    rewrite Hs, String.eqb_refl. simpl. apply bool_decide_eq_true_2. congruence. }
  congruence.
Qed.

Lemma tables_evolve_perform (c : Call) (env : Env) (st : State) :
  tables_evolve st (perform c env st).2.
Proof.
  destruct c; simpl; try (apply tables_evolve_same; reflexivity).
  - destruct (env_db_fault env (st_inserts st)) as [[msg|e]|]; simpl;
      try (apply tables_evolve_same; reflexivity).
    unfold insert_stock_row.
    destruct (sr_date row) as [date|] eqn:Hd;
      [|apply tables_evolve_same; reflexivity].
    destruct (existsb _ (st_stock_metrics st)) eqn:Hex;
      [apply tables_evolve_same; reflexivity|].
    unfold tables_evolve, constraints_hold. simpl.
    split; [now apply prefix_app_r|]. split; [reflexivity|].
    intros (N1 & N2 & F1 & F2). repeat split; try assumption.
    + rewrite map_app. apply NoDup_app. split; [exact N1|].
      split; [|apply NoDup_singleton].
      intros k Hk Hrow. apply list_elem_of_singleton in Hrow. subst k.
      apply (fresh_stock_key row date (st_stock_metrics st) Hd Hex).
      now apply list_elem_of_In.
    + apply Forall_app. split; [exact F1|]. constructor; [|constructor].
      rewrite Hd. now eexists.
  - destruct (env_db_fault env (st_inserts st)) as [[msg|e]|]; simpl;
      try (apply tables_evolve_same; reflexivity).
    unfold insert_index_row.
    destruct (ir_date row) as [date|] eqn:Hd;
      [|apply tables_evolve_same; reflexivity].
    destruct (existsb _ (st_market_indicators st)) eqn:Hex;
      [apply tables_evolve_same; reflexivity|].
    unfold tables_evolve, constraints_hold. simpl.
    split; [reflexivity|]. split; [now apply prefix_app_r|].
    intros (N1 & N2 & F1 & F2). repeat split; try assumption.
    + rewrite map_app. apply NoDup_app. split; [exact N2|].
      split; [|apply NoDup_singleton].
      intros k Hk Hrow. apply list_elem_of_singleton in Hrow. subst k.
      apply (fresh_index_key row date (st_market_indicators st) Hd Hex).
      now apply list_elem_of_In.
    + apply Forall_app. split; [exact F2|]. constructor; [|constructor].
      rewrite Hd. now eexists.
Qed.

Lemma tables_evolve_emit (ev : Event) (st : State) : tables_evolve st (emit ev st).
Proof. now apply tables_evolve_same. Qed.

Lemma pipeline_tables_evolve `{Host} (STOCKS_TO_TRACK : list string)
    (env : Env) (st : State) :
  tables_evolve st (runETLPipeline STOCKS_TO_TRACK env st).2.
Proof.
  apply (keeps_runETLPipeline tables_evolve tables_evolve_refl tables_evolve_trans
           tables_evolve_emit tables_evolve_perform).
Qed.

(** X6.  A run of the pipeline only adds rows: the rows that were in
    [stock_metrics] and in [market_indicators] before the run are there
    after it, unchanged and in place, whatever the providers and the
    storage service answer. *)
Theorem pipeline_only_appends_rows `{Host} (STOCKS_TO_TRACK : list string)
    (env : Env) (st : State) :
  st_stock_metrics st
    `prefix_of` st_stock_metrics (runETLPipeline STOCKS_TO_TRACK env st).2 /\
  st_market_indicators st
    `prefix_of` st_market_indicators (runETLPipeline STOCKS_TO_TRACK env st).2.
Proof.
  destruct (pipeline_tables_evolve STOCKS_TO_TRACK env st) as (A & B & _).
  now split.
Qed.

(** X7.  A run of the pipeline keeps the constraints of the schema: from
    tables in which every (symbol, date) and every (index name, date)
    occurs once and every row has a date, it leads to such tables; no run
    results in duplicate rows for a key. *)
Theorem pipeline_keeps_keys_unique `{Host} (STOCKS_TO_TRACK : list string)
    (env : Env) (st : State) :
  constraints_hold st ->
  constraints_hold (runETLPipeline STOCKS_TO_TRACK env st).2.
Proof.
  destruct (pipeline_tables_evolve STOCKS_TO_TRACK env st) as (_ & _ & C). exact C.
Qed.

Lemma constraints_hold_init : constraints_hold Reference.init.
Proof. repeat split; constructor. Qed.

(** The theorem at a run for three equities, twice over, from empty tables. *)
Lemma keys_unique_witness :
  constraints_hold
    (@runETLPipeline Reference.host ["AAPL"; "MSFT"; "GOOGL"] Reference.env
       (@runETLPipeline Reference.host ["AAPL"; "MSFT"; "GOOGL"] Reference.env
          Reference.init).2).2.
Proof.
  apply (@pipeline_keeps_keys_unique Reference.host).
  apply (@pipeline_keeps_keys_unique Reference.host).
  exact constraints_hold_init.
Defined.

(** ** What the loader reports and what it writes *)

(** The records for which the loader calls the storage service: no error,
    and the blocks the row is made of are there. *)
Definition attempted (stock : StockMetrics) : bool :=
  negb (truthy (sm_error stock))
  && match stock_row_of stock with Normal _ => true | Throw _ => false end.

Definition skipped_entry (stock : StockMetrics) : string * string :=
  (sm_symbol stock, default "" (sm_error stock)).

Lemma load_stock_effect (results : LoadResults) (stock : StockMetrics)
    (env : Env) (st : State) :
  exists results' st',
    load_stock results stock env st = (Normal results', st') /\
    st_inserts st' = st_inserts st + (if attempted stock then 1 else 0) /\
    length (st_stock_metrics st') + length (lr_success results)
    = length (st_stock_metrics st) + length (lr_success results') /\
    st_market_indicators st' = st_market_indicators st /\
    lr_errors results `prefix_of` lr_errors results' /\
    (truthy (sm_error stock) = true ->
     skipped_entry stock ∈ lr_errors results' /\ st' = st).
Proof.
  unfold load_stock, try_catch, attempted, skipped_entry.
  destruct (truthy (sm_error stock)); simpl.
  { eexists _, _. split; [reflexivity|]. simpl.
    repeat split; try lia; try (now apply prefix_app_r).
    apply elem_of_app. right. left. }
  unfold mbind, M_bind, lift, call. simpl.
  destruct (stock_row_of stock) as [row|e]; simpl.
  2:{ eexists _, _. split; [reflexivity|]. simpl.
      repeat split; try lia; try discriminate. now apply prefix_app_r. }
  destruct (env_db_fault env (st_inserts st)) as [[msg|e]|]; simpl.
  - eexists _, _. split; [reflexivity|]. simpl.
    repeat split; try lia; try discriminate. now apply prefix_app_r.
  - eexists _, _. split; [reflexivity|]. simpl.
    repeat split; try lia; try discriminate. now apply prefix_app_r.
  - unfold insert_stock_row.
    destruct (sr_date row) as [date|]; simpl.
    + destruct (existsb _ (st_stock_metrics st)); simpl.
      * eexists _, _. split; [reflexivity|]. simpl.
        repeat split; try lia; try discriminate. now apply prefix_app_r.
      * eexists _, _. split; [reflexivity|]. simpl.
        repeat split; try discriminate; try reflexivity.
        -- lia.
        -- rewrite !length_app. simpl. lia.
    + eexists _, _. split; [reflexivity|]. simpl.
      repeat split; try lia; try discriminate. now apply prefix_app_r.
Qed.

Lemma for_of_load_stock_effect (batch : list StockMetrics) (results : LoadResults)
    (env : Env) (st : State) :
  exists results' st',
    for_of load_stock batch results env st = (Normal results', st') /\
    st_inserts st' = st_inserts st + length (List.filter attempted batch) /\
    length (st_stock_metrics st') + length (lr_success results)
    = length (st_stock_metrics st) + length (lr_success results') /\
    st_market_indicators st' = st_market_indicators st /\
    lr_errors results `prefix_of` lr_errors results' /\
    (forall stock, stock ∈ batch -> truthy (sm_error stock) = true ->
                   skipped_entry stock ∈ lr_errors results').
Proof.
  revert results st. induction batch as [|stock batch IH]; intros results st; simpl.
  - eexists _, _. split; [reflexivity|].
    repeat split; try lia; try reflexivity.
    intros stock Hin. now apply elem_of_nil in Hin.
  - rewrite bind_run.
    destruct (load_stock_effect results stock env st)
      as (r1 & st1 & -> & I1 & L1 & M1 & P1 & S1).
    destruct (IH r1 st1) as (r2 & st2 & -> & I2 & L2 & M2 & P2 & S2).
    eexists _, _. split; [reflexivity|].
    split; [destruct (attempted stock); simpl; lia|].
    split; [lia|]. split; [congruence|]. split; [etransitivity; eassumption|].
    intros m Hin Hm. apply elem_of_cons in Hin as [->|Hin]; [|now apply S2].
    destruct (S1 Hm) as [Hin1 _]. destruct P2 as [k ->].
    apply elem_of_app. now left.
Qed.

(** X8.  [loadStockMetrics] never calls the storage service for a record
    that carries an error: the service is called once for each record of
    the batch that has no error and has its blocks, and for no other; each
    record with an error is reported among the errors, under its symbol and
    with its own message. *)
Theorem loader_skips_error_records (batch : list StockMetrics)
    (env : Env) (st : State) :
  exists results st',
    loadStockMetrics batch env st = (Normal results, st') /\
    st_inserts st' = st_inserts st + length (List.filter attempted batch) /\
    (forall stock, stock ∈ batch -> truthy (sm_error stock) = true ->
                   attempted stock = false /\
                   skipped_entry stock ∈ lr_errors results).
Proof.
  unfold loadStockMetrics.
  destruct (for_of_load_stock_effect batch {| lr_success := []; lr_errors := [] |} env st)
    as (r & st' & Hrun & I & _ & _ & _ & S).
  exists r, st'. split; [exact Hrun|]. split; [exact I|].
  intros stock Hin Herr. split; [|now apply S].
  unfold attempted. now rewrite Herr.
Qed.

Lemma loadMarketIndicators_effect (marketIndicators : option MarketIndicators)
    (env : Env) (st : State) :
  exists result st',
    loadMarketIndicators marketIndicators env st = (Normal result, st') /\
    length (st_market_indicators st')
    = length (st_market_indicators st) + (if mr_success result then 1 else 0) /\
    st_stock_metrics st' = st_stock_metrics st.
Proof.
  assert (Hdone : forall (result : MarketResult) (st' : State),
             mr_success result = false ->
             st_market_indicators st' = st_market_indicators st ->
             st_stock_metrics st' = st_stock_metrics st ->
             exists result0 st0,
               (Normal result, st') = (Normal result0, st0) /\
               length (st_market_indicators st0)
               = length (st_market_indicators st) + (if mr_success result0 then 1 else 0) /\
               st_stock_metrics st0 = st_stock_metrics st).
  { intros result st' Hs Hm Hk. exists result, st'. rewrite Hs, Hm, Hk.
    repeat split. lia. }
  unfold loadMarketIndicators.
  destruct marketIndicators as [mi|]; [|now apply Hdone].
  destruct (truthy (mi_error mi)); [now apply Hdone|].
  unfold try_catch, mbind, M_bind, lift, call. simpl.
  destruct (index_row_of mi) as [row|e]; simpl; [|now apply Hdone].
  destruct (env_db_fault env (st_inserts st)) as [[msg|e]|]; simpl;
    try (now apply Hdone).
  unfold insert_index_row.
  destruct (ir_date row) as [date|]; simpl; [|now apply Hdone].
  destruct (existsb _ (st_market_indicators st)); simpl; [now apply Hdone|].
  eexists _, _. split; [reflexivity|]. simpl. rewrite length_app. simpl.
  split; [lia | reflexivity].
Qed.

(** X9.  What [load] reports as loaded is what it has persisted: the
    number of rows of [stock_metrics] grows by [stocksLoaded] and the
    number of rows of [market_indicators] by [indicatorsLoaded], for a
    storage service that either stores a row and reports no error or
    reports an error and stores nothing. *)
Theorem load_reports_rows_persisted (transformedData : TransformedData)
    (env : Env) (st : State) :
  exists result st',
    load transformedData env st = (Normal result, st') /\
    length (st_stock_metrics st') = length (st_stock_metrics st) + stocksLoaded result /\
    length (st_market_indicators st')
    = length (st_market_indicators st) + indicatorsLoaded result.
Proof.
  unfold load. rewrite bind_run, call_log, bind_run. unfold loadStockMetrics.
  destruct (for_of_load_stock_effect (td_stockMetrics transformedData)
              {| lr_success := []; lr_errors := [] |} env
              (logged "Starting data loading process..." st))
    as (r & st1 & -> & _ & L & Mk & _ & _).
  simpl in L, Mk. rewrite bind_run.
  assert (Hm : exists result st2,
             match td_marketIndicators transformedData with
             | Some marketIndicators => loadMarketIndicators (Some marketIndicators)
             | None =>
                 mret {| mr_success := false; mr_index := None; mr_date := None;
                         mr_error := Some no_market_indicators |}
             end env st1 = (Normal result, st2) /\
             length (st_market_indicators st2)
             = length (st_market_indicators st1) + (if mr_success result then 1 else 0) /\
             st_stock_metrics st2 = st_stock_metrics st1).
  { destruct (td_marketIndicators transformedData);
      [apply loadMarketIndicators_effect |].
    eexists _, _. split; [reflexivity|]. simpl. split; [lia | reflexivity]. }
  destruct Hm as (mr & st2 & -> & Lm & Sm).
  eexists _, _. split; [reflexivity|]. simpl. rewrite Sm, Lm, Mk.
  split; [lia|]. now destruct (mr_success mr).
Qed.

(** *** Loading the index record again *)

Lemma index_row_of_key (mi : MarketIndicators) (row : IndexRow) :
  index_row_of mi = Normal row ->
  ir_index_name row = mi_index mi /\ ir_date row = mi_date mi.
Proof.
  unfold index_row_of.
  destruct (mi_price mi); [|discriminate].
  destruct (mi_priceChanges mi); [|discriminate].
  destruct (mi_volatility mi); [|discriminate].
  now intros [= <-].
Qed.

Lemma same_index_key_refl (row : IndexRow) (date : string) :
  ir_date row = Some date -> same_index_key (ir_index_name row) date row = true.
Proof.
  intros Hd. unfold same_index_key. rewrite String.eqb_refl, Hd. simpl.
  now apply bool_decide_eq_true_2.
Qed.

Lemma filter_none {A} (f : A -> bool) (l : list A) :
  existsb f l = false -> List.filter f l = [].
Proof.
  induction l as [|x l IH]; simpl; [reflexivity|].
  intros Hex. apply orb_false_elim in Hex as [-> Hl]. now apply IH.
Qed.

(** X10.  Loading the market-index record that an earlier load has
    persisted, for the same index name and date, leaves exactly one row
    under that key in [market_indicators] and does not raise an error: the
    insert is refused (by the uniqueness constraint, when the storage
    service answers at all), the table stays as it was, and the result
    reports a failure with the index name and the error message. *)
Theorem repeat_index_load_keeps_one_row (mi : MarketIndicators) (date : string)
    (env1 env2 : Env) (st : State) :
  let first := loadMarketIndicators (Some mi) env1 st in
  mi_date mi = Some date ->
  (exists r1, first.1 = Normal r1 /\ mr_success r1 = true) ->
  exists msg st2,
    loadMarketIndicators (Some mi) env2 first.2
    = (Normal {| mr_success := false; mr_index := Some (mi_index mi);
                 mr_date := None; mr_error := Some msg |}, st2) /\
    (env_db_fault env2 (st_inserts first.2) = None -> msg = index_unique_violation) /\
    st_market_indicators st2 = st_market_indicators first.2 /\
    length (List.filter (same_index_key (mi_index mi) date) (st_market_indicators st2)) = 1.
Proof.
  intros first Hdate (r1 & Hr1 & Hs). subst first. revert Hr1.
  unfold loadMarketIndicators.
  destruct (truthy (mi_error mi)) eqn:Herr.
  { simpl. intros [= <-]. discriminate. }
  unfold try_catch, mbind, M_bind, lift, call. simpl.
  destruct (index_row_of mi) as [row|e] eqn:Hrow; simpl.
  2:{ intros [= <-]. discriminate. }
  destruct (index_row_of_key mi row Hrow) as [Hname Hd]. rewrite Hdate in Hd.
  destruct (env_db_fault env1 (st_inserts st)) as [[msg|e]|]; simpl;
    try (intros [= <-]; discriminate).
  unfold insert_index_row. rewrite Hd.
  destruct (existsb (same_index_key (ir_index_name row) date) (st_market_indicators st))
    eqn:Hfresh; simpl; [intros [= <-]; discriminate|].
  intros _.
  assert (Hex : existsb (same_index_key (ir_index_name row) date)
                  (st_market_indicators st ++ [row]) = true).
  { rewrite existsb_app. simpl. rewrite (same_index_key_refl row date Hd).
    now rewrite orb_true_r. }
  assert (Hone : length (List.filter (same_index_key (mi_index mi) date)
                           (st_market_indicators st ++ [row])) = 1).
  { rewrite <- Hname, List.filter_app, length_app, (filter_none _ _ Hfresh). simpl.
    now rewrite (same_index_key_refl row date Hd). }
  destruct (env_db_fault env2 (S (st_inserts st))) as [[msg|e]|] eqn:Hfault; simpl.
  - eexists _, _. split; [reflexivity|]. simpl.
    split; [discriminate|]. split; [reflexivity | exact Hone].
  - eexists _, _. split; [reflexivity|]. simpl.
    split; [discriminate|]. split; [reflexivity | exact Hone].
  - rewrite Hex. simpl. eexists _, _. split; [reflexivity|]. simpl.
    split; [intros _; reflexivity|]. split; [reflexivity | exact Hone].
Qed.

(** The theorem at the sample index record of [load.js], loaded twice into
    empty tables. *)
Lemma repeat_index_load_witness :
  exists msg st2,
    loadMarketIndicators (Some sampleIndex) Reference.env
      (loadMarketIndicators (Some sampleIndex) Reference.env Reference.init).2
    = (Normal {| mr_success := false; mr_index := Some (mi_index sampleIndex);
                 mr_date := None; mr_error := Some msg |}, st2) /\
    (env_db_fault Reference.env
       (st_inserts (loadMarketIndicators (Some sampleIndex) Reference.env
                      Reference.init).2) = None ->
     msg = index_unique_violation) /\
    st_market_indicators st2
    = st_market_indicators
        (loadMarketIndicators (Some sampleIndex) Reference.env Reference.init).2 /\
    length (List.filter (same_index_key (mi_index sampleIndex) "2023-01-01")
              (st_market_indicators st2)) = 1.
Proof.
  apply (repeat_index_load_keeps_one_row sampleIndex "2023-01-01"
           Reference.env Reference.env Reference.init).
  - reflexivity.
  - eexists. split; vm_compute; reflexivity.
Defined.

(** ** The transform stage on a batch *)

Section TransformBatch.
Context `{Host}.

(** Every item of the batch has a shape on which the engine returns. *)
Definition batch_shape_ok (extractedData : ExtractedData) : bool :=
  forallb stock_shape_ok (ed_stockData extractedData)
  && match ed_marketData extractedData with
     | Some marketData => index_shape_ok marketData
     | None => true
     end.

Definition stock_record_of (sd : StockData) (m : StockMetrics) : Prop :=
  sm_symbol m = sd_symbol sd /\ sm_error m = stock_record_error sd.

Definition index_record_of (md : MarketData) (m : MarketIndicators) : Prop :=
  mi_index m = md_index md /\ mi_error m = index_record_error md.

Lemma mapM_calculateStockMetrics (batch : list StockData) (env : Env) (st : State) :
  if forallb stock_shape_ok batch
  then exists ms,
      mapM calculateStockMetrics batch env st = (Normal ms, Nat.iter (length batch) tick st) /\
      Forall2 stock_record_of batch ms /\
      map sm_transformedAt ms = map (env_clock env) (seq (st_reads st) (length batch))
  else exists msg st', mapM calculateStockMetrics batch env st = (Throw (TypeError msg), st').
Proof.
  revert st. induction batch as [|sd batch IH]; intros st; simpl.
  - exists []. split; [reflexivity|]. split; [constructor | reflexivity].
  - pose proof (calculateStockMetrics_shape sd env st) as Hsd.
    rewrite bind_run.
    destruct (stock_shape_ok sd); simpl.
    + destruct Hsd as (m & -> & Hsym & Herr & Ht).
      specialize (IH (tick st)). rewrite bind_run.
      destruct (forallb stock_shape_ok batch).
      * destruct IH as (ms & -> & Hall & Hts).
        exists (m :: ms). rewrite <- Nat.iter_succ_r. split; [reflexivity|].
        split; [constructor; [split; assumption | exact Hall]|].
        simpl. now rewrite Ht, Hts.
      * destruct IH as (msg & st' & ->). now eexists _, _.
    + destruct Hsd as (msg & ->). now eexists _, _.
Qed.

Lemma transform_shape (extractedData : ExtractedData) (env : Env) (st : State) :
  if batch_shape_ok extractedData
  then exists transformedData st',
      transform extractedData env st = (Normal transformedData, st') /\
      Forall2 stock_record_of (ed_stockData extractedData)
        (td_stockMetrics transformedData) /\
      option_Forall2 index_record_of (ed_marketData extractedData)
        (td_marketIndicators transformedData) /\
      map sm_transformedAt (td_stockMetrics transformedData)
      = map (env_clock env) (seq (st_reads st) (length (ed_stockData extractedData)))
  else exists msg st', transform extractedData env st = (Throw (TypeError msg), st').
Proof.
  unfold batch_shape_ok, transform. rewrite bind_run, call_log, bind_run.
  pose proof (mapM_calculateStockMetrics (ed_stockData extractedData) env
                (logged "Starting data transformation process..." st)) as Hmap.
  destruct (forallb stock_shape_ok (ed_stockData extractedData)); simpl.
  - destruct Hmap as (ms & -> & Hall & Hts). rewrite bind_run.
    destruct (ed_marketData extractedData) as [md|].
    + rewrite bind_run.
      match goal with |- context [calculateMarketIndicators md env ?s] =>
        pose proof (calculateMarketIndicators_shape md env s) as Hmd end.
      destruct (index_shape_ok md).
      * destruct Hmd as (m & -> & Hidx & Herr & _).
        eexists _, _. split; [reflexivity|]. simpl.
        split; [exact Hall|]. split; [constructor; split; assumption | exact Hts].
      * destruct Hmd as (msg & ->). now eexists _, _.
    + eexists _, _. split; [reflexivity|]. simpl.
      split; [exact Hall|]. split; [constructor | exact Hts].
  - destruct Hmap as (msg & st' & ->). now eexists _, _.
Qed.

(** X11.  [transform] has no handler of its own: it returns exactly when
    every item of the batch has a shape on which the engine returns, and
    any other item ends the whole stage with a [TypeError].  When it
    returns there is one record per RawSeries, in the order of the batch,
    for the same identifier, stamped by successive readings of the clock;
    the index record is present exactly when the index's RawSeries is. *)
Theorem transform_all_or_nothing (extractedData : ExtractedData) (env : Env) (st : State) :
  ((exists transformedData st',
       transform extractedData env st = (Normal transformedData, st'))
   <-> batch_shape_ok extractedData = true) /\
  (forall transformedData st',
      transform extractedData env st = (Normal transformedData, st') ->
      Forall2 stock_record_of (ed_stockData extractedData)
        (td_stockMetrics transformedData) /\
      option_Forall2 index_record_of (ed_marketData extractedData)
        (td_marketIndicators transformedData) /\
      map sm_transformedAt (td_stockMetrics transformedData)
      = map (env_clock env) (seq (st_reads st) (length (ed_stockData extractedData)))) /\
  (forall e st',
      transform extractedData env st = (Throw e, st') -> exn_name e = "TypeError").
Proof.
  pose proof (transform_shape extractedData env st) as Hs.
  destruct (batch_shape_ok extractedData).
  - destruct Hs as (td & st1 & Hrun & Hall & Hidx & Hts). split; [|split].
    + split; [reflexivity | intros _; now exists td, st1].
    + intros td' st' Hrun'. rewrite Hrun in Hrun'. injection Hrun' as <- <-.
      split; [exact Hall|]. split; [exact Hidx | exact Hts].
    + intros e st' Hrun'. rewrite Hrun in Hrun'. discriminate.
  - destruct Hs as (msg & st1 & Hrun). split; [|split].
    + split; [|discriminate]. intros (td & st' & Hrun').
      rewrite Hrun in Hrun'. discriminate.
    + intros td' st' Hrun'. rewrite Hrun in Hrun'. discriminate.
    + intros e st' Hrun'. rewrite Hrun in Hrun'. injection Hrun' as <- <-. reflexivity.
Qed.

End TransformBatch.

(** ** When the run succeeds *)

Lemma fetchMarketIndexData_result (env : Env) (st : State) :
  exists st',
    fetchMarketIndexData env st
    = (Normal (index_result env (env_clock env (st_reads st))), st').
Proof.
  unfold fetchMarketIndexData, try_catch, index_result, index_failure.
  rewrite !bind_run. unfold call at 1. simpl.
  destruct (env_index env) as [data|e]; simpl; [|now eexists].
  destruct (data ≫= fmp_historical) as [historical|]; simpl; now eexists.
Qed.

Lemma extract_result (STOCKS_TO_TRACK : list string) (env : Env) (st : State) :
  exists extractedData st',
    extract STOCKS_TO_TRACK env st = (Normal extractedData, st') /\
    Forall2 (fetched env) STOCKS_TO_TRACK (ed_stockData extractedData) /\
    exists extractedAt, ed_marketData extractedData = Some (index_result env extractedAt).
Proof.
  unfold extract. rewrite bind_run, call_log, bind_run. unfold map_async.
  pose proof (start_all_yields env (map (fetched env) STOCKS_TO_TRACK)
                (map fetchStockData STOCKS_TO_TRACK)) as Hstart.
  destruct (start_all (map fetchStockData STOCKS_TO_TRACK) env _) as [ps st1] eqn:Hs.
  rewrite bind_run.
  destruct (Promise_all_yields env (map (fetched env) STOCKS_TO_TRACK) ps st1)
    as (stockData & st2 & -> & Hall).
  { specialize (Hstart ltac:(apply Forall2_fmap, Forall_Forall2_diag, Forall_forall;
                              intros; apply fetchStockData_yields)
                       (logged "Starting data extraction process..." st)).
    now rewrite Hs in Hstart. }
  rewrite bind_run.
  destruct (fetchMarketIndexData_result env st2) as (st3 & ->).
  rewrite bind_run, now_run, bind_run.
  match goal with |- context [saveRawData ?d env ?s] =>
    destruct (saveRawData_returns d env s) as (path & st4 & ->) end.
  rewrite bind_run.
  assert (Hitems : Forall2 (fetched env) STOCKS_TO_TRACK stockData).
  { apply Forall2_fmap_l in Hall. eapply Forall2_impl; [exact Hall|]. auto. }
  destruct path as [path|].
  - rewrite call_log. eexists _, _. split; [reflexivity|].
    split; [exact Hitems | now eexists].
  - eexists _, _. split; [reflexivity|]. split; [exact Hitems | now eexists].
Qed.

Lemma load_returns (transformedData : TransformedData) : total (load transformedData).
Proof.
  intros env st. unfold load. rewrite bind_run, call_log, bind_run.
  unfold loadStockMetrics.
  destruct (for_of_load_stock_counts (td_stockMetrics transformedData)
              {| lr_success := []; lr_errors := [] |} env
              (logged "Starting data loading process..." st))
    as (r & st1 & -> & _).
  rewrite bind_run.
  destruct (td_marketIndicators transformedData) as [mi|].
  - destruct (loadMarketIndicators_returns (Some mi) env st1) as (mr & st2 & ->).
    now eexists _, _.
  - now eexists _, _.
Qed.

(** A fetch that failed with a message. *)
Definition reported (failure : option string) : Prop := failure <> Some "".

#[global] Instance reported_dec (failure : option string) : Decision (reported failure).
Proof. unfold reported. apply _. Defined.

Lemma fetch_result_shape (env : Env) (symbol extractedAt : string) :
  stock_shape_ok (fetch_result env symbol extractedAt) = true
  <-> reported (fetch_failure env symbol).
Proof.
  unfold stock_shape_ok, fetch_result, reported.
  destruct (fetch_failure env symbol) as [msg|]; simpl.
  - rewrite orb_false_r. destruct (String.eqb_spec msg ""); simpl.
    + subst. split; [discriminate | congruence].
    + split; [congruence | reflexivity].
  - split; [discriminate|]. intros _. destruct (daily_series env symbol); reflexivity.
Qed.

Lemma index_result_shape (env : Env) (extractedAt : string) :
  index_shape_ok (index_result env extractedAt) = true <-> reported (index_failure env).
Proof.
  unfold index_shape_ok, index_result, reported.
  destruct (index_failure env) as [msg|] eqn:Hf; simpl.
  - rewrite orb_false_r. destruct (String.eqb_spec msg ""); simpl.
    + subst. split; [discriminate | congruence].
    + split; [congruence | reflexivity].
  - split; [discriminate|]. intros _. apply bool_decide_eq_true_2.
    unfold index_failure in Hf. destruct (env_index env) as [data|e]; [|discriminate].
    destruct (data ≫= fmp_historical); [now eexists | discriminate].
Qed.

Lemma fetched_batch_shape (env : Env) (symbols : list string) (batch : list StockData) :
  Forall2 (fetched env) symbols batch ->
  forallb stock_shape_ok batch = true
  <-> Forall (fun symbol => reported (fetch_failure env symbol)) symbols.
Proof.
  induction 1 as [|symbol r symbols batch [t ->] _ IH]; simpl.
  - split; [constructor | reflexivity].
  - rewrite andb_true_iff, Forall_cons, IH, fetch_result_shape. reflexivity.
Qed.

(** X12.  [runETLPipeline] reports success unless some fetch failed with
    an exception whose message is empty.  A fetch that fails with a
    message gives an item that the later stages skip, and no failure of the
    file system or of the storage service fails the run; a failure without
    a message gives an item that the engine takes for a series, and the
    [TypeError] it throws there ends the run. *)
Theorem run_succeeds_iff_failures_reported `{Host} (STOCKS_TO_TRACK : list string)
    (env : Env) (st : State) :
  exists result st',
    runETLPipeline STOCKS_TO_TRACK env st = (Normal result, st') /\
    (pr_success result = true
     <-> Forall (fun symbol => reported (fetch_failure env symbol)) STOCKS_TO_TRACK /\
         reported (index_failure env)) /\
    (pr_success result = true -> result = success_result) /\
    (pr_success result = false ->
     exists msg, result = failure_result (TypeError msg)).
Proof.
  unfold runETLPipeline.
  destruct (run_stages_returns (extract STOCKS_TO_TRACK) transform load env st)
    as [st' ->].
  eexists _, st'. split; [reflexivity|].
  unfold staged_result.
  match goal with |- context [extract STOCKS_TO_TRACK env ?s] =>
    destruct (extract_result STOCKS_TO_TRACK env s)
      as (rawData & st2 & -> & Hitems & t & Hidx) end.
  assert (Hshape : batch_shape_ok rawData = true
                   <-> Forall (fun symbol => reported (fetch_failure env symbol))
                         STOCKS_TO_TRACK /\ reported (index_failure env)).
  { unfold batch_shape_ok. rewrite Hidx, andb_true_iff.
    now rewrite (fetched_batch_shape env _ _ Hitems), index_result_shape. }
  match goal with |- context [transform rawData env ?s] =>
    pose proof (transform_shape rawData env s) as Ht end.
  destruct (batch_shape_ok rawData).
  - destruct Ht as (td & st4 & -> & _).
    match goal with |- context [load td env ?s] =>
      destruct (load_returns td env s) as (r & st6 & ->) end.
    split; [|split].
    + split; [intros _; now apply Hshape | reflexivity].
    + reflexivity.
    + discriminate.
  - destruct Ht as (msg & st4 & ->). split; [|split].
    + split; [discriminate | intros Hok; now apply Hshape].
    + discriminate.
    + intros _. now exists msg.
Qed.

(** ** The end of the orchestrator's module, and the scheduler's runs *)

(** [scheduler.js]: the callback of [cron.schedule]. *)
Definition scheduled_run `{Host} (STOCKS_TO_TRACK : list string) : M unit :=
  now ← call NowISO;
  _ ← call (ConsoleLog ("Running scheduled ETL pipeline at " +:+ now));
  try_catch
    (result ← runETLPipeline STOCKS_TO_TRACK;
     if pr_success result
     then call (ConsoleLog "Scheduled ETL pipeline completed successfully")
     else call (ConsoleError ("Scheduled ETL pipeline failed: "
                                +:+ default "undefined" (pr_error result))))
    (fun error =>
       call (ConsoleError ("Error in scheduled ETL pipeline: " +:+ message error))).

(** [scheduler.js]: the run that [startScheduler] makes on startup. *)
Definition initial_run `{Host} (STOCKS_TO_TRACK : list string) : M unit :=
  _ ← call (ConsoleLog "Running initial ETL pipeline...");
  try_catch
    (result ← runETLPipeline STOCKS_TO_TRACK;
     if pr_success result
     then call (ConsoleLog "Initial ETL pipeline completed successfully")
     else call (ConsoleError ("Initial ETL pipeline failed: "
                                +:+ default "undefined" (pr_error result))))
    (fun err =>
       call (ConsoleError ("Error in initial ETL pipeline: " +:+ message err))).

Lemma runETLPipeline_returns `{Host} (STOCKS_TO_TRACK : list string)
    (env : Env) (st : State) :
  exists st',
    runETLPipeline STOCKS_TO_TRACK env st
    = (Normal (staged_result (extract STOCKS_TO_TRACK) transform load env st), st') /\
    st_exit st' = st_exit st.
Proof.
  unfold runETLPipeline.
  destruct (run_stages_returns (extract STOCKS_TO_TRACK) transform load env st)
    as [st' Hrun].
  exists st'. split; [exact Hrun|].
  pose proof (orderly_run_stages (extract STOCKS_TO_TRACK) transform load
                (orderly_extract STOCKS_TO_TRACK) orderly_transform orderly_load
                env st) as [Hexit _].
  now rewrite Hrun in Hexit.
Qed.

(** X13.  The block at the end of [index.js] is never entered.  Its guard
    compares the module's URL, a string, with [import.meta.main], a
    boolean or [undefined], by strict equality, which holds of no such
    pair: whatever the URL and whatever [import.meta.main] is, loading the
    module makes no run of the pipeline, writes no line and leaves the
    exit status alone.  Run directly, [index.js] therefore never ends the
    process with status 1. *)
Theorem main_block_never_entered `{Host} (meta : ImportMeta)
    (STOCKS_TO_TRACK : list string) (env : Env) (st : State) :
  run_directly meta = false /\
  main meta STOCKS_TO_TRACK env st = (Normal tt, st).
Proof.
  assert (Hguard : run_directly meta = false).
  { unfold run_directly. now destruct (meta_main meta). }
  split; [exact Hguard|]. unfold main. now rewrite Hguard.
Qed.

(** X14.  A run made by the scheduler, on the schedule or on startup,
    neither throws nor ends the process, whatever the run's result: the
    last line it writes reports the success on the console, or the
    failure, with the error's message, on the error console. *)
Theorem scheduler_runs_report_and_continue `{Host} (STOCKS_TO_TRACK : list string)
    (env : Env) (st : State) :
  (exists result st1 st',
      runETLPipeline STOCKS_TO_TRACK env
        (logged ("Running scheduled ETL pipeline at " +:+ env_clock env (st_reads st))
           (tick st)) = (Normal result, st1) /\
      scheduled_run STOCKS_TO_TRACK env st = (Normal tt, st') /\
      st_exit st' = st_exit st /\
      last (st_trace st')
      = Some (Issue (if pr_success result
                     then ConsoleLog "Scheduled ETL pipeline completed successfully"
                     else ConsoleError ("Scheduled ETL pipeline failed: "
                                          +:+ default "undefined" (pr_error result)))))
  /\
  (exists result st1 st',
      runETLPipeline STOCKS_TO_TRACK env (logged "Running initial ETL pipeline..." st)
      = (Normal result, st1) /\
      initial_run STOCKS_TO_TRACK env st = (Normal tt, st') /\
      st_exit st' = st_exit st /\
      last (st_trace st')
      = Some (Issue (if pr_success result
                     then ConsoleLog "Initial ETL pipeline completed successfully"
                     else ConsoleError ("Initial ETL pipeline failed: "
                                          +:+ default "undefined" (pr_error result))))).
Proof.
  split.
  - destruct (runETLPipeline_returns STOCKS_TO_TRACK env
                (logged ("Running scheduled ETL pipeline at "
                           +:+ env_clock env (st_reads st)) (tick st)))
      as (st1 & Hrun & Hexit).
    match type of Hrun with _ = (Normal ?r, _) =>
      exists r, st1; destruct (pr_success r) eqn:Hs end.
    + eexists. split; [exact Hrun|]. split.
      * unfold scheduled_run, try_catch.
        rewrite bind_run, now_run, bind_run, call_log, bind_run, Hrun, Hs. reflexivity.
      * split; [exact Hexit | apply last_snoc].
    + eexists. split; [exact Hrun|]. split.
      * unfold scheduled_run, try_catch.
        rewrite bind_run, now_run, bind_run, call_log, bind_run, Hrun, Hs. reflexivity.
      * split; [exact Hexit | apply last_snoc].
  - destruct (runETLPipeline_returns STOCKS_TO_TRACK env
                (logged "Running initial ETL pipeline..." st))
      as (st1 & Hrun & Hexit).
    match type of Hrun with _ = (Normal ?r, _) =>
      exists r, st1; destruct (pr_success r) eqn:Hs end.
    + eexists. split; [exact Hrun|]. split.
      * unfold initial_run, try_catch.
        rewrite bind_run, call_log, bind_run, Hrun, Hs. reflexivity.
      * split; [exact Hexit | apply last_snoc].
    + eexists. split; [exact Hrun|]. split.
      * unfold initial_run, try_catch.
        rewrite bind_run, call_log, bind_run, Hrun, Hs. reflexivity.
      * split; [exact Hexit | apply last_snoc].
Qed.

(** ** The audit file and the batch *)

(** The world [env] with other verdicts of the file system. *)
Definition with_fs (mkdir writeFile : Outcome unit) (env : Env) : Env :=
  {| env_clock := env_clock env;
     env_daily := env_daily env;
     env_overview := env_overview env;
     env_index := env_index env;
     env_cwd := env_cwd env;
     env_mkdir := mkdir;
     env_writeFile := writeFile;
     env_db_fault := env_db_fault env;
     env_sched := env_sched env |}.

Definition fs_call (c : Call) : bool :=
  match c with
  | FsMkdir _ | FsWriteFile _ => true
  | _ => false
  end.

(** An async function that makes no call to the file system. *)
Inductive fs_free {A} : Task A -> Prop :=
| fs_free_ret (a : A) : fs_free (Ret a)
| fs_free_raise (e : Exn) : fs_free (Raise e)
| fs_free_do (c : Call) (k : answer c -> Task A) :
    fs_call c = false -> (forall r, fs_free (k r)) -> fs_free (Do c k).

Definition promise_fs_free {A} (p : Promise A) : Prop :=
  match p with
  | Pending c k => fs_call c = false /\ forall r, fs_free (k r)
  | _ => True
  end.

Section FileSystemVerdicts.
Variables (mkdir writeFile : Outcome unit) (env : Env).

Lemma perform_fs (c : Call) (st : State) :
  fs_call c = false -> perform c (with_fs mkdir writeFile env) st = perform c env st.
Proof. destruct c; simpl; intros Hc; try discriminate; reflexivity. Qed.

Lemma do_sync_fs (c : Call) (st : State) :
  fs_call c = false -> do_sync c (with_fs mkdir writeFile env) st = do_sync c env st.
Proof. intros Hc. unfold do_sync. now rewrite perform_fs. Qed.

Lemma start_fs {A} (t : Task A) (st : State) :
  fs_free t ->
  start t (with_fs mkdir writeFile env) st = start t env st /\
  promise_fs_free (start t env st).1.
Proof.
  intros Ht. revert st. induction Ht as [a|e|c k Hc Hk IH]; intros st; simpl.
  - split; [reflexivity | exact I].
  - split; [reflexivity | exact I].
  - destruct (is_async c).
    + split; [reflexivity|]. simpl. split; assumption.
    + rewrite do_sync_fs by exact Hc. destruct (do_sync c env st) as [r st1]. apply IH.
Qed.

Lemma resume_fs {A} (p : Promise A) (st : State) :
  promise_fs_free p ->
  resume p (with_fs mkdir writeFile env) st = resume p env st /\
  promise_fs_free (resume p env st).1.
Proof.
  destruct p as [a|e|c k]; simpl.
  - intros _. split; [reflexivity | exact I].
  - intros _. split; [reflexivity | exact I].
  - intros [Hc Hk]. rewrite perform_fs by exact Hc.
    destruct (perform c env st) as [r st1]. now apply start_fs.
Qed.

Lemma start_all_fs {A} (ts : list (Task A)) (st : State) :
  Forall fs_free ts ->
  start_all ts (with_fs mkdir writeFile env) st = start_all ts env st /\
  Forall promise_fs_free (start_all ts env st).1.
Proof.
  intros Hts. revert st. induction Hts as [|t ts Ht _ IH]; intros st; simpl.
  - split; [reflexivity | constructor].
  - destruct (start_fs t st Ht) as [-> Hp].
    destruct (start t env st) as [p st1]. destruct (IH st1) as [-> Hps].
    destruct (start_all ts env st1) as [ps st2]. split; [reflexivity|].
    now constructor.
Qed.

Lemma run_sched_fs {A} (sched : list nat) (ps : list (Promise A)) (st : State) :
  Forall promise_fs_free ps ->
  run_sched sched ps (with_fs mkdir writeFile env) st = run_sched sched ps env st /\
  Forall promise_fs_free (run_sched sched ps env st).1.
Proof.
  revert ps st. induction sched as [|n sched IH]; intros ps st Hps; simpl.
  - split; [reflexivity | exact Hps].
  - destruct (pending_indices 0 ps) as [|i0 rest]; [split; [reflexivity | exact Hps]|].
    match goal with |- context [ps !! ?j] => set (i := j) end.
    destruct (ps !! i) as [p|] eqn:Hp; [|split; [reflexivity | exact Hps]].
    destruct (resume_fs p st) as [-> Hp'].
    { eapply Forall_lookup_1; [exact Hps | exact Hp]. }
    destruct (resume p env st) as [p' st1]. apply IH.
    now apply Forall_insert.
Qed.

Lemma finish_fs {A} (t : Task A) (st : State) :
  fs_free t -> finish t (with_fs mkdir writeFile env) st = finish t env st.
Proof.
  intros Ht. revert st. induction Ht as [a|e|c k Hc Hk IH]; intros st; simpl;
    [reflexivity | reflexivity |].
  destruct (is_async c).
  - rewrite perform_fs by exact Hc. destruct (perform c env _) as [r st1]. apply IH.
  - rewrite do_sync_fs by exact Hc. destruct (do_sync c env st) as [r st1]. apply IH.
Qed.

Lemma drain_fs {A} (ps : list (Promise A)) (st : State) :
  Forall promise_fs_free ps ->
  drain ps (with_fs mkdir writeFile env) st = drain ps env st.
Proof.
  intros Hps. revert st. induction Hps as [|p ps Hp _ IH]; intros st; simpl;
    [reflexivity|].
  assert (Hf : finish_promise p (with_fs mkdir writeFile env) st
               = finish_promise p env st).
  { destruct p as [a|e|c k]; simpl; [reflexivity | reflexivity |].
    destruct Hp as [Hc Hk]. rewrite perform_fs by exact Hc.
    destruct (perform c env st) as [r st1]. now apply finish_fs. }
  rewrite Hf. destruct (finish_promise p env st) as [r st1]. now rewrite IH.
Qed.

Lemma Promise_all_fs {A} (promises : list (Promise A)) (st : State) :
  Forall promise_fs_free promises ->
  Promise_all promises (with_fs mkdir writeFile env) st = Promise_all promises env st.
Proof.
  intros Hps. unfold Promise_all.
  change (env_sched (with_fs mkdir writeFile env)) with (env_sched env).
  destruct (run_sched_fs (env_sched env) promises st Hps) as [-> Hps'].
  destruct (run_sched (env_sched env) promises env st) as [ps st1].
  now rewrite drain_fs.
Qed.

Lemma fetchStockData_fs_free (symbol : string) : fs_free (fetchStockData symbol).
Proof.
  assert (Hcatch : forall e : Exn, @fs_free StockData
            (_ ← Do (ConsoleError ("Error fetching data for " +:+ symbol +:+ ": "
                                     +:+ message e)) Ret;
             extractedAt ← Do NowISO Ret;
             Ret {| sd_symbol := symbol; sd_error := Some (message e);
                    sd_timeSeries := None; sd_overview := None;
                    sd_extractedAt := extractedAt |})).
  { intros e. constructor; [reflexivity|]. intros _. constructor; [reflexivity|].
    intros t. constructor. }
  unfold fetchStockData. constructor; [reflexivity|].
  intros [[data|]|e]; simpl;
    [|exact (Hcatch (TypeError _)) | exact (Hcatch e)].
  destruct (truthy (av_errorMessage data)); simpl; [exact (Hcatch (Error _))|].
  constructor; [reflexivity|]. intros [ov|e]; simpl; [|exact (Hcatch e)].
  constructor; [reflexivity|]. intros _. constructor; [reflexivity|]. intros t.
  constructor.
Qed.

Lemma fetchMarketIndexData_fs (st : State) :
  fetchMarketIndexData (with_fs mkdir writeFile env) st = fetchMarketIndexData env st.
Proof.
  unfold fetchMarketIndexData, try_catch. rewrite !bind_run. unfold call at 1 3. simpl.
  destruct (env_index env) as [data|e]; simpl; [|reflexivity].
  destruct (data ≫= fmp_historical); reflexivity.
Qed.

End FileSystemVerdicts.

(** X15.  The batch that [extract] returns does not depend on the file
    system: whether the directory could be made and the audit file
    written changes what is logged, and nothing of the returned RawSeries,
    the index's RawSeries or the extraction timestamp. *)
Theorem extract_result_independent_of_audit_file (STOCKS_TO_TRACK : list string)
    (mkdir writeFile : Outcome unit) (env : Env) (st : State) :
  (extract STOCKS_TO_TRACK (with_fs mkdir writeFile env) st).1
  = (extract STOCKS_TO_TRACK env st).1.
Proof.
  unfold extract. rewrite !bind_run, !call_log, !bind_run. unfold map_async.
  destruct (start_all_fs mkdir writeFile env (map fetchStockData STOCKS_TO_TRACK)
              (logged "Starting data extraction process..." st)) as [-> Hps].
  { apply Forall_fmap, Forall_forall. intros symbol _. apply fetchStockData_fs_free. }
  destruct (start_all (map fetchStockData STOCKS_TO_TRACK) env _) as [ps st1].
  simpl in Hps. rewrite !bind_run, Promise_all_fs by exact Hps.
  destruct (Promise_all ps env st1) as [[stockData|e] st2]; [|reflexivity].
  rewrite !bind_run, fetchMarketIndexData_fs.
  destruct (fetchMarketIndexData_returns env st2) as (marketData & st3 & ->).
  rewrite !bind_run, !now_run, !bind_run.
  change (env_clock (with_fs mkdir writeFile env)) with (env_clock env).
  set (extractedData := {| ed_stockData := stockData;
                           ed_marketData := Some marketData;
                           ed_extractionTimestamp := env_clock env (st_reads st3) |}).
  destruct (saveRawData_returns extractedData (with_fs mkdir writeFile env) (tick st3))
    as (path' & st4' & ->).
  destruct (saveRawData_returns extractedData env (tick st3)) as (path & st4 & ->).
  rewrite !bind_run.
  destruct path', path; reflexivity.
Qed.

(** ** One fetch, awaited on its own *)

Definition overview_requested (env : Env) (symbol : string) : bool :=
  match env_daily env symbol with
  | Fulfilled (Some data) => negb (truthy (av_errorMessage data))
  | _ => false
  end.

(** What [fetchStockData] adds to the trace. *)
Definition fetch_trace (env : Env) (symbol : string) : list Event :=
  [Issue (AxiosGetDaily symbol); Settle (AxiosGetDaily symbol)]
  ++ (if overview_requested env symbol
      then [Issue (AxiosGetOverview symbol); Settle (AxiosGetOverview symbol)]
      else [])
  ++ match fetch_failure env symbol with
     | Some msg =>
         [Issue (ConsoleError ("Error fetching data for " +:+ symbol +:+ ": " +:+ msg))]
     | None => [Issue (SetTimeout 1500); Settle (SetTimeout 1500)]
     end.

(** X16.  [fetchStockData], awaited on its own, never throws and reads
    the clock once.  It requests the daily series first; the overview is
    requested only when the daily response is a body without an error
    message; the pause of 1.5 s is made only after both requests have
    succeeded, and a failure is written once to the error console
    instead. *)
Theorem fetchStockData_requests (symbol : string) (env : Env) (st : State) :
  exists st',
    finish (fetchStockData symbol) env st
    = (Normal (fetch_result env symbol (env_clock env (st_reads st))), st') /\
    st_reads st' = S (st_reads st) /\
    st_trace st' = st_trace st ++ fetch_trace env symbol.
Proof.
  unfold fetchStockData, fetch_result, fetch_trace, fetch_failure, overview_requested,
    daily_series, overview_data.
  simpl. destruct (env_daily env symbol) as [[data|]|e]; simpl.
  - destruct (truthy (av_errorMessage data)); simpl.
    + eexists. split; [reflexivity|]. split; [reflexivity|]. simpl.
      now rewrite <- !app_assoc.
    + destruct (env_overview env symbol) as [ov|e]; simpl.
      * eexists. split; [reflexivity|]. split; [reflexivity|]. simpl.
        now rewrite <- !app_assoc.
      * eexists. split; [reflexivity|]. split; [reflexivity|]. simpl.
        now rewrite <- !app_assoc.
  - eexists. split; [reflexivity|]. split; [reflexivity|]. simpl.
    now rewrite <- !app_assoc.
  - eexists. split; [reflexivity|]. split; [reflexivity|]. simpl.
    now rewrite <- !app_assoc.
Qed.

(** ** The end of the extractor's module *)

(** The end of [extract.js]: under the guard,
    [extract().then(...).catch(...)]. *)
Definition extract_main (meta : ImportMeta) (STOCKS_TO_TRACK : list string) : M unit :=
  if run_directly meta then
    try_catch
      (data ← extract STOCKS_TO_TRACK;
       _ ← call (ConsoleLog "Extraction completed successfully");
       call (ConsoleLog ("Extracted data for " +:+ pretty (length (ed_stockData data))
                           +:+ " stocks")))
      (fun err =>
         _ ← call (ConsoleError ("Error in extraction process: " +:+ message err));
         process_exit 1)
  else mret tt.

(** X17.  The block at the end of [extract.js] is never entered, for the
    same reason: whatever the module's URL and whatever
    [import.meta.main] is, loading [extract.js] makes no request, writes
    no file and no line, and leaves the exit status alone. *)
Theorem extract_main_block_never_entered (meta : ImportMeta)
    (STOCKS_TO_TRACK : list string) (env : Env) (st : State) :
  run_directly meta = false /\
  extract_main meta STOCKS_TO_TRACK env st = (Normal tt, st).
Proof.
  assert (Hguard : run_directly meta = false).
  { unfold run_directly. now destruct (meta_main meta). }
  split; [exact Hguard|]. unfold extract_main. now rewrite Hguard.
Qed.
